(** * Minimotion: the timeline scheduler of the animation core

    A shallow embedding of [src/core/anim.ts], [src/core/entities.ts],
    [src/core/utils.ts] and [src/core/types.ts], followed by the properties
    of the scheduler that the specification states.

    Conventions of the embedding:
    - time positions and durations of entities are integers ([Z],
      milliseconds); the numbers that reach [adjustDuration] are JavaScript
      numbers with their non-finite values ([JS.number]);
    - objects shared by reference (running entities, markers) live in stores
      indexed by identifiers, and the [next]/[prev]/[nextEntity] links are
      identifiers;
    - methods that mutate the timeline are written in a state and error monad;
      loops that chase links take fuel and report [Diverge] when it runs out. *)

From Stdlib Require Import ZArith QArith Qround Qcanon Qminmax Lia Lqa List
  String Ascii Bool.
From stdpp Require Import base list.
Import ListNotations.
Local Open Scope Z_scope.

(** ** JavaScript numbers *)

Module JS.

(** A JavaScript [number]: a finite value, kept as an exact rational, or one
    of the three non-finite values. Rounding errors of the binary format and
    the sign of zero are not represented. *)
Inductive number : Type :=
| Fin (q : Q)
| PosInf
| NegInf
| NaN.

Definition ofZ (z : Z) : number := Fin (inject_Z z).

Definition isZero (q : Q) : bool := Qeq_bool q 0.
Definition isNeg (q : Q) : bool := negb (Qle_bool 0 q).

(** [-x] *)
Definition neg (x : number) : number :=
  match x with
  | Fin q => Fin (- q)
  | PosInf => NegInf
  | NegInf => PosInf
  | NaN => NaN
  end.

(** [x / y] *)
Definition div (x y : number) : number :=
  match x, y with
  | NaN, _ | _, NaN => NaN
  | Fin a, Fin b =>
      if isZero b then
        if isZero a then NaN else if isNeg a then NegInf else PosInf
      else Fin (a / b)
  | Fin _, (PosInf | NegInf) => Fin 0
  | PosInf, Fin b => if isNeg b then NegInf else PosInf
  | NegInf, Fin b => if isNeg b then PosInf else NegInf
  | (PosInf | NegInf), (PosInf | NegInf) => NaN
  end.

(** [x * y] *)
Definition mul (x y : number) : number :=
  match x, y with
  | NaN, _ | _, NaN => NaN
  | Fin a, Fin b => Fin (a * b)
  | Fin a, PosInf | PosInf, Fin a =>
      if isZero a then NaN else if isNeg a then NegInf else PosInf
  | Fin a, NegInf | NegInf, Fin a =>
      if isZero a then NaN else if isNeg a then PosInf else NegInf
  | PosInf, PosInf | NegInf, NegInf => PosInf
  | PosInf, NegInf | NegInf, PosInf => NegInf
  end.

(** [x > y] *)
Definition gtb (x y : number) : bool :=
  match x, y with
  | NaN, _ | _, NaN => false
  | Fin a, Fin b => negb (Qle_bool a b)
  | PosInf, (Fin _ | NegInf) => true
  | Fin _, NegInf => true
  | _, _ => false
  end.

(** [Math.round]: the nearest integer, halves rounded towards [+Infinity]. *)
Definition Math_round (x : number) : number :=
  match x with
  | Fin q => Fin (inject_Z (Qfloor (q + (1 # 2))))
  | _ => x
  end.

(** [Math.trunc] on a finite value: the integer part, rounded towards zero. *)
Definition Math_trunc (q : Q) : Z := Z.quot (Qnum q) (Zpos (Qden q)).

(** [Math.ceil] on a finite value. *)
Definition Math_ceil (q : Q) : Z := Qceiling q.

(** The integer a number denotes, when it is finite and integral. *)
Definition toZ (x : number) : option Z :=
  match x with
  | Fin q => let r := Qred q in
             if Pos.eqb (Qden r) 1 then Some (Qnum r) else None
  | _ => None
  end.

(** [x || d] for an optional rational: [undefined] and [0] are falsy. *)
Definition orQ (x : option Q) (d : Q) : Q :=
  match x with
  | Some q => if isZero q then d else q
  | None => d
  end.

(** [x || d] for an optional integer. *)
Definition orZ (x : option Z) (d : Z) : Z :=
  match x with
  | Some z => if z =? 0 then d else z
  | None => d
  end.

(** [x || d] for an optional boolean. *)
Definition orB (x : option bool) (d : bool) : bool :=
  match x with
  | Some true => true
  | _ => d
  end.

End JS.

(** ** Constants of [anim.ts] *)

(** The duration of a single frame, in milliseconds. *)
Definition FRAME_MS : Z := 16.

(** The maximum value a time property can use: [Number.MAX_SAFE_INTEGER]. *)
Definition MAX_TIME : Z := 9007199254740991.

(** Maximum number of iterations done to exhaust the asynchronous pipe. *)
Definition MAX_ASYNC : Z := 100.

(** Default maximum duration for an animation (10 minutes). *)
Definition MAX_TL_DURATION_MS : Z := 600000.

(** [adjustDuration(durationMs, speed)]:
    [Math.round(durationMs / speed / FRAME_MS) * FRAME_MS]. *)
Definition adjustDuration (durationMs speed : JS.number) : JS.number :=
  JS.mul (JS.Math_round (JS.div (JS.div durationMs speed) (JS.ofZ FRAME_MS)))
         (JS.ofZ FRAME_MS).

(** Whether a number is an integral multiple of the frame duration. *)
Definition isMultipleOf16 (x : JS.number) : bool :=
  match JS.toZ x with
  | Some z => z mod 16 =? 0
  | None => false
  end.

(** Identifiers of the objects kept in stores, and of promise resolvers. *)
Definition EntityId := nat.
Definition MarkerId := nat.
Definition Callback := nat.

(** ** [entities.ts]: the abstract class [TimelineEntity] *)

Module TimelineEntity.

(** The concrete class of an entity object. *)
Inductive Kind : Type := Delay | TweenGroup | Play.

(** The fields of [TimelineEntity]. [parent] records whether the entity has
    been attached (the only parent of the embedding is the timeline that owns
    the store); [releaseCb] is the resolver of the promise handed to the
    caller, [None] standing for [null]. *)
Record t : Type := mk {
  kind : Kind;
  isRunning : bool;
  startRegistered : bool;
  endRegistered : bool;
  released : bool;
  done : bool;
  parent : bool;
  delay : Z;
  release : Z;
  duration : Z;
  startTime : Z;
  delayTime : Z;
  releaseTime : Z;
  doneTime : Z;
  endTime : Z;
  releaseCb : option Callback;
  nextEntity : option EntityId
}.

Definition set_isRunning (v : bool) (x : t) : t :=
  mk (kind x) v (startRegistered x) (endRegistered x) (released x) (done x)
    (parent x) (delay x) (release x) (duration x) (startTime x) (delayTime x)
    (releaseTime x) (doneTime x) (endTime x) (releaseCb x) (nextEntity x).
Definition set_startRegistered (v : bool) (x : t) : t :=
  mk (kind x) (isRunning x) v (endRegistered x) (released x) (done x)
    (parent x) (delay x) (release x) (duration x) (startTime x) (delayTime x)
    (releaseTime x) (doneTime x) (endTime x) (releaseCb x) (nextEntity x).
Definition set_endRegistered (v : bool) (x : t) : t :=
  mk (kind x) (isRunning x) (startRegistered x) v (released x) (done x)
    (parent x) (delay x) (release x) (duration x) (startTime x) (delayTime x)
    (releaseTime x) (doneTime x) (endTime x) (releaseCb x) (nextEntity x).
Definition set_released (v : bool) (x : t) : t :=
  mk (kind x) (isRunning x) (startRegistered x) (endRegistered x) v (done x)
    (parent x) (delay x) (release x) (duration x) (startTime x) (delayTime x)
    (releaseTime x) (doneTime x) (endTime x) (releaseCb x) (nextEntity x).
Definition set_done (v : bool) (x : t) : t :=
  mk (kind x) (isRunning x) (startRegistered x) (endRegistered x)
    (released x) v (parent x) (delay x) (release x) (duration x)
    (startTime x) (delayTime x) (releaseTime x) (doneTime x) (endTime x)
    (releaseCb x) (nextEntity x).
Definition set_parent (v : bool) (x : t) : t :=
  mk (kind x) (isRunning x) (startRegistered x) (endRegistered x)
    (released x) (done x) v (delay x) (release x) (duration x) (startTime x)
    (delayTime x) (releaseTime x) (doneTime x) (endTime x) (releaseCb x)
    (nextEntity x).
Definition set_delay (v : Z) (x : t) : t :=
  mk (kind x) (isRunning x) (startRegistered x) (endRegistered x)
    (released x) (done x) (parent x) v (release x) (duration x) (startTime x)
    (delayTime x) (releaseTime x) (doneTime x) (endTime x) (releaseCb x)
    (nextEntity x).
Definition set_release (v : Z) (x : t) : t :=
  mk (kind x) (isRunning x) (startRegistered x) (endRegistered x)
    (released x) (done x) (parent x) (delay x) v (duration x) (startTime x)
    (delayTime x) (releaseTime x) (doneTime x) (endTime x) (releaseCb x)
    (nextEntity x).
Definition set_duration (v : Z) (x : t) : t :=
  mk (kind x) (isRunning x) (startRegistered x) (endRegistered x)
    (released x) (done x) (parent x) (delay x) (release x) v (startTime x)
    (delayTime x) (releaseTime x) (doneTime x) (endTime x) (releaseCb x)
    (nextEntity x).
Definition set_startTime (v : Z) (x : t) : t :=
  mk (kind x) (isRunning x) (startRegistered x) (endRegistered x)
    (released x) (done x) (parent x) (delay x) (release x) (duration x) v
    (delayTime x) (releaseTime x) (doneTime x) (endTime x) (releaseCb x)
    (nextEntity x).
Definition set_delayTime (v : Z) (x : t) : t :=
  mk (kind x) (isRunning x) (startRegistered x) (endRegistered x)
    (released x) (done x) (parent x) (delay x) (release x) (duration x)
    (startTime x) v (releaseTime x) (doneTime x) (endTime x) (releaseCb x)
    (nextEntity x).
Definition set_releaseTime (v : Z) (x : t) : t :=
  mk (kind x) (isRunning x) (startRegistered x) (endRegistered x)
    (released x) (done x) (parent x) (delay x) (release x) (duration x)
    (startTime x) (delayTime x) v (doneTime x) (endTime x) (releaseCb x)
    (nextEntity x).
Definition set_doneTime (v : Z) (x : t) : t :=
  mk (kind x) (isRunning x) (startRegistered x) (endRegistered x)
    (released x) (done x) (parent x) (delay x) (release x) (duration x)
    (startTime x) (delayTime x) (releaseTime x) v (endTime x) (releaseCb x)
    (nextEntity x).
Definition set_endTime (v : Z) (x : t) : t :=
  mk (kind x) (isRunning x) (startRegistered x) (endRegistered x)
    (released x) (done x) (parent x) (delay x) (release x) (duration x)
    (startTime x) (delayTime x) (releaseTime x) (doneTime x) v (releaseCb x)
    (nextEntity x).
Definition set_releaseCb (v : option Callback) (x : t) : t :=
  mk (kind x) (isRunning x) (startRegistered x) (endRegistered x)
    (released x) (done x) (parent x) (delay x) (release x) (duration x)
    (startTime x) (delayTime x) (releaseTime x) (doneTime x) (endTime x) v
    (nextEntity x).
Definition set_nextEntity (v : option EntityId) (x : t) : t :=
  mk (kind x) (isRunning x) (startRegistered x) (endRegistered x)
    (released x) (done x) (parent x) (delay x) (release x) (duration x)
    (startTime x) (delayTime x) (releaseTime x) (doneTime x) (endTime x)
    (releaseCb x) v.

(** The field initialisers of the class. *)
Definition new (k : Kind) : t :=
  mk k false false false false false false 0 0 (-1) (-1) (-1) (-1) (-1) (-1)
     None None.

(** [init(startTime)] *)
Definition init (start : Z) (e : t) : t :=
  let e := set_startTime start e in
  let e := if delay e <? 0 then set_delay 0 e else e in
  let e := set_delayTime (start + delay e) e in
  if 0 <=? duration e then
    let doneT := delayTime e + duration e in
    let e := set_doneTime doneT e in
    let e := set_releaseTime (doneT + release e) e in
    let e := if releaseTime e <? delayTime e
             then set_releaseTime (delayTime e) (set_release (- duration e) e)
             else e in
    let e := set_endTime doneT e in
    if endTime e <? releaseTime e then set_endTime (releaseTime e) e else e
  else e.

(** [getNextMarkerPosition(time, forward)] *)
Definition getNextMarkerPosition (e : t) (time : Z) (forward : bool) : Z :=
  if forward then
    if time <? delayTime e then delayTime e
    else
      match releaseCb e with
      | Some _ =>
          (* 1st time *)
          if release e <=? 0 then
            if time <? releaseTime e then releaseTime e
            else if time <? doneTime e then doneTime e
            else -1
          else
            if time <? doneTime e then doneTime e
            else if time <? releaseTime e then releaseTime e
            else -1
      | None =>
          if time <? doneTime e then doneTime e else -1
      end
  else
    (* backward *)
    if doneTime e <? time then doneTime e
    else if delayTime e <? time then delayTime e
    else -1.

(** [checkDoneAndRelease(time, forward)], in its three steps. The second
    step calls [parent.removeEntity(this)]; [wantsRemoval] is its guard. *)
Definition markDone (time : Z) (e : t) : t :=
  if time =? doneTime e then set_done true e else e.

Definition wantsRemoval (time : Z) (forward : bool) (e : t) : bool :=
  done e && parent e &&
  (if forward && (time =? endTime e) then true
   else negb forward && (time =? startTime e)).

Definition markReleased (time : Z) (e : t) : t * option Callback :=
  if time =? releaseTime e then
    let e := set_released true e in
    match releaseCb e with
    | Some cb => (set_releaseCb None e, Some cb)
    | None => (e, None)
    end
  else (e, None).

(** [TweenGroup.displayFrame]: the progression committed for this frame, if
    any ([progression != null]). *)
Definition progression (e : t) (time targetTime : Z) (forward : bool)
  : option Z :=
  let targetFrame := time =? targetTime in
  if targetFrame && (delayTime e <=? time) && (time <=? doneTime e) then
    Some (time - delayTime e)
  else if negb targetFrame then
    if forward && (doneTime e <=? targetTime) && (time =? doneTime e) then
      Some (time - delayTime e)
    else if negb forward && (targetTime <=? delayTime e)
            && (time =? delayTime e) then
      Some 0
    else None
  else None.

(** [new Delay(duration)] *)
Definition newDelay (d : Z) : t :=
  set_duration 0 (set_delay d (new Delay)).

(** [new TweenGroup(..., duration, ..., delay, release)]: the timing fields
    are constructor parameter properties. *)
Definition newTweenGroup (dur del rel : Z) : t :=
  set_release rel (set_delay del (set_duration dur (new TweenGroup))).

End TimelineEntity.

(** ** [utils.ts]: the animation type of a property *)

Module Utils.

(** [TweenType] of [types.ts]. *)
Inductive TweenType : Type :=
| transform | attribute | css | function_ | invalid.

(** What [getAnimationType] observes of its target: [typeof el ===
    'function'], the truthiness of [el.nodeType], whether
    [el.ownerSVGElement] is defined, the result of [el.getAttribute(name)]
    ([None] for [null]) and the truthiness of [el[name]]. *)
Record Target : Type := mkTarget {
  isFunction : bool;
  nodeType : bool;
  ownerSVGElement : bool;
  getAttribute : string -> option string;
  property : string -> bool
}.

Definition isSVG (el : Target) : bool := ownerSVGElement el.

(** [el.hasAttribute(name)] *)
Definition hasAttribute (el : Target) (name : string) : bool :=
  match getAttribute el name with Some _ => true | None => false end.

(** Truthiness of a value that is [null] or a string. *)
Definition truthy (v : option string) : bool :=
  match v with
  | Some s => negb (String.eqb s "")
  | None => false
  end.

(** [const TRANSFORMS = new Set([...])] of [utils.ts]. *)
Definition TRANSFORMS : list string :=
  ["translateX"; "translateY"; "translateZ"; "rotate"; "rotateX"; "rotateY";
   "rotateZ"; "scale"; "scaleX"; "scaleY"; "scaleZ"; "skewX"; "skewY";
   "perspective"]%string.

Definition has (set : list string) (name : string) : bool :=
  existsb (String.eqb name) set.

(** [getAnimationType(el, propName)] of [src/core/utils.ts]. *)
Definition getAnimationType (el : Target) (propName : string) : TweenType :=
  if nodeType el || isSVG el then
    if has TRANSFORMS propName then transform
    else if truthy (getAttribute el propName)
            || (isSVG el && property el propName) then attribute
    else if negb (String.eqb propName "transform") then css
    else invalid
  else invalid.

(** The other revision of the same file kept in the repository (its
    [TRANSFORMS] table comes from [transforms.ts] and has the key
    [transform] too). *)
Definition TRANSFORMS_table : list string := "transform"%string :: TRANSFORMS.

Definition getAnimationType_rev (target : Target) (propName : string)
  : TweenType :=
  if isFunction target then function_
  else if nodeType target || isSVG target then
    if hasAttribute target propName
       || (isSVG target && property target propName) then attribute
    else if has TRANSFORMS_table propName then transform
    else css
  else invalid.

(** The priority as the specification states it, over a given set of
    transform function names. *)
Definition spec_getAnimationType (transforms : list string)
    (target : Target) (propName : string) : TweenType :=
  if isFunction target then function_
  else if (nodeType target || isSVG target)
          && (hasAttribute target propName
              || (isSVG target && property target propName)) then attribute
  else if (nodeType target || isSVG target) && has transforms propName
       then transform
  else if nodeType target || isSVG target then css
  else invalid.

End Utils.

(** ** [entities.ts]: [PlayerEntity] *)

Module PlayerEntity.

(** [PlayParams] of [types.ts]; [None] is an absent key. *)
Record PlayParams : Type := mkParams {
  p_alternate : option bool;
  p_times : option Z;
  p_speed : option Q;
  p_backSpeed : option Q;
  p_delay : option Z;
  p_release : option Z
}.

(** The fields [PlayerEntity] adds to [TimelineEntity]; the wrapped timeline
    is reached through the calls [displayFrame] issues. *)
Record t : Type := mk {
  base : TimelineEntity.t;
  alternate : bool;
  times : Z;
  speed : Q;
  backSpeed : Q;
  d1 : Z;
  d2 : Z
}.

Definition set_base (b : TimelineEntity.t) (p : t) : t :=
  mk b (alternate p) (times p) (speed p) (backSpeed p) (d1 p) (d2 p).

(** [parseValue(name, params, defaults)] on an integer control value. *)
Definition parseValue (v : option Z) (default : Z) : Z :=
  match v with Some z => z | None => default end.

(** [new PlayerEntity(timeline, defaults, params)], up to the installation of
    [timeline.doneCb]. *)
Definition new (defaults_delay defaults_release : Z)
    (params : option PlayParams) : t :=
  let b := TimelineEntity.new TimelineEntity.Play in
  match params with
  | Some ps =>
      mk (TimelineEntity.set_release (parseValue (p_release ps) defaults_release)
            (TimelineEntity.set_delay (parseValue (p_delay ps) defaults_delay) b))
         (JS.orB (p_alternate ps) false)
         (JS.orZ (p_times ps) 1)
         (JS.orQ (p_speed ps) 1)
         (JS.orQ (p_backSpeed ps) 1)
         (-1) (-1)
  | None => mk b false 1 1 1 (-1) (-1)
  end.

(** The callback installed as [timeline.doneCb]. *)
Definition doneCb (tlDuration : Z) (p : t) : t :=
  let d1' := JS.Math_trunc (inject_Z tlDuration / speed p) in
  let d2' := if alternate p
             then JS.Math_trunc (inject_Z tlDuration / backSpeed p) else 0 in
  let b := TimelineEntity.set_duration ((d1' + d2') * times p) (base p) in
  let b := TimelineEntity.init (TimelineEntity.startTime b) b in
  mk b (alternate p) (times p) (speed p) (backSpeed p) d1' d2'.

(** The argument of a call [tl.move(x, false)]: a finite value, or [NaN]
    when the cycle length is [0] and [%] has no result. *)
Inductive MoveArg : Type :=
| MoveTo (x : Q)
| MoveNaN.

(** The call to [tl.move] that [displayFrame(time, ...)] issues, if any. *)
Definition childSeek (p : t) (time : Z) : option MoveArg :=
  let b := base p in
  let start := TimelineEntity.delayTime b in
  if start <=? time then
    if TimelineEntity.duration b =? -1 then
      (* first cycle is not finished *)
      Some (MoveTo (inject_Z (time - start) * speed p))
    else if (start <=? time) && (time <=? TimelineEntity.doneTime b) then
      let cycleLength := d1 p + d2 p in
      if cycleLength =? 0 then Some MoveNaN
      else
        let t0 := Z.rem (time - start) cycleLength in
        let t := if (t0 =? 0) && negb (time =? start) then cycleLength
                 else t0 in
        if t <=? d1 p then
          (* forward part *)
          Some (MoveTo (inject_Z t * speed p))
        else
          (* backward part *)
          Some (MoveTo (inject_Z (cycleLength - t) * backSpeed p))
    else None
  else None.

(** What [displayFrame] does besides moving the wrapped timeline:
    [checkDoneAndRelease(time, forward)] on the entity itself. *)
Record Frame : Type := mkFrame {
  seek : option MoveArg;
  entity : t;
  removeFromParent : bool;
  fired : option Callback
}.

Definition displayFrame (p : t) (time targetTime : Z) (forward : bool)
  : Frame :=
  let b := TimelineEntity.markDone time (base p) in
  let rm := TimelineEntity.wantsRemoval time forward b in
  let '(b, cb) := TimelineEntity.markReleased time b in
  mkFrame (childSeek p time) (set_base b p) rm cb.

End PlayerEntity.

(** ** [types.ts]: markers *)

Module AnimMarker.

(** [AnimMarker]; the links are identifiers in the store of markers. *)
Record t : Type := mk {
  prev : option MarkerId;
  next : option MarkerId;
  time : Z;
  startEntities : option (list EntityId);
  endEntities : option (list EntityId)
}.

Definition set_prev (v : option MarkerId) (x : t) : t :=
  mk v (next x) (time x) (startEntities x) (endEntities x).
Definition set_next (v : option MarkerId) (x : t) : t :=
  mk (prev x) v (time x) (startEntities x) (endEntities x).
Definition set_startEntities (v : option (list EntityId)) (x : t) : t :=
  mk (prev x) (next x) (time x) v (endEntities x).
Definition set_endEntities (v : option (list EntityId)) (x : t) : t :=
  mk (prev x) (next x) (time x) (startEntities x) v.

(** [createMarker(time, prev, next)], the module function of [anim.ts]. *)
Definition create (time : Z) (prev next : option MarkerId) : t :=
  mk prev next time None None.

(** [array.push(x)] on a field that is [undefined] or an array. *)
Definition push (l : option (list EntityId)) (x : EntityId)
  : option (list EntityId) :=
  match l with
  | Some xs => Some (xs ++ [x])
  | None => Some [x]
  end.

End AnimMarker.

(** ** [anim.ts]: the class [TimeLine] *)

Module TimeLine.

Definition Element := nat.

(** A [Target] as [animate] receives it: a target function, a selector
    string, any other truthy value (with the truthiness of its [style]
    property), or a falsy value other than [undefined] and the empty
    string. *)
Inductive Target : Type :=
| TargetFunction (f : nat)
| TargetSelector (selector : string)
| TargetObject (el : Element) (hasStyle : bool)
| TargetFalsy.

(** [isTargetFunction] of [types.ts]; [None] is [undefined]. *)
Definition isTargetFunction (target : option Target) : bool :=
  match target with
  | Some (TargetFunction _) => true
  | _ => false
  end.

(** The control keys of [AnimateParams] that drive the scheduler; [None] is
    an absent key. *)
Record AnimateParams : Type := mkAnimateParams {
  target : option Target;
  duration : option JS.number;
  delay : option JS.number;
  release : option JS.number;
  speed : option JS.number
}.

(** The settings of a timeline, once its prototype chain is flattened. A
    numeric setting that is [undefined] behaves as [NaN] in
    [adjustDuration]. *)
Record ControlParams : Type := mkControlParams {
  s_target : option Target;
  s_duration : JS.number;
  s_delay : JS.number;
  s_release : JS.number;
  s_speed : JS.number
}.

Definition defaultSettings : ControlParams :=
  mkControlParams None (JS.ofZ 1000) (JS.ofZ 0) (JS.ofZ 0) (JS.ofZ 1).

(** [parseValue(name, params, defaults)] *)
Definition parseValue {A : Type} (v : option A) (default : A) : A :=
  match v with Some a => a | None => default end.

Definition parseTarget (v : option Target) (default : option Target)
  : option Target :=
  match v with Some a => Some a | None => default end.

(** The calls an instruction function makes on the API it receives, and the
    two other ways user code reaches the engine from a microtask: the
    promise returned by the instruction function resolves, and a
    continuation of [group], [sequence], ... increments the counter. *)
Inductive ApiCall : Type :=
| CallAnimate (params : AnimateParams)
| CallSet (params : AnimateParams)
| CallDelay (durationMs : JS.number)
| CallDefaults (params : AnimateParams)
| ResolveTlFunction
| Bump.

(** An instruction function: the calls it makes before it returns, and
    whether what it returns is a thenable. *)
Record UserFn : Type := mkUserFn {
  body : list ApiCall;
  thenable : bool
}.

(** The microtasks that run during the [n]-th [await] of the process. *)
Definition Oracle := nat -> list ApiCall.

(** What the engine does to the outside: lines written to the console,
    promise resolvers called, frames committed by a tween group. *)
Inductive Event : Type :=
| LogInvalidTarget (target : option Target)
| Resolved (cb : Callback)
| DoneCalled (cb : Callback) (lastTargetTime : Z)
| Render (e : EntityId) (progression : Z).

(** The fields of a timeline that only [move] and [displayFrame] assign. *)
Record Clock : Type := mkClock {
  startTime : Z;
  currentTime : Z;
  endTime : Z;
  moveTarget : Z;
  lastTargetTime : Z;
  lastTargetForward : bool
}.

Definition set_startTime (v : Z) (x : Clock) : Clock :=
  mkClock v (currentTime x) (endTime x) (moveTarget x) (lastTargetTime x)
    (lastTargetForward x).
Definition set_currentTime (v : Z) (x : Clock) : Clock :=
  mkClock (startTime x) v (endTime x) (moveTarget x) (lastTargetTime x)
    (lastTargetForward x).
Definition set_endTime (v : Z) (x : Clock) : Clock :=
  mkClock (startTime x) (currentTime x) v (moveTarget x) (lastTargetTime x)
    (lastTargetForward x).
Definition set_moveTarget (v : Z) (x : Clock) : Clock :=
  mkClock (startTime x) (currentTime x) (endTime x) v (lastTargetTime x)
    (lastTargetForward x).
Definition set_lastTargetTime (v : Z) (x : Clock) : Clock :=
  mkClock (startTime x) (currentTime x) (endTime x) (moveTarget x) v
    (lastTargetForward x).
Definition set_lastTargetForward (v : bool) (x : Clock) : Clock :=
  mkClock (startTime x) (currentTime x) (endTime x) (moveTarget x)
    (lastTargetTime x) v.

(** The other fields of the timeline (it has no parent: it is the root
    timeline of a player, or the timeline a [PlayerEntity] wraps), the two
    stores, the module variable [ASYNC_COUNTER], the number of [await]s
    performed so far and the events emitted so far, latest first. *)
Record World : Type := mkWorld {
  selectorCtxt : option (string -> option Element);
  settings : ControlParams;
  firstMarker : option MarkerId;
  currentMarker : option MarkerId;
  lastMarker : option MarkerId;
  rList : option EntityId;
  rListEnd : option EntityId;
  tlFunctionCalled : bool;
  tlFunctionComplete : bool;
  released : bool;
  done : bool;
  releaseCb : option Callback;
  doneCb : option Callback;
  tlFunction : UserFn;
  entities : list TimelineEntity.t;
  markers : list AnimMarker.t;
  ASYNC_COUNTER : Z;
  ticks : nat;
  console : list Event
}.

Definition set_settings (v : ControlParams) (x : World) : World :=
  mkWorld (selectorCtxt x) v (firstMarker x) (currentMarker x) (lastMarker x)
    (rList x) (rListEnd x) (tlFunctionCalled x) (tlFunctionComplete x)
    (released x) (done x) (releaseCb x) (doneCb x) (tlFunction x)
    (entities x) (markers x) (ASYNC_COUNTER x) (ticks x) (console x).
Definition set_firstMarker (v : option MarkerId) (x : World) : World :=
  mkWorld (selectorCtxt x) (settings x) v (currentMarker x) (lastMarker x)
    (rList x) (rListEnd x) (tlFunctionCalled x) (tlFunctionComplete x)
    (released x) (done x) (releaseCb x) (doneCb x) (tlFunction x)
    (entities x) (markers x) (ASYNC_COUNTER x) (ticks x) (console x).
Definition set_currentMarker (v : option MarkerId) (x : World) : World :=
  mkWorld (selectorCtxt x) (settings x) (firstMarker x) v (lastMarker x)
    (rList x) (rListEnd x) (tlFunctionCalled x) (tlFunctionComplete x)
    (released x) (done x) (releaseCb x) (doneCb x) (tlFunction x)
    (entities x) (markers x) (ASYNC_COUNTER x) (ticks x) (console x).
Definition set_lastMarker (v : option MarkerId) (x : World) : World :=
  mkWorld (selectorCtxt x) (settings x) (firstMarker x) (currentMarker x) v
    (rList x) (rListEnd x) (tlFunctionCalled x) (tlFunctionComplete x)
    (released x) (done x) (releaseCb x) (doneCb x) (tlFunction x)
    (entities x) (markers x) (ASYNC_COUNTER x) (ticks x) (console x).
Definition set_rList (v : option EntityId) (x : World) : World :=
  mkWorld (selectorCtxt x) (settings x) (firstMarker x) (currentMarker x)
    (lastMarker x) v (rListEnd x) (tlFunctionCalled x) (tlFunctionComplete x)
    (released x) (done x) (releaseCb x) (doneCb x) (tlFunction x)
    (entities x) (markers x) (ASYNC_COUNTER x) (ticks x) (console x).
Definition set_rListEnd (v : option EntityId) (x : World) : World :=
  mkWorld (selectorCtxt x) (settings x) (firstMarker x) (currentMarker x)
    (lastMarker x) (rList x) v (tlFunctionCalled x) (tlFunctionComplete x)
    (released x) (done x) (releaseCb x) (doneCb x) (tlFunction x)
    (entities x) (markers x) (ASYNC_COUNTER x) (ticks x) (console x).
Definition set_tlFunctionCalled (v : bool) (x : World) : World :=
  mkWorld (selectorCtxt x) (settings x) (firstMarker x) (currentMarker x)
    (lastMarker x) (rList x) (rListEnd x) v (tlFunctionComplete x)
    (released x) (done x) (releaseCb x) (doneCb x) (tlFunction x)
    (entities x) (markers x) (ASYNC_COUNTER x) (ticks x) (console x).
Definition set_tlFunctionComplete (v : bool) (x : World) : World :=
  mkWorld (selectorCtxt x) (settings x) (firstMarker x) (currentMarker x)
    (lastMarker x) (rList x) (rListEnd x) (tlFunctionCalled x) v (released x)
    (done x) (releaseCb x) (doneCb x) (tlFunction x) (entities x) (markers x)
    (ASYNC_COUNTER x) (ticks x) (console x).
Definition set_released (v : bool) (x : World) : World :=
  mkWorld (selectorCtxt x) (settings x) (firstMarker x) (currentMarker x)
    (lastMarker x) (rList x) (rListEnd x) (tlFunctionCalled x)
    (tlFunctionComplete x) v (done x) (releaseCb x) (doneCb x) (tlFunction x)
    (entities x) (markers x) (ASYNC_COUNTER x) (ticks x) (console x).
Definition set_done (v : bool) (x : World) : World :=
  mkWorld (selectorCtxt x) (settings x) (firstMarker x) (currentMarker x)
    (lastMarker x) (rList x) (rListEnd x) (tlFunctionCalled x)
    (tlFunctionComplete x) (released x) v (releaseCb x) (doneCb x)
    (tlFunction x) (entities x) (markers x) (ASYNC_COUNTER x) (ticks x)
    (console x).
Definition set_releaseCb (v : option Callback) (x : World) : World :=
  mkWorld (selectorCtxt x) (settings x) (firstMarker x) (currentMarker x)
    (lastMarker x) (rList x) (rListEnd x) (tlFunctionCalled x)
    (tlFunctionComplete x) (released x) (done x) v (doneCb x) (tlFunction x)
    (entities x) (markers x) (ASYNC_COUNTER x) (ticks x) (console x).
Definition set_doneCb (v : option Callback) (x : World) : World :=
  mkWorld (selectorCtxt x) (settings x) (firstMarker x) (currentMarker x)
    (lastMarker x) (rList x) (rListEnd x) (tlFunctionCalled x)
    (tlFunctionComplete x) (released x) (done x) (releaseCb x) v
    (tlFunction x) (entities x) (markers x) (ASYNC_COUNTER x) (ticks x)
    (console x).
Definition set_entities (v : list TimelineEntity.t) (x : World) : World :=
  mkWorld (selectorCtxt x) (settings x) (firstMarker x) (currentMarker x)
    (lastMarker x) (rList x) (rListEnd x) (tlFunctionCalled x)
    (tlFunctionComplete x) (released x) (done x) (releaseCb x) (doneCb x)
    (tlFunction x) v (markers x) (ASYNC_COUNTER x) (ticks x) (console x).
Definition set_markers (v : list AnimMarker.t) (x : World) : World :=
  mkWorld (selectorCtxt x) (settings x) (firstMarker x) (currentMarker x)
    (lastMarker x) (rList x) (rListEnd x) (tlFunctionCalled x)
    (tlFunctionComplete x) (released x) (done x) (releaseCb x) (doneCb x)
    (tlFunction x) (entities x) v (ASYNC_COUNTER x) (ticks x) (console x).
Definition set_ASYNC_COUNTER (v : Z) (x : World) : World :=
  mkWorld (selectorCtxt x) (settings x) (firstMarker x) (currentMarker x)
    (lastMarker x) (rList x) (rListEnd x) (tlFunctionCalled x)
    (tlFunctionComplete x) (released x) (done x) (releaseCb x) (doneCb x)
    (tlFunction x) (entities x) (markers x) v (ticks x) (console x).
Definition set_ticks (v : nat) (x : World) : World :=
  mkWorld (selectorCtxt x) (settings x) (firstMarker x) (currentMarker x)
    (lastMarker x) (rList x) (rListEnd x) (tlFunctionCalled x)
    (tlFunctionComplete x) (released x) (done x) (releaseCb x) (doneCb x)
    (tlFunction x) (entities x) (markers x) (ASYNC_COUNTER x) v (console x).
Definition set_console (v : list Event) (x : World) : World :=
  mkWorld (selectorCtxt x) (settings x) (firstMarker x) (currentMarker x)
    (lastMarker x) (rList x) (rListEnd x) (tlFunctionCalled x)
    (tlFunctionComplete x) (released x) (done x) (releaseCb x) (doneCb x)
    (tlFunction x) (entities x) (markers x) (ASYNC_COUNTER x) (ticks x) v.

(** [new TimeLine(name, tlFunction)] *)
Definition newClock : Clock := mkClock 0 (-1) (-1) 0 (-1) true.

Definition newWorld (ctxt : option (string -> option Element))
    (fn : UserFn) : World :=
  mkWorld ctxt defaultSettings None None None None None false false false
          false None None fn [] [] 0 0%nat [].

(** *** The monad of the methods *)

Inductive result (A : Type) : Type :=
| Ok (a : A) (w : World)
| Throw (msg : string) (w : World)
| Diverge
| Stuck.
Arguments Ok {A} a w.
Arguments Throw {A} msg w.
Arguments Diverge {A}.
Arguments Stuck {A}.

(** A method reads the clock and updates the rest. [Diverge] is a loop that
    does not end; [Stuck] is a state the embedding does not represent (a
    link to no object, a timing value that is not a finite integer). *)
Definition E (A : Type) : Type := Clock -> World -> result A.

Definition ret {A : Type} (a : A) : E A := fun _ w => Ok a w.

Definition bind {A B : Type} (m : E A) (k : A -> E B) : E B :=
  fun clk w =>
    match m clk w with
    | Ok a w' => k a clk w'
    | Throw msg w' => Throw msg w'
    | Diverge => Diverge
    | Stuck => Stuck
    end.

Notation "x <- m ;; k" := (bind m (fun x => k))
  (at level 100, m at next level, right associativity).
Notation "m ;;; k" := (bind m (fun _ => k))
  (at level 100, right associativity).

Definition get : E World := fun _ w => Ok w w.
Definition clock : E Clock := fun clk w => Ok clk w.
Definition modify (f : World -> World) : E unit := fun _ w => Ok tt (f w).
Definition throw {A : Type} (msg : string) : E A := fun _ w => Throw msg w.
Definition diverge {A : Type} : E A := fun _ _ => Diverge.
Definition stuck {A : Type} : E A := fun _ _ => Stuck.
Definition when (b : bool) (m : E unit) : E unit := if b then m else ret tt.

Definition emit (ev : Event) : E unit :=
  modify (fun w => set_console (ev :: console w) w).

(** [ASYNC_COUNTER++] *)
Definition bumpCounter : E unit :=
  modify (fun w => set_ASYNC_COUNTER (ASYNC_COUNTER w + 1) w).

(** Access to the two stores. *)
Definition getEntity (i : EntityId) : E TimelineEntity.t :=
  w <- get ;;
  match entities w !! i with
  | Some e => ret e
  | None => stuck
  end.

Definition setEntity (i : EntityId) (e : TimelineEntity.t) : E unit :=
  modify (fun w => set_entities (<[i := e]> (entities w)) w).

Definition updEntity (i : EntityId)
    (f : TimelineEntity.t -> TimelineEntity.t) : E unit :=
  e <- getEntity i ;; setEntity i (f e).

Definition getMarkerObj (i : MarkerId) : E AnimMarker.t :=
  w <- get ;;
  match markers w !! i with
  | Some m => ret m
  | None => stuck
  end.

Definition updMarker (i : MarkerId) (f : AnimMarker.t -> AnimMarker.t) : E unit :=
  m <- getMarkerObj i ;;
  modify (fun w => set_markers (<[i := f m]> (markers w)) w).

Definition allocEntity (e : TimelineEntity.t) : E EntityId :=
  w <- get ;;
  modify (set_entities (entities w ++ [e])) ;;;
  ret (length (entities w)).

Definition allocMarker (m : AnimMarker.t) : E MarkerId :=
  w <- get ;;
  modify (set_markers (markers w ++ [m])) ;;;
  ret (length (markers w)).

(** [ref === obj] for a field that holds a reference or nothing. *)
Definition sameRef (ref : option nat) (obj : nat) : bool :=
  match ref with
  | Some i => Nat.eqb i obj
  | None => false
  end.

(** The fuel of a walk along the links of a store: a walk that visits no
    object twice ends within it. *)
Definition entityFuel (w : World) : nat := S (length (entities w)).
Definition markerFuel (w : World) : nat := S (S (2 * length (markers w))).

(** *** Markers *)

(** [getMarker(time)] *)
Fixpoint getMarkerFrom (fuel : nat) (time : Z) (forward : bool)
    (currentMarker : option MarkerId) : E (option MarkerId) :=
  match currentMarker with
  | None => ret None
  | Some c =>
      match fuel with
      | O => diverge
      | S fuel' =>
          m <- getMarkerObj c ;;
          if AnimMarker.time m =? time then ret (Some c)
          else if forward && (AnimMarker.time m <=? time) then
            getMarkerFrom fuel' time forward (AnimMarker.next m)
          else if negb forward && (time <=? AnimMarker.time m) then
            getMarkerFrom fuel' time forward (AnimMarker.prev m)
          else ret None
      end
  end.

Definition getMarker (time : Z) : E (option MarkerId) :=
  w <- get ;;
  match currentMarker w with
  | None => ret None
  | Some c =>
      m <- getMarkerObj c ;;
      getMarkerFrom (markerFuel w) time (AnimMarker.time m <=? time) (Some c)
  end.

(** [createMarker(time, start)]: the search from [start], the default of
    which is the cursor. *)
Definition insertAfter (time : Z) (cur : MarkerId) : E MarkerId :=
  cm <- getMarkerObj cur ;;
  marker <- allocMarker (AnimMarker.create time (Some cur) (AnimMarker.next cm)) ;;
  updMarker cur (AnimMarker.set_next (Some marker)) ;;;
  w <- get ;;
  when (sameRef (lastMarker w) cur) (modify (set_lastMarker (Some marker))) ;;;
  modify (set_currentMarker (Some marker)) ;;;
  ret marker.

Definition insertBefore (time : Z) (cur : MarkerId) : E MarkerId :=
  cm <- getMarkerObj cur ;;
  marker <- allocMarker (AnimMarker.create time (AnimMarker.prev cm) (Some cur)) ;;
  updMarker cur (AnimMarker.set_prev (Some marker)) ;;;
  w <- get ;;
  when (sameRef (firstMarker w) cur) (modify (set_firstMarker (Some marker))) ;;;
  modify (set_currentMarker (Some marker)) ;;;
  ret marker.

Fixpoint createMarkerFrom (fuel : nat) (time : Z) (cur : MarkerId)
  : E MarkerId :=
  match fuel with
  | O => diverge
  | S fuel' =>
      cm <- getMarkerObj cur ;;
      if AnimMarker.time cm =? time then ret cur
      else if AnimMarker.time cm <? time then
        (* look next *)
        match AnimMarker.next cm with
        | Some nx =>
            m <- getMarkerObj nx ;;
            if AnimMarker.time m <=? time then createMarkerFrom fuel' time nx
            else insertAfter time cur
        | None => insertAfter time cur
        end
      else
        (* look back *)
        match AnimMarker.prev cm with
        | Some pv =>
            m <- getMarkerObj pv ;;
            if time <=? AnimMarker.time m then createMarkerFrom fuel' time pv
            else insertBefore time cur
        | None => insertBefore time cur
        end
  end.

Definition createMarker (time : Z) : E MarkerId :=
  w <- get ;;
  match firstMarker w with
  | None =>
      marker <- allocMarker (AnimMarker.create time None None) ;;
      modify (fun w => set_currentMarker (Some marker)
                         (set_lastMarker (Some marker)
                            (set_firstMarker (Some marker) w))) ;;;
      ret marker
  | Some _ =>
      match currentMarker w with
      | Some cur => createMarkerFrom (markerFuel w) time cur
      | None => stuck
      end
  end.

(** *** The running list *)

(** The loop of [removeEntity] that looks for the predecessor of the
    entity. *)
Fixpoint unlink (fuel : nat) (animationEntity : EntityId)
    (entity : option EntityId) : E unit :=
  match entity with
  | None => ret tt
  | Some i =>
      match fuel with
      | O => diverge
      | S fuel' =>
          e <- getEntity i ;;
          if sameRef (TimelineEntity.nextEntity e) animationEntity then
            ae <- getEntity animationEntity ;;
            updEntity i (TimelineEntity.set_nextEntity
                           (TimelineEntity.nextEntity ae)) ;;;
            w <- get ;;
            when (sameRef (rListEnd w) animationEntity)
                 (modify (set_rListEnd (Some i)))
          else unlink fuel' animationEntity (TimelineEntity.nextEntity e)
      end
  end.

(** [removeEntity(animationEntity)] *)
Definition removeEntity (animationEntity : EntityId) : E unit :=
  bumpCounter ;;;
  w0 <- get ;;
  clk <- clock ;;
  let entity := rList w0 in
  ae <- getEntity animationEntity ;;
  when (negb (TimelineEntity.endRegistered ae) && lastTargetForward clk)
       ((* only register the end in forward mode *)
        marker <- createMarker (currentTime clk) ;;
        updMarker marker
          (fun m => AnimMarker.set_endEntities
                      (AnimMarker.push (AnimMarker.endEntities m)
                                       animationEntity) m) ;;;
        updEntity animationEntity (TimelineEntity.set_endRegistered true)) ;;;
  (if sameRef entity animationEntity then
     ae <- getEntity animationEntity ;;
     modify (set_rList (TimelineEntity.nextEntity ae)) ;;;
     w <- get ;;
     when (sameRef (rListEnd w) animationEntity) (modify (set_rListEnd None))
   else unlink (entityFuel w0) animationEntity entity) ;;;
  updEntity animationEntity (TimelineEntity.set_isRunning false).

(** [TimelineEntity.checkDoneAndRelease(time, forward)] on an entity of the
    store. *)
Definition checkDoneAndRelease (id : EntityId) (time : Z) (forward : bool)
  : E unit :=
  updEntity id (TimelineEntity.markDone time) ;;;
  e <- getEntity id ;;
  when (TimelineEntity.wantsRemoval time forward e) (removeEntity id) ;;;
  e <- getEntity id ;;
  setEntity id (fst (TimelineEntity.markReleased time e)) ;;;
  match snd (TimelineEntity.markReleased time e) with
  | Some cb => emit (Resolved cb)
  | None => ret tt
  end.

(** [displayFrame(time, targetTime, forward)] of an entity: the one of
    [TimelineEntity] for a delay, the one of [TweenGroup] otherwise. *)
Definition entityDisplayFrame (id : EntityId) (time targetTime : Z)
    (forward : bool) : E unit :=
  e <- getEntity id ;;
  match TimelineEntity.kind e with
  | TimelineEntity.Delay => checkDoneAndRelease id time forward
  | TimelineEntity.TweenGroup =>
      when ((TimelineEntity.delayTime e <=? time)
            && (time <=? TimelineEntity.endTime e))
           (match TimelineEntity.progression e time targetTime forward with
            | Some p => emit (Render id p)
            | None => ret tt
            end ;;;
            checkDoneAndRelease id time forward)
  | TimelineEntity.Play => stuck
  end.

(** [addEntity(animationEntity)] *)
Definition addEntity (animationEntity : EntityId) : E unit :=
  bumpCounter ;;;
  clk <- clock ;;
  ae <- getEntity animationEntity ;;
  when (negb (TimelineEntity.startRegistered ae))
       (updEntity animationEntity (TimelineEntity.init (currentTime clk)) ;;;
        marker <- createMarker (currentTime clk) ;;
        updMarker marker
          (fun m => AnimMarker.set_startEntities
                      (AnimMarker.push (AnimMarker.startEntities m)
                                       animationEntity) m) ;;;
        updEntity animationEntity (TimelineEntity.set_startRegistered true)) ;;;
  updEntity animationEntity (TimelineEntity.set_nextEntity None) ;;;
  w <- get ;;
  match rListEnd w with
  | None =>
      modify (fun w => set_rListEnd (Some animationEntity)
                         (set_rList (Some animationEntity) w))
  | Some last =>
      (* append new entity at the end *)
      updEntity last (TimelineEntity.set_nextEntity (Some animationEntity)) ;;;
      modify (set_rListEnd (Some animationEntity))
  end ;;;
  updEntity animationEntity (TimelineEntity.set_isRunning true) ;;;
  entityDisplayFrame animationEntity (currentTime clk) (lastTargetTime clk)
                     (lastTargetForward clk).

(** [attach(parent)] of [TimelineEntity] *)
Definition attach (id : EntityId) : E unit :=
  e <- getEntity id ;;
  when (negb (TimelineEntity.parent e))
       (updEntity id (TimelineEntity.set_parent true) ;;;
        addEntity id).

(** [loadEntities(time, forward)]. The two arrays are references taken
    from the marker before the loops run; each loop reads its array when it
    starts and at every index. *)
Inductive Side : Type := StartSide | EndSide.

Definition readSide (side : Side) (m : AnimMarker.t)
  : option (list EntityId) :=
  match side with
  | StartSide => AnimMarker.startEntities m
  | EndSide => AnimMarker.endEntities m
  end.

Fixpoint loadLoop (index : nat) (marker : MarkerId) (side : Side)
    (starting : bool) : E unit :=
  match index with
  | O => ret tt
  | S index' =>
      m <- getMarkerObj marker ;;
      match readSide side m with
      | Some arr =>
          match arr !! index' with
          | Some id =>
              animationEntity <- getEntity id ;;
              (if starting
               then when (negb (TimelineEntity.isRunning animationEntity))
                         (addEntity id)
               else when (TimelineEntity.isRunning animationEntity)
                         (removeEntity id)) ;;;
              loadLoop index' marker side starting
          | None => stuck
          end
      | None => stuck
      end
  end.

Definition loadSide (marker : MarkerId) (side : Side) (starting : bool)
  : E unit :=
  m <- getMarkerObj marker ;;
  match readSide side m with
  | Some arr => loadLoop (length arr) marker side starting
  | None => stuck
  end.

Definition loadEntities (time : Z) (forward : bool) : E unit :=
  marker <- getMarker time ;;
  match marker with
  | None => ret tt
  | Some mk =>
      m <- getMarkerObj mk ;;
      let startSide := if forward then StartSide else EndSide in
      let endSide := if forward then EndSide else StartSide in
      let startDefined := bool_decide (is_Some (readSide startSide m)) in
      let endDefined := bool_decide (is_Some (readSide endSide m)) in
      (* add all new entities according to marker info *)
      when startDefined (loadSide mk startSide true) ;;;
      (* remove all done entities according to marker info *)
      when endDefined (loadSide mk endSide false)
  end.

(** *** Completion *)

Fixpoint countRunning (fuel : nat) (animationEntity : option EntityId)
    (count : Z) (allReleased : bool) : E (Z * bool) :=
  match animationEntity with
  | None => ret (count, allReleased)
  | Some i =>
      match fuel with
      | O => diverge
      | S fuel' =>
          e <- getEntity i ;;
          countRunning fuel' (TimelineEntity.nextEntity e) (count + 1)
                       (if TimelineEntity.released e then allReleased
                        else false)
      end
  end.

(** [checkState()], for a timeline without parent. *)
Definition checkState : E unit :=
  w <- get ;;
  clk <- clock ;;
  if released w && done w then ret tt
  else
    when (tlFunctionComplete w && lastTargetForward clk)
         (r <- countRunning (entityFuel w) (rList w) 0 true ;;
          let count := fst r in
          let allReleased := snd r in
          when allReleased
               (modify (set_released true) ;;;
                w <- get ;;
                match releaseCb w with
                | Some cb => emit (Resolved cb) ;;; modify (set_releaseCb None)
                | None => ret tt
                end) ;;;
          when (count =? 0)
               (modify (set_done true) ;;;
                w <- get ;;
                match doneCb w with
                | Some cb =>
                    emit (DoneCalled cb (lastTargetTime clk)) ;;;
                    modify (set_doneCb None)
                | None => ret tt
                end)).

(** [setTlFunctionComplete()] *)
Definition setTlFunctionComplete : E unit :=
  modify (set_tlFunctionComplete true) ;;;
  bumpCounter ;;;
  checkState.

(** *** The API an instruction function receives *)

(** [select(selector)], with the scope left to [selectorCtxt]. *)
Definition select (w : World) (selector : option Target) : option Element :=
  match selector with
  | None | Some TargetFalsy => None
  | Some (TargetSelector s) =>
      if String.eqb s "" then None
      else match selectorCtxt w with
           | Some querySelector => querySelector s
           | None => None
           end
  | Some (TargetObject el hasStyle) => if hasStyle then Some el else None
  | Some (TargetFunction _) => None
  end.

(** [createTweens(...)]: a [TweenGroup] is built and attached. *)
Definition createTweens (duration delay release : Z) : E EntityId :=
  tween <- allocEntity (TimelineEntity.newTweenGroup duration delay release) ;;
  attach tween ;;;
  ret tween.

(** The three timing values [animate] computes from its parameters. *)
Definition animateControls (params : AnimateParams) (defaults : ControlParams)
  : JS.number * JS.number * JS.number :=
  let speed := parseValue (speed params) (s_speed defaults) in
  let duration :=
    adjustDuration (parseValue (duration params) (s_duration defaults)) speed in
  let delay :=
    adjustDuration (parseValue (delay params) (s_delay defaults)) speed in
  let release :=
    adjustDuration (parseValue (release params) (s_release defaults)) speed in
  (duration, delay, release).

(** [animate(params)]. The promise it returns is resolved by the resolver
    that carries the identifier of the tween group. The times of the
    entities are integers: a duration, delay or release that is [NaN] or
    infinite is outside the embedding ([stuck]). *)
Definition animate (params : AnimateParams) : E unit :=
  w <- get ;;
  let defaults := settings w in
  let target := parseTarget (target params) (s_target defaults) in
  let '(duration, delay, release) := animateControls params defaults in
  (* identify target *)
  if negb (isTargetFunction target) && negb (bool_decide (is_Some (select w target)))
  then emit (LogInvalidTarget target)
  else
    match JS.toZ duration, JS.toZ delay, JS.toZ release with
    | Some duration, Some delay, Some release =>
        tween <- createTweens duration delay release ;;
        e <- getEntity tween ;;
        if TimelineEntity.released e then emit (Resolved tween)
        else updEntity tween (TimelineEntity.set_releaseCb (Some tween))
    | _, _, _ => stuck
    end.

(** [set(params)] *)
Definition set (params : AnimateParams) : E unit :=
  animate (mkAnimateParams (target params) (Some (JS.ofZ 0)) (delay params)
                           (release params) (speed params)).

(** [delay(durationMs)] *)
Definition delay_ (durationMs : JS.number) : E unit :=
  w <- get ;;
  let duration := adjustDuration durationMs (s_speed (settings w)) in
  if JS.gtb duration (JS.ofZ 0) then
    match JS.toZ duration with
    | Some d =>
        id <- allocEntity (TimelineEntity.newDelay d) ;;
        attach id ;;;
        updEntity id (TimelineEntity.set_releaseCb (Some id))
    | None => stuck
    end
  else ret tt.

(** [defaults(params)] *)
Definition defaults (params : AnimateParams) : E unit :=
  modify (fun w =>
    let s := settings w in
    set_settings
      (mkControlParams (parseTarget (target params) (s_target s))
                       (parseValue (duration params) (s_duration s))
                       (parseValue (delay params) (s_delay s))
                       (parseValue (release params) (s_release s))
                       (parseValue (speed params) (s_speed s))) w).

Definition runCall (c : ApiCall) : E unit :=
  match c with
  | CallAnimate params => animate params
  | CallSet params => set params
  | CallDelay durationMs => delay_ durationMs
  | CallDefaults params => defaults params
  | ResolveTlFunction => setTlFunctionComplete
  | Bump => bumpCounter
  end.

Fixpoint runCalls (cs : list ApiCall) : E unit :=
  match cs with
  | [] => ret tt
  | c :: cs' => runCall c ;;; runCalls cs'
  end.

(** *** Frames *)

Fixpoint displayRunning (fuel : nat) (time targetTime : Z) (forward : bool)
    (animationEntity : option EntityId) : E unit :=
  match animationEntity with
  | None => ret tt
  | Some i =>
      match fuel with
      | O => diverge
      | S fuel' =>
          entityDisplayFrame i time targetTime forward ;;;
          e <- getEntity i ;;
          displayRunning fuel' time targetTime forward
                         (TimelineEntity.nextEntity e)
      end
  end.

(** What [displayFrame] does once it has set the clock. *)
Definition displayFrameBody (time targetTime : Z) (forward : bool) : E unit :=
  w <- get ;;
  (if negb (tlFunctionCalled w) then
     modify (set_tlFunctionCalled true) ;;;
     (* init the instructions *)
     runCalls (body (tlFunction w)) ;;;
     when (negb (thenable (tlFunction w))) setTlFunctionComplete
   else
     (* display frames for each running entity *)
     displayRunning (entityFuel w) time targetTime forward (rList w) ;;;
     loadEntities time forward) ;;;
  checkState.

(** *** The next marker *)

Fixpoint scanRunning (fuel : nat) (time : Z) (forward : bool)
    (animationEntity : option EntityId) (n : Z) (found : bool)
  : E (Z * bool) :=
  match animationEntity with
  | None => ret (n, found)
  | Some i =>
      match fuel with
      | O => diverge
      | S fuel' =>
          e <- getEntity i ;;
          let n2 := TimelineEntity.getNextMarkerPosition e time forward in
          let better :=
            (-1 <? n2) &&
            (if forward then (time <? n2) && (n2 <? n)
             else (n2 <? time) && (n <? n2)) in
          scanRunning fuel' time forward (TimelineEntity.nextEntity e)
                      (if better then n2 else n)
                      (if better then true else found)
      end
  end.

Fixpoint scanMarkers (fuel : nat) (time : Z) (forward : bool)
    (currentMarker : option MarkerId) (n : Z) (found : bool)
  : E (Z * bool) :=
  match currentMarker with
  | None => ret (n, found)
  | Some c =>
      match fuel with
      | O => diverge
      | S fuel' =>
          m <- getMarkerObj c ;;
          let t := AnimMarker.time m in
          if forward then
            if time <? t then
              if found && (n =? t) then
                modify (set_currentMarker (Some c)) ;;; ret (n, found)
              else if t <? n then
                (* this marker is better positioned than n *)
                scanMarkers fuel' time forward (AnimMarker.prev m) t true
              else ret (n, found)
            else scanMarkers fuel' time forward (AnimMarker.next m) n found
          else
            if t <? time then
              if found && (n =? t) then
                modify (set_currentMarker (Some c)) ;;; ret (n, found)
              else if n <? t then
                (* this marker is better positioned than n *)
                scanMarkers fuel' time forward (AnimMarker.next m) t true
              else ret (n, found)
            else scanMarkers fuel' time forward (AnimMarker.prev m) n found
      end
  end.

(** [getNextMarkerPosition(time, forward)] of the timeline *)
Definition getNextMarkerPosition (time : Z) (forward : bool) : E Z :=
  clk <- clock ;;
  w <- get ;;
  if Z.abs (time - currentTime clk) =? FRAME_MS then ret time
  else
    r <- scanRunning (entityFuel w) time forward (rList w)
                     (if forward then MAX_TIME else -1) false ;;
    (* look in the marker list *)
    r <- scanMarkers (markerFuel w) time forward (currentMarker w)
                     (fst r) (snd r) ;;
    ret (if snd r then fst r else -1).

(** *** The asynchronous pipe *)

(** [await Promise.resolve()]: the microtasks of this turn run. *)
Definition await (orc : Oracle) : E unit :=
  w <- get ;;
  modify (set_ticks (S (ticks w))) ;;;
  runCalls (orc (ticks w)).

(** The local variables of [exhaustAsyncPipe]. *)
Record Pipe : Type := mkPipe {
  c1 : Z;
  c2 : Z;
  count : Z;
  count2 : Z
}.

(** One turn of the loop on the local variables, given the value read from
    [ASYNC_COUNTER] after the [await]. *)
Definition pipeStep (p : Pipe) (counter : Z) : Pipe :=
  let c1' := c2 p in
  let c2' := counter in
  let count2' := if c1' =? c2' then count2 p + 1 else 0 in
  let c1' := if (count p =? 0) || (count2' <? 2) then -1 else c1' in
  mkPipe c1' c2' (count p + 1) count2'.

Fixpoint exhaustLoop (orc : Oracle) (fuel : nat) (p : Pipe) : E Pipe :=
  if negb (c1 p =? c2 p) && (count p <? MAX_ASYNC) then
    match fuel with
    | O => diverge
    | S fuel' =>
        await orc ;;;
        w <- get ;;
        when (10000 <? ASYNC_COUNTER w) (modify (set_ASYNC_COUNTER 1)) ;;;
        exhaustLoop orc fuel' (pipeStep p (ASYNC_COUNTER w))
    end
  else ret p.

(** [exhaustAsyncPipe()] *)
Definition exhaustAsyncPipe (orc : Oracle) : E unit :=
  w <- get ;;
  p <- exhaustLoop orc (Z.to_nat MAX_ASYNC)
                   (mkPipe (-1) (ASYNC_COUNTER w) 0 0) ;;
  if count p =? MAX_ASYNC then throw "Max async loop reached" else ret tt.

(** *** Seeking *)

(** The methods that assign the clock. *)
Definition T (A : Type) : Type := Clock -> World -> result (A * Clock).

Definition retT {A : Type} (a : A) : T A := fun clk w => Ok (a, clk) w.

Definition bindT {A B : Type} (m : T A) (k : A -> T B) : T B :=
  fun clk w =>
    match m clk w with
    | Ok (a, clk') w' => k a clk' w'
    | Throw msg w' => Throw msg w'
    | Diverge => Diverge
    | Stuck => Stuck
    end.

Notation "x <~ m ;; k" := (bindT m (fun x => k))
  (at level 100, m at next level, right associativity).
Notation "m ;;~ k" := (bindT m (fun _ => k))
  (at level 100, right associativity).

Definition liftE {A : Type} (m : E A) : T A :=
  fun clk w =>
    match m clk w with
    | Ok a w' => Ok (a, clk) w'
    | Throw msg w' => Throw msg w'
    | Diverge => Diverge
    | Stuck => Stuck
    end.

Definition getClock : T Clock := fun clk w => Ok (clk, clk) w.
Definition setClock (f : Clock -> Clock) : T unit :=
  fun clk w => Ok (tt, f clk) w.
Definition divergeT {A : Type} : T A := fun _ _ => Diverge.
Definition whenT (b : bool) (m : T unit) : T unit := if b then m else retT tt.

(** [displayFrame(time, targetTime, forward)] of the timeline *)
Definition displayFrame (time targetTime : Z) (forward : bool) : T unit :=
  setClock (fun clk => set_lastTargetForward forward
                         (set_lastTargetTime targetTime
                            (set_currentTime time clk))) ;;~
  liftE (displayFrameBody time targetTime forward).

(** How one turn of the loop of [move] ends its first step. *)
Inductive Step : Type :=
| Continue (nextTarget : Z)
| Return (value : Z).

(** Step #1 of the loop of [move]: find the next time where a frame needs
    to be displayed. *)
Definition findNextTarget (orc : Oracle) (timeTarget : Z) (forward : bool)
    (currentTime : Z) : T Step :=
  if currentTime <? 0 then
    clk <~ getClock ;;
    whenT (startTime clk <? 0) (setClock (set_startTime 0)) ;;~
    clk <~ getClock ;;
    retT (Continue (startTime clk))
  else
    clk <~ getClock ;;
    whenT (negb (Bool.eqb forward (lastTargetForward clk)))
          ((* we changed direction: we may have to re-display the current
              frame if we are on a marker *)
           marker <~ liftE (getMarker currentTime) ;;
           match marker with
           | Some _ =>
               displayFrame currentTime timeTarget forward ;;~
               liftE (exhaustAsyncPipe orc)
           | None => retT tt
           end) ;;~
    nextTarget <~ liftE (getNextMarkerPosition currentTime forward) ;;
    if (nextTarget <? 0) || (nextTarget =? currentTime) then
      (* no marker found: we reached the end of the time line *)
      setClock (fun clk => set_endTime currentTime
                             (set_moveTarget currentTime clk)) ;;~
      retT (Return currentTime)
    else if forward then
      retT (Continue (if timeTarget <? nextTarget then timeTarget
                      else nextTarget))
    else
      retT (Continue (if nextTarget <? timeTarget then timeTarget
                      else nextTarget)).

Fixpoint moveLoop (orc : Oracle) (fuel : nat) (timeTarget : Z)
    (forward manageAsyncPipe : bool) (currentTime : Z) : T Z :=
  clk <~ getClock ;;
  if currentTime =? moveTarget clk then retT (TimeLine.currentTime clk)
  else
    match fuel with
    | O => divergeT
    | S fuel' =>
        (* step #1 *)
        step <~ findNextTarget orc timeTarget forward currentTime ;;
        match step with
        | Return value => retT value
        | Continue nextTarget =>
            (* step #2 *)
            displayFrame nextTarget timeTarget forward ;;~
            (* step #3 *)
            whenT manageAsyncPipe (liftE (exhaustAsyncPipe orc)) ;;~
            (* step #4 *)
            clk <~ getClock ;;
            moveLoop orc fuel' timeTarget forward manageAsyncPipe
                     (TimeLine.currentTime clk)
        end
    end.

(** Every turn of the loop of [move] brings the current time closer to the
    target by one millisecond at least, or leaves the loop. *)
Definition moveFuel (timeTarget : Z) (clk : Clock) : nat :=
  S (S (Z.to_nat (Z.abs (timeTarget - currentTime clk)))).

(** [move(timeTarget, manageAsyncPipe)] *)
Definition move (orc : Oracle) (timeTarget : Z) (manageAsyncPipe : bool)
  : T Z :=
  setClock (set_moveTarget timeTarget) ;;~
  clk <~ getClock ;;
  if timeTarget =? currentTime clk then retT (currentTime clk)
  else moveLoop orc (moveFuel timeTarget clk) timeTarget
                (currentTime clk <? timeTarget) manageAsyncPipe
                (currentTime clk).

End TimeLine.

(** ** [anim.ts]: the class [Player] *)

Module Player.

Record t : Type := mk {
  clock : TimeLine.Clock;
  timeLine : TimeLine.World;
  maxDuration : Z;
  currentTick : Z;
  length : option Z;
  playId : Z
}.

(** [new Player(animFunction)]; [document] is the selector context when it
    is defined. *)
Definition new (document : option (string -> option TimeLine.Element))
    (animFunction : TimeLine.UserFn) : t :=
  mk TimeLine.newClock (TimeLine.newWorld document animFunction)
     MAX_TL_DURATION_MS (-1) None 0.

(** [get position()] *)
Definition position (p : t) : Z :=
  let currentTime := TimeLine.currentTime (clock p) in
  if currentTime <? 0 then 0 else currentTime.

(** [get isPlaying()] *)
Definition isPlaying (p : t) : bool := negb (playId p =? 0).

(** [pause()] *)
Definition pause (p : t) : t :=
  mk (clock p) (timeLine p) (maxDuration p) (currentTick p) (length p) 0.

(** [move(timeTarget)]: the value the promise resolves with and the player
    afterwards, or how the call fails. *)
Definition move (orc : TimeLine.Oracle) (timeTarget : Z) (p : t)
  : TimeLine.result (Z * TimeLine.Clock) :=
  TimeLine.move orc timeTarget true (clock p) (timeLine p).

End Player.

(** ** [anim.ts]: the other functions of the module *)

(** [x < y] on finite numbers *)
Definition Qltb (x y : Q) : bool := negb (Qle_bool y x).

(** [nextTimeTick(t1, forward, speed)] *)
Definition nextTimeTick (t1 : Q) (forward : bool) (speed : Q) : Q :=
  if Qltb t1 0 then 0%Q
  else
    let t2 := if forward then (t1 + inject_Z FRAME_MS * speed)%Q
              else (t1 - inject_Z FRAME_MS * speed)%Q in
    if Qltb t2 0 then 0%Q else t2.

(** [random(min, max)], [r] being the value [Math.random()] returns. *)
Definition random (r : Q) (min max : Z) : Z :=
  min + JS.Math_trunc (r * inject_Z (max + 1 - min)).

(** ** [entities.ts]: the class [Tween] *)

Module Tween.
(** The progression [setProgression(elapsed)] hands to the easing
    function: [d === 0 ? 1 : elapsed / d]. *)
Definition progression (d elapsed : Z) : Q :=
  if d =? 0 then 1%Q else (inject_Z elapsed / inject_Z d)%Q.
End Tween.

(** ** [utils.ts]: the names of style properties *)

(** The code of a character. *)
Definition charCode (c : ascii) : Z := Z.of_nat (nat_of_ascii c).

Module Css.

(** A string as the list of its characters; the functions below look at
    the characters of the ASCII range only. *)
(** [[a-z]] and [[A-Z]] *)
Definition isLower (c : ascii) : bool := (97 <=? charCode c) && (charCode c <=? 122).
Definition isUpper (c : ascii) : bool := (65 <=? charCode c) && (charCode c <=? 90).

(** [value.replace(RX_CSS_NAME, '$1-$2')] with
    [RX_CSS_NAME = /([a-z])([A-Z])/g]: the matches are taken from left to
    right and do not overlap. *)
Fixpoint replaceCssName (value : list ascii) : list ascii :=
  match value with
  | c1 :: ((c2 :: rest) as tl) =>
      if isLower c1 && isUpper c2
      then c1 :: "-"%char :: c2 :: replaceCssName rest
      else c1 :: replaceCssName tl
  | _ => value
  end.

(** [toLowerCase()] on a character of the ASCII range. *)
Definition lowerChar (c : ascii) : ascii :=
  if isUpper c then ascii_of_nat (nat_of_ascii c + 32) else c.

Definition toLowerCase (s : list ascii) : list ascii := map lowerChar s.

(** [stringToHyphens(str)] *)
Definition stringToHyphens (str : list ascii) : list ascii :=
  toLowerCase (replaceCssName str).

End Css.

(** ** [utils.ts]: colours *)

Module Color.

(** The value of a character of the class [[a-f\d]] under the flag [i]. *)
Definition hexDigit (c : ascii) : option Z :=
  let n := charCode c in
  if (48 <=? n) && (n <=? 57) then Some (n - 48)
  else if (97 <=? n) && (n <=? 102) then Some (n - 87)
  else if (65 <=? n) && (n <=? 70) then Some (n - 55)
  else None.

Definition isHex (c : ascii) : bool :=
  match hexDigit c with Some _ => true | None => false end.

(** The prefix [^#?] of the two expressions. *)
Definition dropHash (value : list ascii) : list ascii :=
  match value with
  | "#"%char :: rest => rest
  | _ => value
  end.

(** [value.replace(RX_HEX1, (m, r, g, b) => r + r + g + g + b + b)] *)
Definition expandHex (value : list ascii) : list ascii :=
  match dropHash value with
  | [r; g; b] =>
      if isHex r && isHex g && isHex b then [r; r; g; g; b; b] else value
  | _ => value
  end.

(** [parseInt(s, 16)] on two characters of the class. *)
Definition parseInt16 (c1 c2 : ascii) : option Z :=
  match hexDigit c1, hexDigit c2 with
  | Some a, Some b => Some (16 * a + b)
  | _, _ => None
  end.

(** [parseHexColor(value)] *)
Definition parseHexColor (value : list ascii) : option (list Z) :=
  let hex := expandHex value in
  match dropHash hex with
  | [r1; r2; g1; g2; b1; b2] =>
      match parseInt16 r1 r2, parseInt16 g1 g2, parseInt16 b1 b2 with
      | Some r, Some g, Some b => Some [r; g; b; 1]
      | _, _, _ => None
      end
  | _ => None
  end.

(** [hue2rgb(p, q, t)] *)
Definition hue2rgb (p q t : Q) : Q :=
  let t := if Qltb t 0 then (t + 1)%Q else t in
  let t := if Qltb 1 t then (t - 1)%Q else t in
  if Qltb t (1 # 6) then (p + (q - p) * 6 * t)%Q
  else if Qltb t (1 # 2) then q
  else if Qltb t (2 # 3) then (p + (q - p) * ((2 # 3) - t) * 6)%Q
  else p.

(** [parseHslColor(value)] once one of the two expressions has matched:
    [h], [s] and [l] are the integers [parseInt] returns for the three
    groups, [a] is the alpha [parseFloat] returns, [1] without a fourth
    group. *)
Definition parseHslColor (h s l : Z) (a : Q) : list Q :=
  let h := (inject_Z h / 360)%Q in
  let s := (inject_Z s / 100)%Q in
  let l := (inject_Z l / 100)%Q in
  if Qeq_bool s 0 then [l * 255; l * 255; l * 255; a]%Q
  else
    let q := if Qltb l (1 # 2) then (l * (1 + s))%Q else (l + s - l * s)%Q in
    let p := (2 * l - q)%Q in
    [hue2rgb p q (h + (1 # 3)) * 255; hue2rgb p q h * 255;
     hue2rgb p q (h - (1 # 3)) * 255; a]%Q.

End Color.

(** * Vocabulary of the statements *)

(** ** Invariants *)

Section Invariants.

Import TimeLine.

(** A method neither throws nor lowers [ASYNC_COUNTER]. *)
Definition safe {A : Type} (m : E A) : Prop :=
  forall clk w,
    match m clk w with
    | Ok _ w' => ASYNC_COUNTER w <= ASYNC_COUNTER w'
    | Throw _ _ => False
    | Diverge | Stuck => True
    end.

(** What the loop of [exhaustAsyncPipe] keeps true of its local variables:
    the last value read is not negative, and [c1] is either reset or equal
    to it after two stable turns. *)
Definition pipeInv (p : Pipe) : Prop :=
  0 <= count p /\ 0 <= c2 p
  /\ (c1 p = -1 \/ (c1 p = c2 p /\ 2 <= count2 p /\ 2 <= count p)).

(** What the two scans of [getNextMarkerPosition] keep true of the best
    position found so far. *)
Definition past (time : Z) (forward : bool) (n : Z) (found : bool) : Prop :=
  (found = true -> if forward then time < n else -1 < n /\ n < time)
  /\ (forward = false -> -1 <= n).

(** The clock once [displayFrame(time, targetTime, forward)] has set it. *)
Definition clockAfterFrame (time targetTime : Z) (forward : bool)
    (clk : Clock) : Clock :=
  set_lastTargetForward forward
    (set_lastTargetTime targetTime (set_currentTime time clk)).

(** The block of [move] that displays the current frame again when the
    direction has changed on a marker. *)
Definition redisplay (orc : Oracle) (t : Z) (forward : bool) (cur : Z)
  : T unit :=
  marker <~ liftE (getMarker cur) ;;
  match marker with
  | Some _ => displayFrame cur t forward ;;~ liftE (exhaustAsyncPipe orc)
  | None => retT tt
  end.

(** What holds of the clock from the construction of the timeline on. *)
Definition clockOk (clk : Clock) : Prop :=
  -1 <= currentTime clk /\ startTime clk <= 0.

(** A bound on the turns the loop of [move] has left at the current time
    [cur]: the distance to the target when moving forward; when moving
    backward, the distance to the target or to the start of time, with the
    turn that displays the first frame counted apart. *)
Definition turns (cur t : Z) : Z :=
  if cur <? t then t - cur
  else if cur <? 0 then 2
  else cur - Z.max t (-1).

(** How [move(t)] leaves the timeline when it returns [v]: on the target,
    or at the end of the timeline, where no marker lies further in the
    direction of the target. *)
Definition atEnd (t v : Z) (clk : Clock) (w : World) : Prop :=
  (v = t /\ currentTime clk = t /\ moveTarget clk = t)
  \/ (v <> t /\ currentTime clk = v /\ moveTarget clk = v /\ endTime clk = v
      /\ 0 <= v
      /\ (lastTargetForward clk = (v <? t) \/ getMarker v clk w = Ok None w)
      /\ getNextMarkerPosition v (v <? t) clk w = Ok (-1) w).

(** The timelines a program can hold: a new one, possibly wrapped by a
    [PlayerEntity] that installs its [doneCb], then moved any number of
    times, with turns of the event loop in between. *)
Inductive reachable : Clock -> World -> Prop :=
| reach_new (ctxt : option (string -> option Element)) (fn : UserFn) :
    reachable newClock (newWorld ctxt fn)
| reach_wrap (clk : Clock) (w : World) (cb : Callback) :
    reachable clk w -> reachable clk (set_doneCb (Some cb) w)
| reach_move (orc : Oracle) (t : Z) (manage : bool) (clk clk' : Clock)
    (w w' : World) (v : Z) :
    reachable clk w ->
    move orc t manage clk w = Ok (v, clk') w' ->
    reachable clk' w'
| reach_await (orc : Oracle) (clk : Clock) (w w' : World) :
    reachable clk w ->
    await orc clk w = Ok tt w' ->
    reachable clk w'.

End Invariants.

(** ** The specification of [getNextMarkerPosition] *)

(** The policy of [getNextMarkerPosition] as the specification words it: the
    candidates in their order, and the first one strictly past [time] in the
    traversal direction, [-1] when there is none. *)
Definition spec_candidates (e : TimelineEntity.t) (forward : bool) : list Z :=
  let dS := TimelineEntity.delayTime e in
  let dE := TimelineEntity.releaseTime e in
  let dn := TimelineEntity.doneTime e in
  if forward then
    match TimelineEntity.releaseCb e with
    | Some _ =>
        if TimelineEntity.release e <=? 0 then [dS; dE; dn] else [dS; dn; dE]
    | None => [dS; dn]
    end
  else [dn; dS].

Definition spec_firstPast (time : Z) (forward : bool) (cands : list Z) : Z :=
  match List.find (fun c => if forward then time <? c else c <? time) cands with
  | Some c => c
  | None => -1
  end.

(** ** Examples *)

(** An [animate] call with a duration of 1000 ms at speed 3. *)
Definition params_1000_over_3 : TimeLine.AnimateParams :=
  TimeLine.mkAnimateParams None (Some (JS.ofZ 1000)) None (Some (JS.ofZ (-20)))
                           (Some (JS.ofZ 3)).

(** A [<text rotate="45">] element, a [<div>] without attributes, and a
    [<div hidden="">]. *)
Definition textWithRotate : Utils.Target :=
  Utils.mkTarget false true true
    (fun name => if String.eqb name "rotate" then Some "45"%string else None)
    (fun _ => false).

Definition plainDiv : Utils.Target :=
  Utils.mkTarget false true false (fun _ => None) (fun _ => false).

Definition divWithEmptyHidden : Utils.Target :=
  Utils.mkTarget false true false
    (fun name => if String.eqb name "hidden" then Some ""%string else None)
    (fun _ => false).

(** A target function: it has no [nodeType] and no [ownerSVGElement]. *)
Definition targetFunction : Utils.Target :=
  Utils.mkTarget true false false (fun _ => None) (fun _ => false).

(** The entity of scenario 4: [times=2, alternate=true, speed=1,
    backSpeed=2], attached at [start]. *)
Definition alternating (dd dr : Z) (delay release : option Z) (start : Z)
  : PlayerEntity.t :=
  let p := PlayerEntity.new dd dr
             (Some (PlayerEntity.mkParams (Some true) (Some 2) (Some 1%Q)
                                          (Some 2%Q) delay release)) in
  PlayerEntity.set_base
    (TimelineEntity.init start (PlayerEntity.base p)) p.

(** A player entity built with [times: 0] and attached at time 0. *)
Definition playedZeroTimes : PlayerEntity.t :=
  let p := PlayerEntity.new 0 0
             (Some (PlayerEntity.mkParams None (Some 0) None None None None)) in
  PlayerEntity.set_base (TimelineEntity.init 0 (PlayerEntity.base p)) p.

(** A selector context that knows [#a] only, and a call that names
    [#zz]. *)
Definition onlyA : option (string -> option TimeLine.Element) :=
  Some (fun s => if String.eqb s "#a" then Some 0%nat else None).

Definition animateZZ : TimeLine.AnimateParams :=
  TimeLine.mkAnimateParams (Some (TimeLine.TargetSelector "#zz"))
                           None None None None.

(** The oracle of a program that keeps touching the engine: every turn of
    the event loop increments the counter. *)
Definition busy : TimeLine.Oracle := fun _ => [TimeLine.Bump].

(** The timeline of scenario 1: one tween of 16 ms on [#a], in an
    asynchronous instruction function the promise of which resolves during
    the first turn of the event loop. *)
Definition oneTween : TimeLine.World :=
  TimeLine.newWorld onlyA
    (TimeLine.mkUserFn
       [TimeLine.CallAnimate
          (TimeLine.mkAnimateParams (Some (TimeLine.TargetSelector "#a"))
             (Some (JS.ofZ 16)) (Some (JS.ofZ 0)) (Some (JS.ofZ 0)) None)]
       true).

Definition resolveFirst : TimeLine.Oracle :=
  fun n => match n with O => [TimeLine.ResolveTlFunction] | S _ => [] end.

(** ** Vocabulary of the further properties *)

(** The markers of an entity a traversal may stop on, and the positions
    past [time] in a direction. *)
Definition isCandidate (e : TimelineEntity.t) (forward : bool) (c : Z) : Prop :=
  c = TimelineEntity.delayTime e \/ c = TimelineEntity.doneTime e
  \/ (forward = true /\ TimelineEntity.releaseCb e <> None
      /\ c = TimelineEntity.releaseTime e).

Definition isPast (time : Z) (forward : bool) (c : Z) : Prop :=
  if forward then time < c else c < time.

(** The release callbacks an entity calls over a sequence of frames
    ([checkDoneAndRelease] at each of the times). *)
Fixpoint firedOver (times : list Z) (e : TimelineEntity.t) : list Callback :=
  match times with
  | [] => []
  | time :: rest =>
      let r := TimelineEntity.markReleased time (TimelineEntity.markDone time e) in
      match snd r with
      | Some cb => cb :: firedOver rest (fst r)
      | None => firedOver rest (fst r)
      end
  end.

(** The timeline once [createMarker] has inserted a marker at [time] next
    to the marker [cur]. *)
Definition afterInsert (after : bool) (time : Z) (cur : MarkerId)
    (cm : AnimMarker.t) (w : TimeLine.World) : TimeLine.World :=
  let m := length (TimeLine.markers w) in
  let new := if after
             then AnimMarker.create time (Some cur) (AnimMarker.next cm)
             else AnimMarker.create time (AnimMarker.prev cm) (Some cur) in
  let cm' := if after then AnimMarker.set_next (Some m) cm
             else AnimMarker.set_prev (Some m) cm in
  let w1 := TimeLine.set_markers (<[cur := cm']> (TimeLine.markers w ++ [new])) w in
  let w2 := if after
            then if TimeLine.sameRef (TimeLine.lastMarker w) cur
                 then TimeLine.set_lastMarker (Some m) w1 else w1
            else if TimeLine.sameRef (TimeLine.firstMarker w) cur
                 then TimeLine.set_firstMarker (Some m) w1 else w1 in
  TimeLine.set_currentMarker (Some m) w2.

Section MoreInvariants.

Import TimeLine.

(** A method that throws nothing. *)
Definition quiet {A : Type} (m : E A) : Prop :=
  forall clk w msg w', m clk w <> Throw msg w'.

(** A method of [move] that throws nothing but the error of the pipe. *)
Definition pipeErrorOnly {A : Type} (m : T A) : Prop :=
  forall clk w msg w',
    m clk w = Throw msg w' -> msg = "Max async loop reached"%string.

(** Where [move(t)] may stop when it starts at [cur]: between the two,
    times before the first frame counting as [0]. *)
Definition between (cur t v : Z) : Prop :=
  Z.min (Z.max cur 0) (Z.max t 0) <= v <= Z.max (Z.max cur 0) (Z.max t 0).

End MoreInvariants.

(** The timing of an entity: what [init] computes. *)
Definition sameTiming (e e' : TimelineEntity.t) : Prop :=
  TimelineEntity.delay e' = TimelineEntity.delay e
  /\ TimelineEntity.release e' = TimelineEntity.release e
  /\ TimelineEntity.duration e' = TimelineEntity.duration e
  /\ TimelineEntity.startTime e' = TimelineEntity.startTime e
  /\ TimelineEntity.delayTime e' = TimelineEntity.delayTime e
  /\ TimelineEntity.releaseTime e' = TimelineEntity.releaseTime e
  /\ TimelineEntity.doneTime e' = TimelineEntity.doneTime e
  /\ TimelineEntity.endTime e' = TimelineEntity.endTime e.

(** An entity later on: the same class, and the same timing once it has
    registered its start. *)
Definition entityKept (e e' : TimelineEntity.t) : Prop :=
  TimelineEntity.kind e' = TimelineEntity.kind e
  /\ (TimelineEntity.startRegistered e = true ->
      TimelineEntity.startRegistered e' = true /\ sameTiming e e').

Definition listKept (l l' : option (list EntityId)) : Prop :=
  match l with
  | Some xs => exists ys, l' = Some (xs ++ ys)
  | None => True
  end.

(** A marker later on: the same time, and the entities it listed. *)
Definition markerKept (m m' : AnimMarker.t) : Prop :=
  AnimMarker.time m' = AnimMarker.time m
  /\ listKept (AnimMarker.startEntities m) (AnimMarker.startEntities m')
  /\ listKept (AnimMarker.endEntities m) (AnimMarker.endEntities m').

(** The two stores later on. *)
Definition grows (w w' : TimeLine.World) : Prop :=
  (forall (i : EntityId) e, TimeLine.entities w !! i = Some e ->
     exists e', TimeLine.entities w' !! i = Some e' /\ entityKept e e')
  /\ (forall (i : MarkerId) m, TimeLine.markers w !! i = Some m ->
        exists m', TimeLine.markers w' !! i = Some m' /\ markerKept m m').

Definition keeps {A : Type} (m : TimeLine.E A) : Prop :=
  forall clk w,
    match m clk w with
    | TimeLine.Ok _ w' => grows w w'
    | _ => True
    end.

Definition keepsAt {A : Type} (i : EntityId) (e : TimelineEntity.t)
    (m : TimeLine.E A) : Prop :=
  forall clk w,
    TimeLine.entities w !! i = Some e ->
    match m clk w with
    | TimeLine.Ok _ w' => grows w w'
    | _ => True
    end.

Definition keepsT {A : Type} (m : TimeLine.T A) : Prop :=
  forall clk w,
    match m clk w with
    | TimeLine.Ok _ w' => grows w w'
    | _ => True
    end.

(** [{...p1, ...p2}] on the control keys. *)
Definition spread (p1 p2 : TimeLine.AnimateParams) : TimeLine.AnimateParams :=
  let pick {A : Type} (a b : option A) : option A :=
    match b with Some _ => b | None => a end in
  TimeLine.mkAnimateParams
    (pick (TimeLine.target p1) (TimeLine.target p2))
    (pick (TimeLine.duration p1) (TimeLine.duration p2))
    (pick (TimeLine.delay p1) (TimeLine.delay p2))
    (pick (TimeLine.release p1) (TimeLine.release p2))
    (pick (TimeLine.speed p1) (TimeLine.speed p2)).

(** The timeline once [checkState] has counted the running entities. *)
Definition afterCheck (clk : TimeLine.Clock) (r : Z * bool)
    (w : TimeLine.World) : TimeLine.World :=
  let w1 :=
    if snd r then
      match TimeLine.releaseCb w with
      | Some cb =>
          TimeLine.set_releaseCb None
            (TimeLine.set_console
               (TimeLine.Resolved cb :: TimeLine.console w)
               (TimeLine.set_released true w))
      | None => TimeLine.set_released true w
      end
    else w in
  if fst r =? 0 then
    match TimeLine.doneCb w1 with
    | Some cb =>
        TimeLine.set_doneCb None
          (TimeLine.set_console
             (TimeLine.DoneCalled cb (TimeLine.lastTargetTime clk)
              :: TimeLine.console w1)
             (TimeLine.set_done true w1))
    | None => TimeLine.set_done true w1
    end
  else w1.

(** The strings of characters of the ASCII range. *)
Definition isAscii (s : list ascii) : Prop :=
  Forall (fun c => charCode c < 128) s.

(** ** Examples of the further properties *)

(** A timeline without instructions. *)
Definition emptyWorld : TimeLine.World :=
  TimeLine.newWorld None (TimeLine.mkUserFn [] false).

(** The timeline a method leaves, [emptyWorld] when it does not return. *)
Definition worldOf {A : Type} (r : TimeLine.result A) : TimeLine.World :=
  match r with
  | TimeLine.Ok _ w => w
  | _ => emptyWorld
  end.

(** Two markers, created at 0 and then at 32: the cursor is on the
    second. *)
Definition twoMarkers : TimeLine.World :=
  worldOf (TimeLine.bind (TimeLine.createMarker 0)
                         (fun _ => TimeLine.createMarker 32)
                         TimeLine.newClock emptyWorld).

(** The timeline of [oneTween] once it has been played to its end. *)
Definition played : TimeLine.Clock * TimeLine.World :=
  match TimeLine.move resolveFirst 100 true TimeLine.newClock oneTween with
  | TimeLine.Ok (_, clk) w => (clk, w)
  | _ => (TimeLine.newClock, emptyWorld)
  end.

(** An animation of 16 ms on [#a]. *)
Definition animateA : TimeLine.AnimateParams :=
  TimeLine.mkAnimateParams (Some (TimeLine.TargetSelector "#a"))
    (Some (JS.ofZ 16)) (Some (JS.ofZ 0)) (Some (JS.ofZ 0)) None.

(** A tween group of 32 ms after a delay of 16 ms, and the player entity
    of a wrapped timeline played once at speed 1. *)
Definition tween32 : TimelineEntity.t := TimelineEntity.newTweenGroup 32 16 0.

Definition plainPlayer : PlayerEntity.t := PlayerEntity.new 0 0 None.

(** The names [borderColor] and [border-color], and the colour [#fa0]. *)
Definition borderColor : list ascii := list_ascii_of_string "borderColor".
Definition border_color : list ascii := list_ascii_of_string "border-color".

(** * Properties *)

(** Boolean comparisons on integers, turned into propositions for [lia]. *)
Ltac zbool :=
  repeat match goal with
         | H : (_ <? _) = true |- _ => apply Z.ltb_lt in H
         | H : (_ <? _) = false |- _ => apply Z.ltb_ge in H
         | H : (_ <=? _) = true |- _ => apply Z.leb_le in H
         | H : (_ <=? _) = false |- _ => apply Z.leb_gt in H
         | H : (_ =? _) = true |- _ => apply Z.eqb_eq in H
         | H : (_ =? _) = false |- _ => apply Z.eqb_neq in H
         end.

(** Conjunctions of the goal, split without unfolding. *)
Ltac splits := repeat match goal with |- _ /\ _ => split end.

(** Case analysis on every condition of the goal. *)
Ltac break_ifs :=
  repeat match goal with
         | |- context [if ?c then _ else _] => destruct c eqn:?; cbn in *
         end.

(** ** Entities *)

Section EntityFacts.

Import TimelineEntity.

Lemma init_duration (start : Z) (e : t) : duration (init start e) = duration e.
Proof.
  unfold init.
  repeat match goal with
         | |- context [if ?c then _ else _] => destruct c
         end; reflexivity.
Qed.

Lemma init_startTime (start : Z) (e : t) : startTime (init start e) = start.
Proof.
  unfold init.
  repeat match goal with
         | |- context [if ?c then _ else _] => destruct c
         end; reflexivity.
Qed.

Lemma init_delayTime (start : Z) (e : t) :
  delayTime (init start e) = start + Z.max 0 (delay e).
Proof.
  unfold init. cbn. break_ifs; zbool; lia.
Qed.

End EntityFacts.

(** C2. For an entity whose release callback is still pending,
    [getNextMarkerPosition(time, forward)] returns the first candidate
    strictly past [time] in the traversal direction, the candidates being
    taken in the order [delayTime], [releaseTime], [doneTime] when moving
    forward with [release <= 0], [delayTime], [doneTime], [releaseTime] when
    moving forward with [release > 0], [delayTime], [doneTime] once the
    callback is consumed, and [doneTime], [delayTime] when moving backward;
    it returns [-1] when no candidate lies past [time]. (The source names
    [delayTime] and [releaseTime] what the specification names
    [delayedStartTime] and [delayedEndTime].) *)
Theorem getNextMarkerPosition_first_past
    (e : TimelineEntity.t) (time : Z) (forward : bool) :
  TimelineEntity.getNextMarkerPosition e time forward
  = spec_firstPast time forward (spec_candidates e forward).
Proof.
  unfold TimelineEntity.getNextMarkerPosition, spec_firstPast, spec_candidates.
  destruct forward.
  - destruct (TimelineEntity.releaseCb e) as [cb|];
      [destruct (TimelineEntity.release e <=? 0)|]; cbn;
      repeat match goal with
             | |- context [if ?c then _ else _] => destruct c
             end; reflexivity.
  - cbn.
    repeat match goal with
           | |- context [if ?c then _ else _] => destruct c
           end; reflexivity.
Qed.



(** ** Quantization of durations *)

Lemma isZero_false (q : Q) : ~ q == 0 -> JS.isZero q = false.
Proof.
  intros Hq. unfold JS.isZero.
  destruct (Qeq_bool q 0) eqn:He; [|reflexivity].
  apply Qeq_bool_iff in He. contradiction.
Qed.

Lemma toZ_ofZ (z : Z) : JS.toZ (JS.Fin (inject_Z z)) = Some z.
Proof.
  unfold JS.toZ. rewrite Qred_identity; [reflexivity|].
  cbn. apply Z.gcd_1_r.
Qed.

Lemma adjustDuration_finite (ms speed : Q) :
  ~ speed == 0 ->
  adjustDuration (JS.Fin ms) (JS.Fin speed)
  = JS.Fin (inject_Z (Qfloor (ms / speed / inject_Z 16 + (1 # 2)) * 16)).
Proof.
  intros Hs. unfold adjustDuration, JS.ofZ, FRAME_MS. cbn [JS.div].
  rewrite (isZero_false speed Hs). reflexivity.
Qed.

Lemma adjustDuration_multiple (ms speed : Q) :
  ~ speed == 0 ->
  isMultipleOf16 (adjustDuration (JS.Fin ms) (JS.Fin speed)) = true.
Proof.
  intros Hs. rewrite (adjustDuration_finite ms speed Hs).
  unfold isMultipleOf16. rewrite toZ_ofZ.
  apply Z.eqb_eq. apply Z_mod_mult.
Qed.




(** ** The animation type of a property *)

Section AnimationType.

Import Utils.

(** C8, as the specification states it, fails on [getAnimationType] of
    [src/core/utils.ts]: a transform function name wins over an attribute of
    that name, the property [transform] of an element without such an
    attribute is invalid, an attribute set to the empty string does not
    count, and a target function is not told apart from any other value
    that is no element. *)
Lemma getAnimationType_not_spec_priority :
  (getAnimationType textWithRotate "rotate" = transform
   /\ spec_getAnimationType TRANSFORMS textWithRotate "rotate" = attribute)
  /\ (getAnimationType plainDiv "transform" = invalid
      /\ spec_getAnimationType TRANSFORMS plainDiv "transform" = css)
  /\ (getAnimationType divWithEmptyHidden "hidden" = css
      /\ spec_getAnimationType TRANSFORMS divWithEmptyHidden "hidden"
         = attribute)
  /\ (getAnimationType targetFunction "opacity" = invalid
      /\ spec_getAnimationType TRANSFORMS targetFunction "opacity"
         = function_).
Proof. repeat split. Qed.

(** C8, as the code has it. For a DOM or SVG element: a name of the
    transform function set yields [transform]; otherwise an attribute of
    that name with a truthy value, or for an SVG element a truthy JS
    property of that name, yields [attribute]; otherwise any name but
    [transform] yields [css] and the name [transform] yields [invalid].
    Any target that is no element, a function included, yields
    [invalid]. *)
Theorem getAnimationType_priority (el : Target) (propName : string) :
  (nodeType el || isSVG el = true ->
   (has TRANSFORMS propName = true ->
    getAnimationType el propName = transform)
   /\ (has TRANSFORMS propName = false ->
       truthy (getAttribute el propName)
       || (isSVG el && property el propName) = true ->
       getAnimationType el propName = attribute)
   /\ (has TRANSFORMS propName = false ->
       truthy (getAttribute el propName)
       || (isSVG el && property el propName) = false ->
       (propName <> "transform"%string ->
        getAnimationType el propName = css)
       /\ (propName = "transform"%string ->
           getAnimationType el propName = invalid)))
  /\ (nodeType el || isSVG el = false ->
      getAnimationType el propName = invalid).
Proof.
  unfold getAnimationType. split.
  - intros Hdom. rewrite Hdom. split; [|split].
    + intros Ht. rewrite Ht. reflexivity.
    + intros Ht Ha. rewrite Ht, Ha. reflexivity.
    + intros Ht Ha. rewrite Ht, Ha. split.
      * intros Hne.
        destruct (String.eqb_spec propName "transform"); [contradiction|].
        reflexivity.
      * intros Heq. rewrite Heq. reflexivity.
  - intros Hdom. rewrite Hdom. reflexivity.
Qed.

Lemma getAnimationType_priority_witness :
  getAnimationType textWithRotate "rotate" = transform
  /\ getAnimationType plainDiv "left" = css
  /\ getAnimationType targetFunction "left" = invalid.
Proof.
  split; [|split].
  - apply (getAnimationType_priority textWithRotate "rotate"); reflexivity.
  - apply (getAnimationType_priority plainDiv "left");
      [reflexivity | reflexivity | reflexivity | discriminate].
  - apply (getAnimationType_priority targetFunction "left"). reflexivity.
Defined.

(** The other revision of [getAnimationType] follows the priority of the
    specification, with the transform table of [transforms.ts]. *)
Lemma getAnimationType_rev_spec (target : Target) (propName : string) :
  getAnimationType_rev target propName
  = spec_getAnimationType TRANSFORMS_table target propName.
Proof.
  unfold getAnimationType_rev, spec_getAnimationType.
  destruct (isFunction target); [reflexivity|].
  destruct (nodeType target || isSVG target); [|reflexivity].
  cbn. destruct (hasAttribute target propName
                 || (isSVG target && property target propName));
    [reflexivity|].
  destruct (has TRANSFORMS_table propName); reflexivity.
Qed.

End AnimationType.

(** ** Nested players *)

Section PlayerEntityFacts.

Import PlayerEntity.

(** The constructor never leaves a speed at zero. *)
Lemma orQ_nonzero (x : option Q) : ~ JS.orQ x 1 == 0.
Proof.
  unfold JS.orQ. destruct x as [q|]; [|discriminate].
  unfold JS.isZero. destruct (Qeq_bool q 0) eqn:He; [discriminate|].
  intros Hq. apply Qeq_bool_iff in Hq. congruence.
Qed.

Lemma new_speeds (dd dr : Z) (params : option PlayParams) :
  ~ speed (new dd dr params) == 0 /\ ~ backSpeed (new dd dr params) == 0.
Proof.
  destruct params as [ps|]; cbn; split;
    try apply orQ_nonzero; discriminate.
Qed.

Lemma doneCb_fields (p : t) (tlDuration : Z) :
  let p' := doneCb tlDuration p in
  d1 p' = JS.Math_trunc (inject_Z tlDuration / speed p)
  /\ d2 p' = (if alternate p
              then JS.Math_trunc (inject_Z tlDuration / backSpeed p) else 0)
  /\ TimelineEntity.duration (base p') = (d1 p' + d2 p') * times p
  /\ backSpeed p' = backSpeed p
  /\ (0 <= TimelineEntity.duration (base p') ->
      TimelineEntity.doneTime (base p')
      = TimelineEntity.delayTime (base p')
        + TimelineEntity.duration (base p')).
Proof.
  cbn. rewrite init_duration. cbn. repeat split.
  intros Hd. unfold TimelineEntity.init. cbn. break_ifs; zbool; lia.
Qed.

Lemma scenario_seek (p : t) :
  d1 p = 32 -> d2 p = 16 -> TimelineEntity.duration (base p) = 96 ->
  TimelineEntity.doneTime (base p) = TimelineEntity.delayTime (base p) + 96 ->
  backSpeed p = 2%Q ->
  childSeek p (TimelineEntity.delayTime (base p) + 40)
  = Some (MoveTo (inject_Z (48 - 40) * 2)%Q).
Proof.
  intros Hd1 Hd2 Hdur Hdone Hbs. unfold childSeek.
  rewrite Hdur, Hdone, Hd1, Hd2, Hbs.
  set (s := TimelineEntity.delayTime (base p)).
  replace (s + 40 - s) with 40 by lia.
  replace (s <=? s + 40) with true by (symmetry; apply Z.leb_le; lia).
  replace (s + 40 <=? s + 96) with true by (symmetry; apply Z.leb_le; lia).
  clearbody s. reflexivity.
Qed.



(** C4, as the specification states it, fails: with [times: 0] the
    constructor keeps [times = 1], the frame at the start moves the wrapped
    timeline, and a wrapped timeline of 32 ms gives the duration 32. *)
Lemma times_zero_is_not_a_delay :
  times playedZeroTimes = 1
  /\ seek (displayFrame playedZeroTimes 0 0 true) = Some (MoveTo (inject_Z 0 * 1)%Q)
  /\ TimelineEntity.duration (base (doneCb 32 playedZeroTimes)) = 32
  /\ TimelineEntity.duration (TimelineEntity.newDelay 0) = 0.
Proof. repeat split. Qed.

(** C4, as the code has it. A player entity built with [times: 0] is the
    one built with [times: 1], which is also the one built without
    [times]: [params.times || 1] replaces the zero. Once the wrapped
    timeline has reported its duration, the duration of the entity is
    [d1 + d2]. *)
Theorem times_zero_is_once (dd dr : Z) (ps : PlayParams) (tlDuration : Z) :
  p_times ps = Some 0 ->
  let once := mkParams (p_alternate ps) (Some 1) (p_speed ps) (p_backSpeed ps)
                       (p_delay ps) (p_release ps) in
  let unset := mkParams (p_alternate ps) None (p_speed ps) (p_backSpeed ps)
                        (p_delay ps) (p_release ps) in
  new dd dr (Some ps) = new dd dr (Some once)
  /\ new dd dr (Some ps) = new dd dr (Some unset)
  /\ times (new dd dr (Some ps)) = 1
  /\ (forall start : Z,
        let p := doneCb tlDuration
                   (set_base (TimelineEntity.init start
                                (base (new dd dr (Some ps))))
                             (new dd dr (Some ps))) in
        TimelineEntity.duration (base p) = d1 p + d2 p).
Proof.
  intros Ht once unset.
  assert (Htimes : times (new dd dr (Some ps)) = 1)
    by (cbn; rewrite Ht; reflexivity).
  split; [unfold new; cbn; rewrite Ht; reflexivity|].
  split; [unfold new; cbn; rewrite Ht; reflexivity|].
  split; [exact Htimes|].
  intros start p.
  destruct (doneCb_fields
              (set_base (TimelineEntity.init start (base (new dd dr (Some ps))))
                        (new dd dr (Some ps))) tlDuration)
    as (_ & _ & Hdur & _).
  fold p in Hdur. rewrite Hdur.
  change (times (set_base _ (new dd dr (Some ps))))
    with (times (new dd dr (Some ps))).
  rewrite Htimes. lia.
Qed.

Lemma times_zero_is_once_witness :
  p_times (mkParams None (Some 0) None None None None) = Some 0
  /\ times (new 0 0 (Some (mkParams None (Some 0) None None None None))) = 1.
Proof.
  split; [reflexivity|].
  apply (times_zero_is_once 0 0 (mkParams None (Some 0) None None None None)
           32 eq_refl).
Defined.

End PlayerEntityFacts.

(** ** The position of a player *)

(** C10. [Player.position] is never negative: it is [0] while the current
    time of the root timeline is negative, as it is ([-1]) before the first
    frame, and the current time otherwise. *)
Theorem position_not_negative (p : Player.t) :
  0 <= Player.position p
  /\ (TimeLine.currentTime (Player.clock p) < 0 -> Player.position p = 0)
  /\ (0 <= TimeLine.currentTime (Player.clock p) ->
      Player.position p = TimeLine.currentTime (Player.clock p))
  /\ (forall document animFunction,
        TimeLine.currentTime (Player.clock (Player.new document animFunction))
        = -1
        /\ Player.position (Player.new document animFunction) = 0).
Proof.
  unfold Player.position.
  destruct (TimeLine.currentTime (Player.clock p) <? 0) eqn:Hc; zbool;
    repeat split; intros; try lia; reflexivity.
Qed.

Lemma position_not_negative_witness :
  Player.position (Player.new None (TimeLine.mkUserFn [] false)) = 0.
Proof.
  apply (position_not_negative (Player.new None (TimeLine.mkUserFn [] false))).
Defined.

(** ** Reasoning on the methods *)

Section Monad.

Import TimeLine.

Lemma bind_Ok {A B : Type} (m : E A) (k : A -> E B) (clk : Clock)
    (w w' : World) (b : B) :
  bind m k clk w = Ok b w' ->
  exists a w1, m clk w = Ok a w1 /\ k a clk w1 = Ok b w'.
Proof.
  unfold bind. destruct (m clk w) as [a w1| | |]; try discriminate.
  intros H. exists a, w1. split; [reflexivity | exact H].
Qed.

Lemma bindT_Ok {A B : Type} (m : T A) (k : A -> T B) (clk : Clock)
    (w w' : World) (r : B * Clock) :
  bindT m k clk w = Ok r w' ->
  exists a clk1 w1, m clk w = Ok (a, clk1) w1 /\ k a clk1 w1 = Ok r w'.
Proof.
  unfold bindT. destruct (m clk w) as [[a clk1] w1| | |]; try discriminate.
  intros H. exists a, clk1, w1. split; [reflexivity | exact H].
Qed.

Lemma liftE_Ok {A : Type} (m : E A) (clk clk' : Clock) (w w' : World) (a : A) :
  liftE m clk w = Ok (a, clk') w' -> clk' = clk /\ m clk w = Ok a w'.
Proof.
  unfold liftE. destruct (m clk w); try discriminate.
  intros H. injection H as -> -> ->. split; reflexivity.
Qed.

End Monad.

(** ** Unresolvable targets *)

(** C9. When the target of [animate(params)] is not a function and
    [select] finds no element for it, [animate] writes one line to the
    console and returns: no entity is created or attached, the markers and
    the running list are the same, and nothing is thrown. *)
Theorem animate_unresolved_target
    (params : TimeLine.AnimateParams) (clk : TimeLine.Clock)
    (w : TimeLine.World) :
  let target := TimeLine.parseTarget (TimeLine.target params)
                  (TimeLine.s_target (TimeLine.settings w)) in
  TimeLine.isTargetFunction target = false ->
  TimeLine.select w target = None ->
  exists w',
    TimeLine.animate params clk w = TimeLine.Ok tt w'
    /\ TimeLine.console w' = TimeLine.LogInvalidTarget target
                              :: TimeLine.console w
    /\ TimeLine.entities w' = TimeLine.entities w
    /\ TimeLine.markers w' = TimeLine.markers w
    /\ TimeLine.firstMarker w' = TimeLine.firstMarker w
    /\ TimeLine.currentMarker w' = TimeLine.currentMarker w
    /\ TimeLine.lastMarker w' = TimeLine.lastMarker w
    /\ TimeLine.rList w' = TimeLine.rList w
    /\ TimeLine.rListEnd w' = TimeLine.rListEnd w
    /\ TimeLine.ASYNC_COUNTER w' = TimeLine.ASYNC_COUNTER w.
Proof.
  intros target Hfn Hsel.
  exists (TimeLine.set_console
            (TimeLine.LogInvalidTarget target :: TimeLine.console w) w).
  split; [|repeat split].
  unfold TimeLine.animate, TimeLine.bind, TimeLine.get.
  destruct (TimeLine.animateControls params (TimeLine.settings w))
    as [[duration delay] release].
  fold target. rewrite Hfn, Hsel. reflexivity.
Qed.

Lemma animate_unresolved_target_witness :
  exists w',
    TimeLine.animate animateZZ TimeLine.newClock
      (TimeLine.newWorld onlyA (TimeLine.mkUserFn [] false))
    = TimeLine.Ok tt w'
    /\ TimeLine.entities w' = [].
Proof.
  destruct (animate_unresolved_target animateZZ TimeLine.newClock
              (TimeLine.newWorld onlyA (TimeLine.mkUserFn [] false))
              eq_refl eq_refl)
    as (w' & Hrun & _ & Hent & _).
  exists w'. split; [exact Hrun | exact Hent].
Defined.

(** ** The asynchronous counter *)

Section Counter.

Import TimeLine.

Lemma safe_ret {A : Type} (a : A) : safe (ret a).
Proof. intros clk w. cbn. lia. Qed.

Lemma safe_bind {A B : Type} (m : E A) (k : A -> E B) :
  safe m -> (forall a, safe (k a)) -> safe (bind m k).
Proof.
  intros Hm Hk clk w. unfold bind. specialize (Hm clk w).
  destruct (m clk w) as [a w1| | |]; try exact Hm; try exact I.
  specialize (Hk a clk w1). destruct (k a clk w1); try exact Hk. lia.
Qed.

Lemma safe_get : safe get.
Proof. intros clk w. cbn. lia. Qed.

Lemma safe_clock : safe clock.
Proof. intros clk w. cbn. lia. Qed.

Lemma safe_stuck {A : Type} : safe (@stuck A).
Proof. intros clk w. exact I. Qed.

Lemma safe_diverge {A : Type} : safe (@diverge A).
Proof. intros clk w. exact I. Qed.

Lemma safe_modify (f : World -> World) :
  (forall w, ASYNC_COUNTER w <= ASYNC_COUNTER (f w)) -> safe (modify f).
Proof. intros Hf clk w. cbn. apply Hf. Qed.

Lemma safe_when (b : bool) (m : E unit) : safe m -> safe (when b m).
Proof. intros Hm. destruct b; [exact Hm | apply safe_ret]. Qed.

End Counter.

Create HintDb safe discriminated.
#[local] Hint Resolve safe_ret safe_get safe_clock safe_stuck safe_diverge
  : safe.

(** Structural proof of [safe]: binds, case analyses and assignments that
    leave the counter alone. *)
Ltac safe_step :=
  match goal with
  | |- safe (TimeLine.bind _ _) => apply safe_bind; [|intros ?]
  | |- safe (TimeLine.when _ _) => apply safe_when
  | |- safe (TimeLine.modify _) =>
      apply safe_modify; intros ?; cbn; lia
  | |- safe (match ?x with _ => _ end) => destruct x
  | |- safe (let '(_, _) := ?x in _) => destruct x
  | |- safe _ => solve [auto with safe]
  end.

Ltac safe_auto := repeat safe_step.

Section CounterMethods.

Import TimeLine.

Lemma safe_emit (ev : Event) : safe (emit ev).
Proof. unfold emit. safe_auto. Qed.

Lemma safe_bumpCounter : safe bumpCounter.
Proof. unfold bumpCounter. safe_auto. Qed.

Lemma safe_getEntity (i : EntityId) : safe (getEntity i).
Proof. unfold getEntity. safe_auto. Qed.

Lemma safe_setEntity (i : EntityId) (e : TimelineEntity.t) :
  safe (setEntity i e).
Proof. unfold setEntity. safe_auto. Qed.

Hint Resolve safe_emit safe_bumpCounter safe_getEntity safe_setEntity : safe.

Lemma safe_updEntity i f : safe (updEntity i f).
Proof. unfold updEntity. safe_auto. Qed.

Lemma safe_getMarkerObj i : safe (getMarkerObj i).
Proof. unfold getMarkerObj. safe_auto. Qed.

Hint Resolve safe_updEntity safe_getMarkerObj : safe.

Lemma safe_updMarker i f : safe (updMarker i f).
Proof. unfold updMarker. safe_auto. Qed.

Lemma safe_allocEntity e : safe (allocEntity e).
Proof. unfold allocEntity. safe_auto. Qed.

Lemma safe_allocMarker m : safe (allocMarker m).
Proof. unfold allocMarker. safe_auto. Qed.

Hint Resolve safe_updMarker safe_allocEntity safe_allocMarker : safe.

Lemma safe_getMarkerFrom fuel time forward cur :
  safe (getMarkerFrom fuel time forward cur).
Proof.
  revert cur. induction fuel as [|fuel IH]; intros [c|]; cbn; safe_auto.
Qed.

Hint Resolve safe_getMarkerFrom : safe.

Lemma safe_getMarker time : safe (getMarker time).
Proof. unfold getMarker. safe_auto. Qed.

Lemma safe_insertAfter time cur : safe (insertAfter time cur).
Proof. unfold insertAfter. safe_auto. Qed.

Lemma safe_insertBefore time cur : safe (insertBefore time cur).
Proof. unfold insertBefore. safe_auto. Qed.

Hint Resolve safe_getMarker safe_insertAfter safe_insertBefore : safe.

Lemma safe_createMarkerFrom fuel time cur :
  safe (createMarkerFrom fuel time cur).
Proof.
  revert cur. induction fuel as [|fuel IH]; intros cur; cbn; safe_auto.
Qed.

Hint Resolve safe_createMarkerFrom : safe.

Lemma safe_createMarker time : safe (createMarker time).
Proof. unfold createMarker. safe_auto. Qed.

Hint Resolve safe_createMarker : safe.

Lemma safe_unlink fuel ae entity : safe (unlink fuel ae entity).
Proof.
  revert entity. induction fuel as [|fuel IH]; intros [i|]; cbn; safe_auto.
Qed.

Hint Resolve safe_unlink : safe.

Lemma safe_removeEntity ae : safe (removeEntity ae).
Proof. unfold removeEntity. safe_auto. Qed.

Hint Resolve safe_removeEntity : safe.

Lemma safe_checkDoneAndRelease id time forward :
  safe (checkDoneAndRelease id time forward).
Proof. unfold checkDoneAndRelease. safe_auto. Qed.

Hint Resolve safe_checkDoneAndRelease : safe.

Lemma safe_entityDisplayFrame id time targetTime forward :
  safe (entityDisplayFrame id time targetTime forward).
Proof. unfold entityDisplayFrame. safe_auto. Qed.

Hint Resolve safe_entityDisplayFrame : safe.

Lemma safe_addEntity ae : safe (addEntity ae).
Proof. unfold addEntity. safe_auto. Qed.

Hint Resolve safe_addEntity : safe.

Lemma safe_attach id : safe (attach id).
Proof. unfold attach. safe_auto. Qed.

Hint Resolve safe_attach : safe.

Lemma safe_countRunning fuel ae count allReleased :
  safe (countRunning fuel ae count allReleased).
Proof.
  revert ae count allReleased.
  induction fuel as [|fuel IH]; intros [i|] count allReleased; cbn; safe_auto.
Qed.

Hint Resolve safe_countRunning : safe.

Lemma safe_checkState : safe checkState.
Proof. unfold checkState. safe_auto. Qed.

Hint Resolve safe_checkState : safe.

Lemma safe_setTlFunctionComplete : safe setTlFunctionComplete.
Proof. unfold setTlFunctionComplete. safe_auto. Qed.

Lemma safe_createTweens d dl r : safe (createTweens d dl r).
Proof. unfold createTweens. safe_auto. Qed.

Hint Resolve safe_setTlFunctionComplete safe_createTweens : safe.

Lemma safe_animate params : safe (animate params).
Proof. unfold animate. safe_auto. Qed.

Hint Resolve safe_animate : safe.

Lemma safe_runCall c : safe (runCall c).
Proof.
  destruct c; cbn [runCall]; unfold set, delay_, defaults; safe_auto.
Qed.

Hint Resolve safe_runCall : safe.

Lemma safe_runCalls cs : safe (runCalls cs).
Proof. induction cs as [|c cs IH]; cbn; safe_auto. Qed.

Hint Resolve safe_runCalls : safe.

Lemma safe_await orc : safe (await orc).
Proof. unfold await. safe_auto. Qed.

End CounterMethods.

Section Pipe.

Import TimeLine.

Variable orc : Oracle.

Lemma pipeStep_inv (p : Pipe) (counter : Z) :
  pipeInv p -> 0 <= counter -> pipeInv (pipeStep p counter).
Proof.
  unfold pipeInv, pipeStep. intros (Hc & Hc2 & H1) Hn. cbn.
  destruct (c2 p =? counter) eqn:He;
    destruct (count p =? 0) eqn:H0; cbn;
    try destruct (count2 p + 1 <? 2) eqn:H2; cbn; zbool; lia.
Qed.

Lemma pipeStep_count (p : Pipe) (counter : Z) :
  count (pipeStep p counter) = count p + 1.
Proof. reflexivity. Qed.

(** The loop leaves at the turn whose reading equals the one before, which
    equalled its own predecessor; no other turn ends it. *)
Lemma pipeStep_stable (p : Pipe) (counter : Z) :
  0 <= counter -> 0 <= count p -> 0 <= count2 p ->
  (c1 (pipeStep p counter) = c2 (pipeStep p counter)
   <-> counter = c2 p /\ 1 <= count2 p /\ count p <> 0).
Proof.
  unfold pipeStep. intros Hn Hc Hc2. cbn.
  destruct (c2 p =? counter) eqn:He;
    destruct (count p =? 0) eqn:H0; cbn;
    try destruct (count2 p + 1 <? 2) eqn:H2; cbn; zbool; lia.
Qed.

Lemma exhaustLoop_fuel (fuel1 fuel2 : nat) (p : Pipe) (clk : Clock)
    (w : World) :
  (MAX_ASYNC - count p <= Z.of_nat fuel1) ->
  (MAX_ASYNC - count p <= Z.of_nat fuel2) ->
  exhaustLoop orc fuel1 p clk w = exhaustLoop orc fuel2 p clk w.
Proof.
  revert fuel2 p clk w.
  induction fuel1 as [|fuel1 IH]; intros fuel2 p clk w H1 H2.
  - destruct fuel2 as [|fuel2]; [reflexivity|].
    cbn. destruct (count p <? MAX_ASYNC) eqn:Hc; zbool; [lia|].
    rewrite andb_false_r. reflexivity.
  - destruct fuel2 as [|fuel2].
    + cbn. destruct (count p <? MAX_ASYNC) eqn:Hc; zbool; [lia|].
      rewrite andb_false_r. reflexivity.
    + cbn. destruct (negb (c1 p =? c2 p) && (count p <? MAX_ASYNC)) eqn:Hc;
        [|reflexivity].
      unfold bind. destruct (await orc clk w) as [[] w1| | |]; try reflexivity.
      cbn. destruct (10000 <? ASYNC_COUNTER w1); cbn;
        apply IH; rewrite pipeStep_count; lia.
Qed.

Lemma exhaustLoop_inv (fuel : nat) (p : Pipe) (clk : Clock) (w : World) :
  pipeInv p -> 0 <= ASYNC_COUNTER w ->
  MAX_ASYNC - count p <= Z.of_nat fuel ->
  match exhaustLoop orc fuel p clk w with
  | Ok p' w' =>
      pipeInv p' /\ 0 <= ASYNC_COUNTER w'
      /\ count p <= count p' /\ count p' <= Z.max (count p) MAX_ASYNC
      /\ (count p' < MAX_ASYNC -> c1 p' = c2 p')
  | Throw _ _ => False
  | Diverge | Stuck => True
  end.
Proof.
  revert p clk w. induction fuel as [|fuel IH]; intros p clk w Hp Hw Hf.
  - cbn. destruct (count p <? MAX_ASYNC) eqn:Hc; zbool; [lia|].
    rewrite andb_false_r. cbn. unfold MAX_ASYNC in *.
    splits; try assumption; lia.
  - cbn. destruct (negb (c1 p =? c2 p) && (count p <? MAX_ASYNC)) eqn:Hc.
    + unfold bind. pose proof (safe_await orc clk w) as Ha.
      destruct (await orc clk w) as [[] w1| | |]; try exact Ha; try exact I.
      cbn.
      assert (Hstep : pipeInv (pipeStep p (ASYNC_COUNTER w1)))
        by (apply pipeStep_inv; [assumption | lia]).
      destruct (10000 <? ASYNC_COUNTER w1) eqn:Hbig; cbn.
      * specialize (IH (pipeStep p (ASYNC_COUNTER w1)) clk
                       (set_ASYNC_COUNTER 1 w1) Hstep).
        cbn in IH. specialize (IH ltac:(lia) ltac:(lia)).
        destruct (exhaustLoop orc fuel _ clk _); try exact IH.
        apply andb_prop in Hc. destruct Hc as [_ Hc]. zbool.
        destruct IH as (? & ? & ? & ? & ?).
        unfold MAX_ASYNC in *. splits; try assumption; lia.
      * specialize (IH (pipeStep p (ASYNC_COUNTER w1)) clk w1 Hstep).
        cbn in IH. specialize (IH ltac:(lia) ltac:(lia)).
        destruct (exhaustLoop orc fuel _ clk _); try exact IH.
        apply andb_prop in Hc. destruct Hc as [_ Hc]. zbool.
        destruct IH as (? & ? & ? & ? & ?).
        unfold MAX_ASYNC in *. splits; try assumption; lia.
    + cbn. unfold MAX_ASYNC in *. splits; try assumption; lia.
Qed.

End Pipe.

Section PipeClaim.

Import TimeLine.

Lemma moveLoop_throws (orc : Oracle) (fuel : nat) (timeTarget cur : Z)
    (forward : bool) (clk0 clk1 clk2 : Clock) (w0 w1 w2 w3 : World)
    (nextTarget : Z) (msg : string) :
  cur <> moveTarget clk0 ->
  findNextTarget orc timeTarget forward cur clk0 w0
  = Ok (Continue nextTarget, clk1) w1 ->
  displayFrame nextTarget timeTarget forward clk1 w1 = Ok (tt, clk2) w2 ->
  exhaustAsyncPipe orc clk2 w2 = Throw msg w3 ->
  moveLoop orc (S fuel) timeTarget forward true cur clk0 w0 = Throw msg w3.
Proof.
  intros Hcur Hfind Hframe Hpipe. cbn [moveLoop].
  unfold bindT at 1. cbn [getClock].
  destruct (cur =? moveTarget clk0) eqn:He; zbool; [contradiction|].
  unfold bindT at 1. rewrite Hfind.
  unfold bindT at 1. rewrite Hframe.
  unfold bindT at 1. cbn [whenT]. unfold liftE. rewrite Hpipe. reflexivity.
Qed.



End PipeClaim.

(** ** Seeking twice *)

(** The end of a scan: the timeline is the one it started with. *)
Ltac scan_leaf :=
  split;
  [ reflexivity
  | let H := fresh "H" in
    intros ? ? H;
    unfold TimeLine.ret, TimeLine.diverge, TimeLine.stuck in H;
    first [ discriminate H
          | injection H as <- <-; auto ] ].

Section Seek.

Import TimeLine.

(** *** [getMarker] reads the markers and nothing else *)

Lemma getMarkerFrom_pure (fuel : nat) (time : Z) (forward : bool)
    (cur : option MarkerId) (clk clk' : Clock) (w : World) :
  getMarkerFrom fuel time forward cur clk w
  = getMarkerFrom fuel time forward cur clk' w
  /\ forall r w', getMarkerFrom fuel time forward cur clk w = Ok r w' -> w' = w.
Proof.
  revert cur. induction fuel as [|fuel IH]; intros [c|]; cbn;
    try scan_leaf.
  unfold bind, getMarkerObj, get. cbn.
  destruct (markers w !! c) as [m|]; cbn; [|scan_leaf].
  destruct (AnimMarker.time m =? time); [scan_leaf|].
  destruct (forward && (AnimMarker.time m <=? time)); [apply IH|].
  destruct (negb forward && (time <=? AnimMarker.time m)); [apply IH|].
  scan_leaf.
Qed.

Lemma getMarkerObj_eq (c : MarkerId) (clk : Clock) (w : World) :
  getMarkerObj c clk w
  = match markers w !! c with Some m => Ok m w | None => Stuck end.
Proof.
  unfold getMarkerObj, bind, get. destruct (markers w !! c); reflexivity.
Qed.

Lemma getEntity_eq (i : EntityId) (clk : Clock) (w : World) :
  getEntity i clk w
  = match entities w !! i with Some e => Ok e w | None => Stuck end.
Proof.
  unfold getEntity, bind, get. destruct (entities w !! i); reflexivity.
Qed.

Lemma getMarker_clock (time : Z) (clk clk' : Clock) (w : World) :
  getMarker time clk w = getMarker time clk' w.
Proof.
  unfold getMarker. unfold bind at 1 3. unfold get.
  destruct (currentMarker w) as [c|]; [|reflexivity].
  unfold bind. rewrite !getMarkerObj_eq.
  destruct (markers w !! c) as [m|]; [|reflexivity].
  apply getMarkerFrom_pure.
Qed.

Lemma getMarker_pure (time : Z) (clk : Clock) (w w' : World)
    (r : option MarkerId) :
  getMarker time clk w = Ok r w' -> w' = w.
Proof.
  unfold getMarker. unfold bind at 1. unfold get.
  destruct (currentMarker w) as [c|]; [|unfold ret; congruence].
  unfold bind. rewrite getMarkerObj_eq.
  destruct (markers w !! c) as [m|]; [|discriminate].
  apply (getMarkerFrom_pure _ _ _ _ clk clk w).
Qed.

(** *** The next marker position *)

Lemma scanRunning_spec (fuel : nat) (time : Z) (forward : bool)
    (ae : option EntityId) (n : Z) (found : bool) (clk clk' : Clock)
    (w : World) :
  scanRunning fuel time forward ae n found clk w
  = scanRunning fuel time forward ae n found clk' w
  /\ forall r w',
       scanRunning fuel time forward ae n found clk w = Ok r w' ->
       past time forward n found ->
       w' = w /\ past time forward (fst r) (snd r).
Proof.
  revert ae n found. induction fuel as [|fuel IH]; intros [i|] n found; cbn;
    try scan_leaf.
  unfold bind, getEntity, get. cbn.
  destruct (entities w !! i) as [e|]; cbn;
    [|scan_leaf].
  specialize (IH (TimelineEntity.nextEntity e)).
  set (n2 := TimelineEntity.getNextMarkerPosition e time forward) in *.
  set (better := (-1 <? n2) && (if forward then (time <? n2) && (n2 <? n)
                                else (n2 <? time) && (n <? n2))) in *.
  destruct (IH (if better then n2 else n) (if better then true else found))
    as [IH1 IH2].
  split; [exact IH1|].
  intros r w' H Hp. apply (IH2 r w' H).
  clear IH IH1 IH2 H. unfold past in *.
  destruct better eqn:Hb; [|exact Hp].
  subst better. destruct forward; split; intros; try discriminate; lia.
Qed.

Lemma scanMarkers_spec (fuel : nat) (time : Z) (forward : bool)
    (cm : option MarkerId) (n : Z) (found : bool) (clk clk' : Clock)
    (w : World) :
  scanMarkers fuel time forward cm n found clk w
  = scanMarkers fuel time forward cm n found clk' w
  /\ forall r w',
       scanMarkers fuel time forward cm n found clk w = Ok r w' ->
       past time forward n found ->
       (snd r = false -> w' = w) /\ past time forward (fst r) (snd r).
Proof.
  revert cm n found. induction fuel as [|fuel IH]; intros [c|] n found; cbn;
    try scan_leaf.
  unfold bind, getMarkerObj, get. cbn.
  destruct (markers w !! c) as [m|]; cbn;
    [|scan_leaf].
  destruct forward.
  - destruct (time <? AnimMarker.time m) eqn:Ht; [|apply IH].
    destruct (found && (n =? AnimMarker.time m)) eqn:Hf.
    + split; [reflexivity|]. intros r w' H Hp. cbn in H.
      injection H as <- <-. cbn. split; [|exact Hp].
      intros ->. discriminate Hf.
    + destruct (AnimMarker.time m <? n) eqn:Hn.
      * destruct (IH (AnimMarker.prev m) (AnimMarker.time m) true)
          as [IH1 IH2].
        split; [exact IH1|]. intros r w' H Hp. apply (IH2 r w' H).
        unfold past in *. lia.
      * split; [reflexivity|]. intros r w' H Hp. cbn in H.
        injection H as <- <-. auto.
  - destruct (AnimMarker.time m <? time) eqn:Ht; [|apply IH].
    destruct (found && (n =? AnimMarker.time m)) eqn:Hf.
    + split; [reflexivity|]. intros r w' H Hp. cbn in H.
      injection H as <- <-. cbn. split; [|exact Hp].
      intros ->. discriminate Hf.
    + destruct (n <? AnimMarker.time m) eqn:Hn.
      * destruct (IH (AnimMarker.next m) (AnimMarker.time m) true)
          as [IH1 IH2].
        split; [exact IH1|]. intros r w' H Hp. apply (IH2 r w' H).
        unfold past in *. lia.
      * split; [reflexivity|]. intros r w' H Hp. cbn in H.
        injection H as <- <-. auto.
Qed.

(** [getNextMarkerPosition] reads the clock for its current time only. *)
Lemma getNextMarkerPosition_clock (time : Z) (forward : bool)
    (clk clk' : Clock) (w : World) :
  currentTime clk' = currentTime clk ->
  getNextMarkerPosition time forward clk' w
  = getNextMarkerPosition time forward clk w.
Proof.
  intros Hc. unfold getNextMarkerPosition.
  unfold bind at 1 2 5 6. unfold clock, get. rewrite Hc.
  destruct (Z.abs (time - currentTime clk) =? FRAME_MS); [reflexivity|].
  unfold bind at 1 3.
  rewrite (proj1 (scanRunning_spec _ time forward (rList w) _ false clk' clk w)).
  destruct (scanRunning _ time forward (rList w) _ false clk w)
    as [r w1| | |]; try reflexivity.
  unfold bind.
  rewrite (proj1 (scanMarkers_spec _ time forward (currentMarker w)
                    (fst r) (snd r) clk' clk w1)).
  reflexivity.
Qed.

(** Away from the shortcut of the next frame, [getNextMarkerPosition]
    either finds nothing, returns [-1] and leaves the timeline as it is, or
    returns a position strictly past [time]. *)
Lemma getNextMarkerPosition_result (time : Z) (forward : bool) (clk : Clock)
    (w w' : World) (n : Z) :
  getNextMarkerPosition time forward clk w = Ok n w' ->
  time = currentTime clk ->
  (n = -1 /\ w' = w)
  \/ (if forward then time < n else -1 < n /\ n < time).
Proof.
  intros H Ht. unfold getNextMarkerPosition in H.
  unfold bind at 1 2 in H. unfold clock, get in H.
  rewrite <- Ht, Z.sub_diag in H.
  change (Z.abs 0 =? FRAME_MS) with false in H. cbv iota in H.
  unfold bind at 1 in H.
  destruct (scanRunning _ time forward (rList w) _ false clk w)
    as [r1 w1| | |] eqn:Hrun; try discriminate H.
  destruct (proj2 (scanRunning_spec _ _ _ _ _ _ clk clk _) _ _ Hrun)
    as [-> Hp1].
  { unfold past. split; [discriminate | intros ->; lia]. }
  unfold bind at 1 in H.
  destruct (scanMarkers _ time forward (currentMarker w) (fst r1) (snd r1)
                        clk w) as [r2 w2| | |] eqn:Hmark;
    try discriminate H.
  destruct (proj2 (scanMarkers_spec _ _ _ _ _ _ clk clk _) _ _ Hmark Hp1)
    as [Hw Hp2].
  unfold ret in H. injection H as <- <-.
  destruct (snd r2) eqn:Hfound.
  - right. apply Hp2. reflexivity.
  - left. split; [reflexivity | apply Hw; reflexivity].
Qed.

(** *** Frames and the clock *)

Lemma displayFrame_clock (time targetTime : Z) (forward : bool)
    (clk clk' : Clock) (w w' : World) (u : unit) :
  displayFrame time targetTime forward clk w = Ok (u, clk') w' ->
  clk' = clockAfterFrame time targetTime forward clk.
Proof.
  unfold displayFrame. intros H.
  apply bindT_Ok in H. destruct H as (a & clk1 & w1 & H1 & H2).
  unfold setClock in H1. injection H1 as _ <- <-.
  apply liftE_Ok in H2. destruct H2 as [-> _]. reflexivity.
Qed.

Lemma set_moveTarget_id (t : Z) (clk : Clock) :
  moveTarget clk = t -> set_moveTarget t clk = clk.
Proof. destruct clk. cbn. intros ->. reflexivity. Qed.

Lemma end_of_timeline_id (t v : Z) (clk : Clock) :
  moveTarget clk = v -> endTime clk = v ->
  set_endTime v (set_moveTarget v (set_moveTarget t clk)) = clk.
Proof. destruct clk. cbn. intros -> ->. reflexivity. Qed.

(** *** The end of a call to [move] *)

Variable orc : Oracle.

Lemma atEnd_move (t v : Z) (manage : bool) (clk : Clock) (w : World) :
  atEnd t v clk w -> move orc t manage clk w = Ok (v, clk) w.
Proof.
  intros [(-> & Hc & Hm) | (Hv & Hc & Hm & He & H0 & Hdir & Hnext)];
    unfold move; unfold bindT at 1; unfold setClock;
    unfold bindT at 1; unfold getClock; cbn [currentTime set_moveTarget].
  - rewrite Hc, Z.eqb_refl. unfold retT.
    rewrite (set_moveTarget_id t clk Hm). reflexivity.
  - set (clk1 := set_moveTarget t clk).
    rewrite Hc. destruct (t =? v) eqn:Htv; zbool; [congruence|].
    unfold moveFuel. cbn [moveLoop].
    unfold bindT at 1. unfold getClock.
    change (moveTarget clk1) with t.
    destruct (v =? t) eqn:Hvt; zbool; [congruence|].
    unfold bindT at 1. unfold findNextTarget.
    destruct (v <? 0) eqn:Hneg; zbool; [lia|].
    unfold bindT at 1. unfold getClock.
    change (lastTargetForward clk1) with (lastTargetForward clk).
    assert (Hwhen :
      whenT (negb (Bool.eqb (v <? t) (lastTargetForward clk)))
        (marker <~ liftE (getMarker v) ;;
         match marker with
         | Some _ =>
             displayFrame v t (v <? t) ;;~ liftE (exhaustAsyncPipe orc)
         | None => retT tt
         end) clk1 w = Ok (tt, clk1) w).
    { destruct Hdir as [Hdir | Hdir].
      - rewrite Hdir, eqb_reflx. reflexivity.
      - destruct (negb (Bool.eqb (v <? t) (lastTargetForward clk)));
          [|reflexivity].
        unfold whenT, bindT, liftE.
        rewrite (getMarker_clock v clk1 clk w), Hdir. reflexivity. }
    unfold bindT at 1. rewrite Hwhen.
    unfold bindT at 1. unfold liftE.
    rewrite (getNextMarkerPosition_clock v (v <? t) clk clk1 w eq_refl), Hnext.
    cbn [Z.ltb Z.compare orb].
    unfold bindT, setClock, retT.
    unfold clk1. rewrite (end_of_timeline_id t v clk Hm He). reflexivity.
Qed.

Lemma redisplay_spec (t : Z) (forward : bool) (cur : Z) (clk clk' : Clock)
    (w w' : World) (u : unit) :
  redisplay orc t forward cur clk w = Ok (u, clk') w' ->
  cur = currentTime clk ->
  currentTime clk' = cur /\ moveTarget clk' = moveTarget clk
  /\ startTime clk' = startTime clk
  /\ (lastTargetForward clk' = forward
      \/ (clk' = clk /\ w' = w /\ getMarker cur clk w = Ok None w)).
Proof.
  unfold redisplay. intros H Hcur.
  apply bindT_Ok in H. destruct H as (marker & clk1 & w1 & H1 & H2).
  apply liftE_Ok in H1. destruct H1 as [-> H1].
  pose proof (getMarker_pure _ _ _ _ _ H1) as ->.
  destruct marker as [mk|].
  - apply bindT_Ok in H2. destruct H2 as ([] & clk2 & w2 & H2 & H3).
    apply displayFrame_clock in H2. subst clk2.
    apply liftE_Ok in H3. destruct H3 as [-> _].
    splits; [reflexivity | reflexivity | reflexivity | left; reflexivity].
  - unfold retT in H2. injection H2 as _ <- <-.
    splits; [symmetry; exact Hcur | reflexivity | reflexivity | right; auto].
Qed.

Lemma findNextTarget_spec (t : Z) (forward : bool) (cur : Z)
    (clk clk' : Clock) (w w' : World) (step : Step) :
  findNextTarget orc t forward cur clk w = Ok (step, clk') w' ->
  cur = currentTime clk -> moveTarget clk = t -> cur <> t ->
  (cur <? t) = forward ->
  clockOk clk ->
  clockOk clk'
  /\ match step with
     | Return v => atEnd t v clk' w'
     | Continue nextTarget =>
         moveTarget clk' = t /\ 0 <= nextTarget
         /\ (nextTarget = t \/ (nextTarget <? t) = forward)
         /\ turns nextTarget t < turns cur t
     end.
Proof.
  unfold findNextTarget, clockOk, turns.
  intros H Hcur Hm Hne Hfwd [Hge Hstart].
  destruct (cur <? 0) eqn:Hlt; zbool.
  - (* nothing displayed yet *)
    assert (cur = -1) as -> by lia.
    apply bindT_Ok in H. destruct H as (c0 & clk1 & w1 & H1 & H).
    unfold getClock in H1. injection H1 as <- <- <-.
    apply bindT_Ok in H. destruct H as ([] & clk2 & w2 & H1 & H).
    apply bindT_Ok in H. destruct H as (c2 & clk3 & w3 & H2 & H).
    unfold getClock in H2. injection H2 as <- <- <-.
    unfold retT in H. injection H as <- <- <-.
    assert (Hc2 : startTime clk2 = 0 /\ moveTarget clk2 = t
                  /\ currentTime clk2 = currentTime clk).
    { unfold whenT in H1. destruct (startTime clk <? 0) eqn:Hs; zbool.
      - unfold setClock in H1. injection H1 as <- _.
        splits; [reflexivity | exact Hm | reflexivity].
      - unfold retT in H1. injection H1 as <- _.
        splits; [lia | exact Hm | reflexivity]. }
    destruct Hc2 as (Hs2 & Hm2 & Hc2). rewrite Hs2.
    splits; [lia | lia | exact Hm2 | lia | |].
    + destruct (Z.eq_dec 0 t) as [|Hz]; [left; assumption | right].
      subst forward. lia.
    + cbn [Z.ltb Z.compare]. break_ifs; zbool; lia.
  - apply bindT_Ok in H. destruct H as (c0 & clk1 & w1 & H1 & H).
    unfold getClock in H1. injection H1 as <- <- <-.
    apply bindT_Ok in H. destruct H as ([] & clk2 & w2 & H1 & H).
    assert (Hre : currentTime clk2 = cur /\ moveTarget clk2 = t
                  /\ startTime clk2 = startTime clk
                  /\ (lastTargetForward clk2 = forward
                      \/ (clk2 = clk /\ w2 = w
                          /\ getMarker cur clk w = Ok None w))).
    { unfold whenT in H1.
      destruct (negb (Bool.eqb forward (lastTargetForward clk))) eqn:Hd.
      - destruct (redisplay_spec _ _ _ _ _ _ _ _ H1 Hcur) as (? & ? & ? & ?).
        splits; [assumption | congruence | assumption | assumption].
      - unfold retT in H1. injection H1 as <- <-.
        apply negb_false_iff, eqb_prop in Hd.
        splits; [symmetry; exact Hcur | exact Hm | reflexivity |].
        left. symmetry. exact Hd. }
    destruct Hre as (Hc2 & Hm2 & Hs2 & Hdir).
    apply bindT_Ok in H. destruct H as (n & clk3 & w3 & H2 & H).
    apply liftE_Ok in H2. destruct H2 as [-> H2].
    pose proof (getNextMarkerPosition_result _ _ _ _ _ _ H2
                  (eq_sym Hc2)) as Hres.
    destruct ((n <? 0) || (n =? cur)) eqn:Hend.
    + (* the end of the time line *)
      apply bindT_Ok in H. destruct H as ([] & clk4 & w4 & H3 & H).
      unfold setClock in H3. injection H3 as <- <-.
      unfold retT in H. injection H as <- <- <-.
      assert (Hn : n = -1 /\ w3 = w2).
      { destruct Hres as [Hres | Hres]; [exact Hres|].
        destruct forward; lia. }
      destruct Hn as [-> ->].
      cbn [currentTime startTime moveTarget endTime set_endTime
           set_moveTarget].
      splits; [lia | lia |].
      right. cbn [currentTime moveTarget endTime set_endTime set_moveTarget].
      rewrite Hfwd.
      splits; try reflexivity; try assumption.
      * destruct Hdir as [Hdir | (-> & -> & Hdir)].
        -- left. exact Hdir.
        -- right. rewrite <- Hdir. apply getMarker_clock.
      * rewrite <- H2. apply getNextMarkerPosition_clock. reflexivity.
    + assert (Hn : 0 <= n /\ n <> cur) by lia.
      destruct forward.
      * unfold retT in H. injection H as <- <- <-.
        splits; [lia | lia | exact Hm2 | destruct (t <? n) eqn:?; lia | |].
        -- destruct (t <? n) eqn:Htn; [left; reflexivity|].
           destruct (Z.eq_dec n t); [left; assumption | right]. lia.
        -- destruct Hres as [[Hres _] | Hres]; [lia|].
           destruct (t <? n) eqn:Htn; zbool; break_ifs; zbool; lia.
      * unfold retT in H. injection H as <- <- <-.
        splits; [lia | lia | exact Hm2 | destruct (n <? t) eqn:?; lia | |].
        -- destruct (n <? t) eqn:Htn; [left; reflexivity|].
           destruct (Z.eq_dec n t); [left; assumption | right]. lia.
        -- destruct Hres as [[Hres _] | Hres]; [lia|].
           destruct (n <? t) eqn:Htn; zbool; break_ifs; zbool; lia.
Qed.

Lemma moveLoop_atEnd (fuel : nat) (t : Z) (forward manage : bool) (cur v : Z)
    (clk clk' : Clock) (w w' : World) :
  moveLoop orc fuel t forward manage cur clk w = Ok (v, clk') w' ->
  cur = currentTime clk -> moveTarget clk = t ->
  (cur = t \/ (cur <? t) = forward) ->
  clockOk clk ->
  clockOk clk' /\ atEnd t v clk' w'.
Proof.
  revert cur clk w.
  induction fuel as [|fuel IH]; intros cur clk w H Hcur Hm Hdir Hok.
  - cbn [moveLoop] in H.
    apply bindT_Ok in H. destruct H as (c0 & clk1 & w1 & H1 & H).
    unfold getClock in H1. injection H1 as <- <- <-.
    destruct (cur =? moveTarget clk) eqn:He; zbool; [|discriminate H].
    unfold retT in H. injection H as <- <- <-.
    split; [exact Hok|]. left. splits; congruence.
  - cbn [moveLoop] in H.
    apply bindT_Ok in H. destruct H as (c0 & clk1 & w1 & H1 & H).
    unfold getClock in H1. injection H1 as <- <- <-.
    destruct (cur =? moveTarget clk) eqn:He; zbool.
    + unfold retT in H. injection H as <- <- <-.
      split; [exact Hok|]. left. splits; congruence.
    + destruct Hdir as [Hdir | Hfwd]; [congruence|].
      apply bindT_Ok in H. destruct H as (step & clk1 & w1 & H1 & H).
      destruct (findNextTarget_spec _ _ _ _ _ _ _ _ H1 Hcur Hm
                  ltac:(congruence) Hfwd Hok) as [Hok1 Hstep].
      destruct step as [nextTarget | value].
      * destruct Hstep as (Hm1 & Hpos & Hnext & _).
        apply bindT_Ok in H. destruct H as ([] & clk2 & w2 & H2 & H).
        apply displayFrame_clock in H2. subst clk2.
        apply bindT_Ok in H. destruct H as ([] & clk3 & w3 & H3 & H).
        assert (Hclk3 : clk3 = clockAfterFrame nextTarget t forward clk1).
        { unfold whenT in H3. destruct manage.
          - apply liftE_Ok in H3. destruct H3 as [-> _]. reflexivity.
          - unfold retT in H3. injection H3 as <- _. reflexivity. }
        subst clk3.
        apply bindT_Ok in H. destruct H as (c4 & clk4 & w4 & H4 & H).
        unfold getClock in H4. injection H4 as <- <- <-.
        apply (IH _ _ _ H); [reflexivity | exact Hm1 | exact Hnext |].
        destruct Hok1 as [_ Hs1]. unfold clockOk.
        cbn [currentTime startTime clockAfterFrame set_lastTargetForward
             set_lastTargetTime set_currentTime].
        lia.
      * unfold retT in H. injection H as <- <- <-. split; assumption.
Qed.

(** *** The fuel of the loop *)

Lemma bindT_ext {A B : Type} (m : T A) (k1 k2 : A -> T B) (clk : Clock)
    (w : World) :
  (forall a clk' w', m clk w = Ok (a, clk') w' -> k1 a clk' w' = k2 a clk' w') ->
  bindT m k1 clk w = bindT m k2 clk w.
Proof.
  intros H. unfold bindT.
  destruct (m clk w) as [[a clk'] w'| | |]; try reflexivity.
  apply H. reflexivity.
Qed.

Lemma moveLoop_eq (fuel : nat) (t : Z) (forward manage : bool) (cur : Z)
    (clk : Clock) (w : World) :
  moveLoop orc fuel t forward manage cur clk w
  = if cur =? moveTarget clk then Ok (currentTime clk, clk) w
    else match fuel with
         | O => Diverge
         | S fuel' =>
             (step <~ findNextTarget orc t forward cur ;;
              match step with
              | Return value => retT value
              | Continue nextTarget =>
                  displayFrame nextTarget t forward ;;~
                  whenT manage (liftE (exhaustAsyncPipe orc)) ;;~
                  clk <~ getClock ;;
                  moveLoop orc fuel' t forward manage (currentTime clk)
              end) clk w
         end.
Proof.
  destruct fuel; cbn [moveLoop]; unfold bindT at 1; unfold getClock;
    destruct (cur =? moveTarget clk); reflexivity.
Qed.

(** Beyond the bound [turns], the fuel given to the loop of [move] does not
    change what it computes: the loop never stops for lack of fuel. *)
Lemma moveLoop_fuel (fuel1 fuel2 : nat) (t : Z) (forward manage : bool)
    (cur : Z) (clk : Clock) (w : World) :
  cur = currentTime clk -> moveTarget clk = t ->
  (cur = t \/ (cur <? t) = forward) ->
  clockOk clk ->
  turns cur t <= Z.of_nat fuel1 -> turns cur t <= Z.of_nat fuel2 ->
  moveLoop orc fuel1 t forward manage cur clk w
  = moveLoop orc fuel2 t forward manage cur clk w.
Proof.
  revert fuel2 cur clk w.
  induction fuel1 as [|fuel1 IH]; intros fuel2 cur clk w Hcur Hm Hdir Hok H1 H2.
  - destruct fuel2 as [|fuel2]; [reflexivity|].
    rewrite !moveLoop_eq.
    destruct (cur =? moveTarget clk) eqn:He; zbool; [reflexivity|].
    exfalso. destruct Hok as [Hge _]. unfold turns in H1.
    revert H1. break_ifs; zbool; lia.
  - destruct fuel2 as [|fuel2].
    + rewrite !moveLoop_eq.
      destruct (cur =? moveTarget clk) eqn:He; zbool; [reflexivity|].
      exfalso. destruct Hok as [Hge _]. unfold turns in H2.
      revert H2. break_ifs; zbool; lia.
    + rewrite (moveLoop_eq (S fuel1)), (moveLoop_eq (S fuel2)).
      destruct (cur =? moveTarget clk) eqn:He; zbool; [reflexivity|].
      destruct Hdir as [Hdir | Hfwd]; [congruence|].
      apply bindT_ext. intros step clk1 w1 Hstep.
      destruct (findNextTarget_spec _ _ _ _ _ _ _ _ Hstep Hcur Hm
                  ltac:(congruence) Hfwd Hok) as [Hok1 Hspec].
      destruct step as [nextTarget | value]; [|reflexivity].
      destruct Hspec as (Hm1 & Hpos & Hnext & Hturns).
      apply bindT_ext. intros [] clk2 w2 Hframe.
      apply displayFrame_clock in Hframe. subst clk2.
      apply bindT_ext. intros [] clk3 w3 Hpipe.
      assert (Hclk3 : clk3 = clockAfterFrame nextTarget t forward clk1).
      { unfold whenT in Hpipe. destruct manage.
        - apply liftE_Ok in Hpipe. destruct Hpipe as [-> _]. reflexivity.
        - unfold retT in Hpipe. injection Hpipe as <- _. reflexivity. }
      subst clk3. unfold bindT, getClock.
      apply IH; [reflexivity | exact Hm1 | exact Hnext | | |].
      * destruct Hok1 as [_ Hs1]. unfold clockOk.
        cbn [currentTime startTime clockAfterFrame set_lastTargetForward
             set_lastTargetTime set_currentTime].
        lia.
      * cbn [currentTime clockAfterFrame set_lastTargetForward
             set_lastTargetTime set_currentTime]. lia.
      * cbn [currentTime clockAfterFrame set_lastTargetForward
             set_lastTargetTime set_currentTime]. lia.
Qed.

Lemma move_on_target (t : Z) (manage : bool) (clk : Clock) (w : World) :
  currentTime clk = t ->
  move orc t manage clk w = Ok (t, set_moveTarget t clk) w.
Proof.
  intros Hc. unfold move, bindT, setClock, getClock.
  cbn [currentTime set_moveTarget]. rewrite Hc, Z.eqb_refl. reflexivity.
Qed.

Lemma move_off_target (t : Z) (manage : bool) (clk : Clock) (w : World) :
  currentTime clk <> t ->
  move orc t manage clk w
  = moveLoop orc (moveFuel t (set_moveTarget t clk)) t (currentTime clk <? t)
             manage (currentTime clk) (set_moveTarget t clk) w.
Proof.
  intros Hc. unfold move, bindT, setClock, getClock.
  cbn [currentTime set_moveTarget].
  destruct (t =? currentTime clk) eqn:He; zbool; [congruence | reflexivity].
Qed.

(** The fuel [move] gives its loop is enough: any larger fuel computes the
    same outcome. *)
Lemma moveFuel_enough (fuel : nat) (t : Z) (manage : bool) (clk : Clock)
    (w : World) :
  clockOk clk -> currentTime clk <> t ->
  (moveFuel t clk <= fuel)%nat ->
  moveLoop orc fuel t (currentTime clk <? t) manage (currentTime clk)
           (set_moveTarget t clk) w
  = move orc t manage clk w.
Proof.
  intros Hok Hne Hfuel. rewrite (move_off_target t manage clk w Hne).
  assert (Hturns : turns (currentTime clk) t
                   <= Z.of_nat (moveFuel t clk)).
  { unfold turns, moveFuel. destruct Hok as [Hge _].
    break_ifs; zbool; lia. }
  apply moveLoop_fuel;
    [ reflexivity | reflexivity | right; reflexivity | exact Hok | lia
    | exact Hturns ].
Qed.

Lemma move_atEnd (t : Z) (manage : bool) (clk clk1 : Clock) (w w1 : World)
    (v : Z) :
  clockOk clk ->
  move orc t manage clk w = Ok (v, clk1) w1 ->
  clockOk clk1 /\ atEnd t v clk1 w1.
Proof.
  intros Hok H.
  destruct (Z.eq_dec (currentTime clk) t) as [Heq | Hne].
  - rewrite (move_on_target t manage clk w Heq) in H.
    injection H as <- <- <-.
    split; [exact Hok|]. left. splits; [reflexivity | exact Heq |].
    reflexivity.
  - rewrite (move_off_target t manage clk w Hne) in H.
    apply (moveLoop_atEnd _ _ _ _ _ _ _ _ _ _ H);
      [reflexivity | reflexivity | right; reflexivity | exact Hok].
Qed.

End Seek.

Lemma reachable_clockOk (clk : TimeLine.Clock) (w : TimeLine.World) :
  reachable clk w -> clockOk clk.
Proof.
  induction 1 as [ctxt fn | clk w cb _ IH | orc t manage clk clk' w w' v _ IH H
                  | orc clk w w' _ IH _].
  - unfold clockOk. cbn. lia.
  - exact IH.
  - apply (move_atEnd orc t manage clk clk' w w' v IH H).
  - exact IH.
Qed.



(** A program that never settles: every drain of the pipe runs its hundred
    turns, and [move] ends with the error. *)
Example move_busy_throws :
  exists w',
    TimeLine.move busy 100 true TimeLine.newClock oneTween
    = TimeLine.Throw "Max async loop reached" w'.
Proof.
  destruct (TimeLine.move busy 100 true TimeLine.newClock oneTween)
    as [r w'|msg w'| |] eqn:E;
    try (vm_compute in E; discriminate E).
  exists w'. f_equal.
  pose proof E as E'. vm_compute in E'. injection E' as Hmsg _.
  symmetry. exact Hmsg.
Qed.

(** * Further properties of the code *)

(** ** Entities *)

Section EntityTiming.
Import TimelineEntity.

Lemma init_fields (e : t) (start : Z) :
  let d := if delay e <? 0 then 0 else delay e in
  let doneT := start + d + duration e in
  let clamp := doneT + release e <? start + d in
  let relT := if clamp then start + d else doneT + release e in
  init start e
  = if 0 <=? duration e then
      mk (kind e) (isRunning e) (startRegistered e) (endRegistered e)
         (released e) (done e) (parent e) d
         (if clamp then - duration e else release e) (duration e) start
         (start + d) relT doneT (if doneT <? relT then relT else doneT)
         (releaseCb e) (nextEntity e)
    else
      mk (kind e) (isRunning e) (startRegistered e) (endRegistered e)
         (released e) (done e) (parent e) d (release e) (duration e) start
         (start + d) (releaseTime e) (doneTime e) (endTime e)
         (releaseCb e) (nextEntity e).
Proof.
  destruct e. cbv - [Z.add Z.ltb Z.leb Z.opp].
  repeat match goal with
         | |- context [if ?c then _ else _] => destruct c eqn:?
         end; try reflexivity; try discriminate; zbool; lia.
Qed.

(** X1. [init] run again, at the same or at another start time, gives what one
    [init] at the later start time gives: the clamps of [delay] and
    [release] it applied the first time are stable. *)
Theorem init_again (e : t) (start start' : Z) :
  init start' (init start e) = init start' e.
Proof.
  rewrite (init_fields (init start e) start'), (init_fields e start').
  rewrite (init_fields e start). cbv zeta.
  destruct (0 <=? duration e) eqn:Hd; cbn [delay release duration kind
    isRunning startRegistered endRegistered released done parent startTime
    delayTime releaseTime doneTime endTime releaseCb nextEntity];
    rewrite ?Hd.
  - destruct (delay e <? 0) eqn:H1; cbn [Z.ltb Z.compare];
      destruct (start + _ + duration e + release e <? start + _) eqn:H2;
      repeat match goal with
             | |- context [if ?c then _ else _] => destruct c eqn:?
             end; zbool; try lia; f_equal; lia.
  - destruct (delay e <? 0) eqn:H1; cbn [Z.ltb Z.compare]; rewrite ?H1;
      reflexivity.
Qed.


(** X4. The progression a tween group commits for a frame lies between [0]
    and its duration, and such a frame lies between [delayTime] and
    [doneTime]. *)
Theorem progression_bounds (e : t) (start time targetTime : Z) (forward : bool) (p : Z) :
  0 <= duration e ->
  let e' := init start e in
  progression e' time targetTime forward = Some p ->
  0 <= p <= duration e'
  /\ delayTime e' <= time <= doneTime e'.
Proof.
  intros Hd e' H.
  assert (Hdone : doneTime e' = delayTime e' + duration e').
  { subst e'. unfold init. cbn. break_ifs; zbool; lia. }
  assert (Hdur : duration e' = duration e) by apply init_duration.
  clearbody e'. unfold progression in H.
  revert H. break_ifs; intros H; try discriminate H; injection H as <-;
    zbool; lia.
Qed.

(** X5. A forward move that reaches or passes [doneTime] commits the final
    state (the whole duration) on the frame at [doneTime]; a backward move
    that reaches or passes [delayTime] commits the initial state on the
    frame at [delayTime]. *)
Theorem progression_ends (e : t) (start targetTime : Z) :
  0 <= duration e ->
  let e' := init start e in
  (doneTime e' <= targetTime ->
   progression e' (doneTime e') targetTime true = Some (duration e'))
  /\ (targetTime <= delayTime e' ->
      progression e' (delayTime e') targetTime false = Some 0).
Proof.
  intros Hd e'.
  assert (Hdone : doneTime e' = delayTime e' + duration e').
  { subst e'. unfold init. cbn. break_ifs; zbool; lia. }
  assert (Hdur : duration e' = duration e) by apply init_duration.
  clearbody e'. unfold progression. split; intros H.
  - break_ifs; zbool; try lia; f_equal; lia.
  - break_ifs; zbool; try lia; f_equal; lia.
Qed.

End EntityTiming.

Section EntityRelease.
Import TimelineEntity.

Lemma firedOver_consumed (times : list Z) (e : t) :
  releaseCb e = None -> firedOver times e = [].
Proof.
  revert e. induction times as [|time rest IH]; intros e He; [reflexivity|].
  cbn [firedOver]. unfold markReleased, markDone.
  destruct (time =? doneTime e); cbn;
    destruct (time =? releaseTime e); cbn; rewrite ?He; cbn;
    apply IH; cbn; assumption.
Qed.

(** X3. Whatever the sequence of frames, [checkDoneAndRelease] calls the
    release callback of an entity at most once, and it is the callback the
    entity held; it calls it exactly when a callback is held and a frame
    falls on [releaseTime]. *)
Theorem release_fires_once (times : list Z) (e : t) :
  (length (firedOver times e) <= 1)%nat
  /\ (forall cb, In cb (firedOver times e) -> releaseCb e = Some cb)
  /\ (firedOver times e <> [] <-> releaseCb e <> None /\ In (releaseTime e) times).
Proof.
  revert e. induction times as [|time rest IH]; intros e.
  - cbn. split; [lia|]. split; [tauto|]. split; [congruence | tauto].
  - cbn [firedOver].
    assert (Hd : forall x, releaseCb (markDone x e) = releaseCb e
                           /\ releaseTime (markDone x e) = releaseTime e).
    { intros x. unfold markDone. destruct (x =? doneTime e); split; reflexivity. }
    destruct (Hd time) as [Hcb Hrt].
    unfold markReleased. rewrite Hrt.
    destruct (time =? releaseTime e) eqn:Ht; zbool.
    + cbn [releaseCb set_released]. rewrite Hcb.
      destruct (releaseCb e) as [cb|] eqn:Ecb; cbn [fst snd].
      * rewrite firedOver_consumed by reflexivity. cbn.
        split; [lia|]. split; [intros ? [<-|[]]; reflexivity|].
        split; [intros _; split; [discriminate | left; first [assumption | reflexivity | symmetry; assumption]] | discriminate].
      * rewrite firedOver_consumed by (cbn; rewrite Hcb; reflexivity).
        cbn. split; [lia|]. split; [tauto|]. split; [congruence|].
        intros [Hn _]. congruence.
    + cbn [fst snd]. destruct (IH (markDone time e)) as (H1 & H2 & H3).
      rewrite Hcb, Hrt in *. split; [exact H1|]. split; [exact H2|].
      rewrite H3. cbn. split; [tauto|]. intros [? [?|?]]; [congruence | tauto].
Qed.

End EntityRelease.

(** ** Nested players *)

Section PlayerMore.
Import PlayerEntity.

Lemma Math_trunc_nonneg (q : Q) :
  (0 <= q)%Q -> 0 <= JS.Math_trunc q /\ (inject_Z (JS.Math_trunc q) <= q)%Q.
Proof.
  intros Hq. unfold JS.Math_trunc.
  assert (Hn : 0 <= Qnum q).
  { unfold Qle in Hq. cbn in Hq. lia. }
  rewrite Z.quot_div_nonneg by lia.
  split; [apply Z.div_pos; lia|].
  destruct q as [n d]. apply (Qfloor_le (n # d)).
Qed.

Lemma scaled_le (a b : Z) (s D : Q) :
  0 <= a <= b -> (0 < s)%Q -> (inject_Z b * s <= D)%Q ->
  (0 <= inject_Z a * s <= D)%Q.
Proof.
  intros [Ha Hab] Hs Hb. split.
  - apply Qmult_le_0_compat; [|apply Qlt_le_weak; assumption].
    change (inject_Z 0 <= inject_Z a)%Q. rewrite <- Zle_Qle. exact Ha.
  - apply Qle_trans with (inject_Z b * s)%Q; [|exact Hb].
    apply Qmult_le_compat_r; [|apply Qlt_le_weak; assumption].
    rewrite <- Zle_Qle. exact Hab.
Qed.

Lemma trunc_div_le (D : Z) (s : Q) :
  0 <= D -> (0 < s)%Q ->
  0 <= JS.Math_trunc (inject_Z D / s)
  /\ (inject_Z (JS.Math_trunc (inject_Z D / s)) * s <= inject_Z D)%Q.
Proof.
  intros HD Hs.
  assert (Hq : (0 <= inject_Z D / s)%Q).
  { apply Qle_shift_div_l; [assumption|]. rewrite Qmult_0_l.
    change (inject_Z 0 <= inject_Z D)%Q. rewrite <- Zle_Qle. exact HD. }
  destruct (Math_trunc_nonneg _ Hq) as [H0 Hle]. split; [exact H0|].
  apply Qle_trans with (inject_Z D / s * s)%Q.
  - apply Qmult_le_compat_r; [exact Hle | apply Qlt_le_weak; assumption].
  - rewrite Qmult_comm, Qmult_div_r; [apply Qle_refl|].
    intros H. rewrite H in Hs. discriminate Hs.
Qed.

Lemma childSeek_range (p : t) (D : Q) (time : Z) (x : Q) :
  (0 < speed p)%Q -> (0 < backSpeed p)%Q ->
  0 <= d1 p -> (inject_Z (d1 p) * speed p <= D)%Q ->
  0 <= d2 p -> (0 < d2 p -> (inject_Z (d2 p) * backSpeed p <= D)%Q) ->
  0 <= TimelineEntity.duration (base p) ->
  childSeek p time = Some (MoveTo x) ->
  (0 <= x <= D)%Q
  /\ TimelineEntity.delayTime (base p) <= time
     <= TimelineEntity.doneTime (base p).
Proof.
  intros Hs Hbs H1a H1b H2c H2d Hdur0 H.
  unfold childSeek in H.
  set (start := TimelineEntity.delayTime (base p)) in *.
  destruct (start <=? time) eqn:E1; zbool; [|discriminate H].
  destruct (TimelineEntity.duration (base p) =? -1) eqn:E2; zbool; [lia|].
  cbn [andb] in H.
  destruct (time <=? TimelineEntity.doneTime (base p)) eqn:E3; zbool;
    [|discriminate H].
  split; [|lia].
  destruct (d1 p + d2 p =? 0) eqn:E4; zbool; [discriminate H|].
  set (cl := d1 p + d2 p) in *.
  assert (Hcl : 0 < cl) by (unfold cl; lia).
  pose proof (Z.rem_bound_pos (time - start) cl ltac:(lia) Hcl) as Hrem.
  set (t := if (Z.rem (time - start) cl =? 0) && negb (time =? start)
            then cl else Z.rem (time - start) cl) in *.
  assert (Htb : 0 <= t <= cl).
  { unfold t. destruct ((Z.rem (time - start) cl =? 0) && negb (time =? start)); lia. }
  clearbody t.
  destruct (t <=? d1 p) eqn:E5; zbool; injection H as <-.
  - apply scaled_le with (b := d1 p); [lia | assumption | assumption].
  - apply scaled_le with (b := d2 p); [unfold cl; lia | assumption |].
    apply H2d. unfold cl in *. lia.
Qed.


Lemma childSeek_NaN (p : t) :
  TimelineEntity.duration (base p) = 0 ->
  TimelineEntity.doneTime (base p) = TimelineEntity.delayTime (base p) ->
  d1 p + d2 p = 0 ->
  childSeek p (TimelineEntity.delayTime (base p)) = Some MoveNaN.
Proof.
  intros Hdur Hdone Hc. unfold childSeek. rewrite Hdur, Hdone, Hc.
  rewrite Z.leb_refl. reflexivity.
Qed.

(** X8. When the two legs of a cycle truncate to [0] (the wrapped timeline is
    shorter than the speed), the frame at [delayTime] moves the wrapped
    timeline to [NaN]: [%] by the cycle length [0] has no result. *)
Theorem childSeek_empty_cycle (p : t) (tlDuration : Z) :
  ~ speed p == 0 -> ~ backSpeed p == 0 ->
  d1 (doneCb tlDuration p) + d2 (doneCb tlDuration p) = 0 ->
  childSeek (doneCb tlDuration p)
            (TimelineEntity.delayTime (base (doneCb tlDuration p)))
  = Some MoveNaN.
Proof.
  intros _ _ Hc.
  pose proof (doneCb_fields p tlDuration) as F. cbv zeta in F.
  destruct F as (_ & _ & Hdur & _ & Hdone).
  rewrite Hc in Hdur. rewrite Z.mul_0_l in Hdur.
  rewrite Hdur in Hdone. specialize (Hdone ltac:(lia)).
  apply childSeek_NaN; [exact Hdur | lia | exact Hc].
Qed.

End PlayerMore.

(** ** Markers *)

Section Markers.
Import TimeLine.

Lemma insertAfter_eq (time : Z) (cur : MarkerId) (cm : AnimMarker.t)
    (clk : Clock) (w : World) :
  markers w !! cur = Some cm ->
  insertAfter time cur clk w
  = Ok (length (markers w)) (afterInsert true time cur cm w).
Proof.
  intros Hc.
  assert (Hlt : (cur < length (markers w))%nat)
    by (apply lookup_lt_is_Some; eauto).
  unfold insertAfter, allocMarker, updMarker, getMarkerObj, bind, get, modify,
    ret, when.
  rewrite Hc. cbn.
  match goal with
  | |- context [(markers w ++ ?l) !! cur] =>
      assert (Hl : (markers w ++ l) !! cur = Some cm)
        by (rewrite lookup_app_l by exact Hlt; exact Hc);
      rewrite Hl
  end. cbn.
  unfold afterInsert. cbn.
  destruct (sameRef (lastMarker w) cur); reflexivity.
Qed.

Lemma insertBefore_eq (time : Z) (cur : MarkerId) (cm : AnimMarker.t)
    (clk : Clock) (w : World) :
  markers w !! cur = Some cm ->
  insertBefore time cur clk w
  = Ok (length (markers w)) (afterInsert false time cur cm w).
Proof.
  intros Hc.
  assert (Hlt : (cur < length (markers w))%nat)
    by (apply lookup_lt_is_Some; eauto).
  unfold insertBefore, allocMarker, updMarker, getMarkerObj, bind, get, modify,
    ret, when.
  rewrite Hc. cbn.
  match goal with
  | |- context [(markers w ++ ?l) !! cur] =>
      assert (Hl : (markers w ++ l) !! cur = Some cm)
        by (rewrite lookup_app_l by exact Hlt; exact Hc);
      rewrite Hl
  end. cbn.
  unfold afterInsert. cbn.
  destruct (sameRef (firstMarker w) cur); reflexivity.
Qed.

Lemma afterInsert_markers (after : bool) (time : Z) (cur : MarkerId)
    (cm : AnimMarker.t) (w : World) :
  markers (afterInsert after time cur cm w)
  = <[cur := if after then AnimMarker.set_next (Some (length (markers w))) cm
             else AnimMarker.set_prev (Some (length (markers w))) cm]>
      (markers w ++ [if after
                     then AnimMarker.create time (Some cur) (AnimMarker.next cm)
                     else AnimMarker.create time (AnimMarker.prev cm) (Some cur)]).
Proof.
  unfold afterInsert. destruct after; cbn;
    [destruct (sameRef (lastMarker w) cur)
    |destruct (sameRef (firstMarker w) cur)]; reflexivity.
Qed.

Lemma afterInsert_fields (after : bool) (time : Z) (cur : MarkerId)
    (cm : AnimMarker.t) (w : World) :
  currentMarker (afterInsert after time cur cm w) = Some (length (markers w))
  /\ (firstMarker w <> None -> firstMarker (afterInsert after time cur cm w) <> None)
  /\ entities (afterInsert after time cur cm w) = entities w
  /\ rList (afterInsert after time cur cm w) = rList w
  /\ rListEnd (afterInsert after time cur cm w) = rListEnd w
  /\ ASYNC_COUNTER (afterInsert after time cur cm w) = ASYNC_COUNTER w
  /\ console (afterInsert after time cur cm w) = console w.
Proof.
  unfold afterInsert. destruct after; cbn;
    [destruct (sameRef (lastMarker w) cur)
    |destruct (sameRef (firstMarker w) cur)]; cbn; repeat split; auto;
    discriminate.
Qed.

Lemma afterInsert_new (after : bool) (time : Z) (cur : MarkerId)
    (cm : AnimMarker.t) (w : World) :
  markers w !! cur = Some cm ->
  exists mm, markers (afterInsert after time cur cm w) !! length (markers w) = Some mm
             /\ AnimMarker.time mm = time.
Proof.
  intros Hc.
  assert (Hlt : (cur < length (markers w))%nat)
    by (apply lookup_lt_is_Some; eauto).
  rewrite afterInsert_markers.
  rewrite list_lookup_insert_ne by lia.
  rewrite lookup_app_r by lia. rewrite Nat.sub_diag. cbn.
  destruct after; eexists; split; reflexivity.
Qed.

Lemma createMarkerFrom_eq (fuel : nat) (time : Z) (cur : MarkerId)
    (clk : Clock) (w : World) :
  createMarkerFrom (S fuel) time cur clk w
  = match markers w !! cur with
    | None => Stuck
    | Some cm =>
        if AnimMarker.time cm =? time then Ok cur w
        else if AnimMarker.time cm <? time then
          match AnimMarker.next cm with
          | Some nx =>
              match markers w !! nx with
              | None => Stuck
              | Some m =>
                  if AnimMarker.time m <=? time
                  then createMarkerFrom fuel time nx clk w
                  else insertAfter time cur clk w
              end
          | None => insertAfter time cur clk w
          end
        else
          match AnimMarker.prev cm with
          | Some pv =>
              match markers w !! pv with
              | None => Stuck
              | Some m =>
                  if time <=? AnimMarker.time m
                  then createMarkerFrom fuel time pv clk w
                  else insertBefore time cur clk w
              end
          | None => insertBefore time cur clk w
          end
    end.
Proof.
  cbn [createMarkerFrom]. unfold bind at 1. rewrite getMarkerObj_eq.
  destruct (markers w !! cur) as [cm|]; [|reflexivity].
  destruct (AnimMarker.time cm =? time); [reflexivity|].
  destruct (AnimMarker.time cm <? time).
  - destruct (AnimMarker.next cm) as [nx|]; [|reflexivity].
    unfold bind. rewrite getMarkerObj_eq.
    destruct (markers w !! nx) as [m|]; [|reflexivity].
    destruct (AnimMarker.time m <=? time); reflexivity.
  - destruct (AnimMarker.prev cm) as [pv|]; [|reflexivity].
    unfold bind. rewrite getMarkerObj_eq.
    destruct (markers w !! pv) as [m|]; [|reflexivity].
    destruct (time <=? AnimMarker.time m); reflexivity.
Qed.

Lemma getMarkerFrom_eq (fuel : nat) (time : Z) (forward : bool)
    (c : MarkerId) (clk : Clock) (w : World) :
  getMarkerFrom (S fuel) time forward (Some c) clk w
  = match markers w !! c with
    | None => Stuck
    | Some m =>
        if AnimMarker.time m =? time then Ok (Some c) w
        else if forward && (AnimMarker.time m <=? time) then
          getMarkerFrom fuel time forward (AnimMarker.next m) clk w
        else if negb forward && (time <=? AnimMarker.time m) then
          getMarkerFrom fuel time forward (AnimMarker.prev m) clk w
        else Ok None w
    end.
Proof.
  cbn [getMarkerFrom]. unfold bind. rewrite getMarkerObj_eq.
  destruct (markers w !! c) as [m|]; [|reflexivity].
  destruct (AnimMarker.time m =? time); [reflexivity|].
  destruct (forward && (AnimMarker.time m <=? time)); [reflexivity|].
  destruct (negb forward && (time <=? AnimMarker.time m)); reflexivity.
Qed.

(** What a search of [createMarker] ends with: a marker inserted next to
    the marker [at], or a marker that was there. *)
Lemma createMarkerFrom_spec (fuel : nat) (time : Z) (forward : bool)
    (cur : MarkerId) (cm : AnimMarker.t) (clk : Clock) (w w' : World)
    (m : MarkerId) :
  createMarkerFrom fuel time cur clk w = Ok m w' ->
  markers w !! cur = Some cm ->
  (if forward then AnimMarker.time cm <= time else time <= AnimMarker.time cm) ->
  (exists after at_ am, markers w !! at_ = Some am
                        /\ m = length (markers w)
                        /\ w' = afterInsert after time at_ am w)
  \/ (w' = w
      /\ (exists mm, markers w !! m = Some mm /\ AnimMarker.time mm = time)
      /\ getMarkerFrom fuel time forward (Some cur) clk w = Ok (Some m) w).
Proof.
  revert cur cm. induction fuel as [|fuel IH]; intros cur cm H Hc Hdir;
    [discriminate H|].
  rewrite createMarkerFrom_eq in H. rewrite getMarkerFrom_eq. rewrite Hc in *.
  destruct (AnimMarker.time cm =? time) eqn:E0; zbool.
  { injection H as <- <-. right. split; [reflexivity|].
    split; [exists cm; auto | reflexivity]. }
  destruct (AnimMarker.time cm <? time) eqn:E1; zbool.
  - assert (forward = true) as -> by (destruct forward; [reflexivity | lia]).
    cbn [andb negb].
    replace (AnimMarker.time cm <=? time) with true
      by (symmetry; apply Z.leb_le; lia).
    destruct (AnimMarker.next cm) as [nx|] eqn:En.
    + destruct (markers w !! nx) as [nm|] eqn:Enx; [|discriminate H].
      destruct (AnimMarker.time nm <=? time) eqn:E2; zbool.
      * apply (IH nx nm H Enx). exact E2.
      * rewrite (insertAfter_eq time cur cm clk w Hc) in H.
        injection H as <- <-. left. exists true, cur, cm. auto.
    + rewrite (insertAfter_eq time cur cm clk w Hc) in H.
      injection H as <- <-. left. exists true, cur, cm. auto.
  - assert (forward = false) as -> by (destruct forward; [lia | reflexivity]).
    cbn [andb negb].
    replace (time <=? AnimMarker.time cm) with true
      by (symmetry; apply Z.leb_le; lia).
    destruct (AnimMarker.prev cm) as [pv|] eqn:En.
    + destruct (markers w !! pv) as [pm|] eqn:Epv; [|discriminate H].
      destruct (time <=? AnimMarker.time pm) eqn:E2; zbool.
      * apply (IH pv pm H Epv). exact E2.
      * rewrite (insertBefore_eq time cur cm clk w Hc) in H.
        injection H as <- <-. left. exists false, cur, cm. auto.
    + rewrite (insertBefore_eq time cur cm clk w Hc) in H.
      injection H as <- <-. left. exists false, cur, cm. auto.
Qed.

(** The two ways [createMarker] ends. *)
Lemma createMarker_spec (time : Z) (clk : Clock) (w w' : World) (m : MarkerId) :
  createMarker time clk w = Ok m w' ->
  (firstMarker w = None /\ m = length (markers w)
   /\ w' = set_currentMarker (Some m)
             (set_lastMarker (Some m)
                (set_firstMarker (Some m)
                   (set_markers (markers w ++ [AnimMarker.create time None None])
                                w))))
  \/ (firstMarker w <> None
      /\ exists after at_ am, markers w !! at_ = Some am
                              /\ m = length (markers w)
                              /\ w' = afterInsert after time at_ am w)
  \/ (firstMarker w <> None /\ w' = w
      /\ (exists mm, markers w !! m = Some mm /\ AnimMarker.time mm = time)
      /\ getMarker time clk w = Ok (Some m) w).
Proof.
  unfold createMarker. unfold bind at 1. unfold get.
  destruct (firstMarker w) as [f|] eqn:Ef.
  - destruct (currentMarker w) as [cur|] eqn:Ec; [|discriminate].
    intros H. right.
    destruct (markers w !! cur) as [cm|] eqn:Ecm.
    + destruct (createMarkerFrom_spec _ time (AnimMarker.time cm <=? time)
                  cur cm clk w w' m H Ecm) as [Hins | (-> & Hmm & Hget)].
      { destruct (AnimMarker.time cm <=? time) eqn:E; zbool; lia. }
      * left. split; [discriminate | exact Hins].
      * right. split; [discriminate|]. split; [reflexivity|].
        split; [exact Hmm|].
        unfold getMarker. unfold bind at 1. unfold get. rewrite Ec.
        unfold bind. rewrite getMarkerObj_eq, Ecm. exact Hget.
    + unfold markerFuel in H. rewrite createMarkerFrom_eq, Ecm in H.
      discriminate H.
  - intros H. left. split; [reflexivity|].
    unfold allocMarker, bind, get, modify, ret in H. cbn in H.
    injection H as <- <-. split; reflexivity.
Qed.

Lemma at_cursor (time : Z) (clk : Clock) (w : World) (m : MarkerId)
    (mm : AnimMarker.t) :
  firstMarker w <> None -> currentMarker w = Some m ->
  markers w !! m = Some mm -> AnimMarker.time mm = time ->
  createMarker time clk w = Ok m w /\ getMarker time clk w = Ok (Some m) w.
Proof.
  intros Hf Hc Hm Ht. split.
  - unfold createMarker. unfold bind, get.
    destruct (firstMarker w); [|contradiction]. rewrite Hc.
    unfold markerFuel. rewrite createMarkerFrom_eq, Hm.
    rewrite Ht, Z.eqb_refl. reflexivity.
  - unfold getMarker. unfold bind at 1. unfold get. rewrite Hc.
    unfold bind. rewrite getMarkerObj_eq, Hm.
    unfold markerFuel. rewrite getMarkerFrom_eq, Hm.
    rewrite Ht, Z.eqb_refl. reflexivity.
Qed.

Lemma createMarker_cursor (time : Z) (clk : Clock) (w w' : World)
    (m : MarkerId) :
  createMarker time clk w = Ok m w' ->
  (exists mm, markers w' !! m = Some mm /\ AnimMarker.time mm = time)
  /\ firstMarker w' <> None
  /\ (currentMarker w' = Some m
      \/ (w' = w /\ getMarker time clk w = Ok (Some m) w)).
Proof.
  intros H.
  destruct (createMarker_spec _ _ _ _ _ H)
    as [(Hf & -> & ->) | [(Hf & after & at_ & am & Ham & -> & ->)
                         | (Hf & -> & Hmm & Hget)]].
  - cbn. split; [|split; [discriminate | left; reflexivity]].
    rewrite lookup_app_r by lia. rewrite Nat.sub_diag. cbn.
    eexists; split; reflexivity.
  - split; [apply afterInsert_new; exact Ham|].
    destruct (afterInsert_fields after time at_ am w) as (Hc & Hfm & _).
    split; [apply Hfm; exact Hf | left; exact Hc].
  - split; [exact Hmm|]. split; [exact Hf|]. right. auto.
Qed.

(** X9. The marker [createMarker(time)] returns is at [time], and
    [getMarker(time)] finds it right after. *)
Theorem createMarker_then_getMarker (time : Z) (clk : Clock) (w w' : World)
    (m : MarkerId) :
  createMarker time clk w = Ok m w' ->
  (exists mm, markers w' !! m = Some mm /\ AnimMarker.time mm = time)
  /\ getMarker time clk w' = Ok (Some m) w'.
Proof.
  intros H.
  destruct (createMarker_cursor _ _ _ _ _ H)
    as ((mm & Hm & Ht) & Hf & [Hc | (-> & Hget)]).
  - split; [exists mm; auto|].
    apply (at_cursor time clk w' m mm); assumption.
  - split; [exists mm; auto | exact Hget].
Qed.


Lemma createMarker_frame (time : Z) (clk : Clock) (w w' : World)
    (m : MarkerId) :
  createMarker time clk w = Ok m w' ->
  (length (markers w) <= length (markers w') <= S (length (markers w)))%nat
  /\ (forall i mm, markers w !! i = Some mm ->
       exists mm', markers w' !! i = Some mm'
                   /\ AnimMarker.time mm' = AnimMarker.time mm
                   /\ AnimMarker.startEntities mm' = AnimMarker.startEntities mm
                   /\ AnimMarker.endEntities mm' = AnimMarker.endEntities mm)
  /\ entities w' = entities w /\ rList w' = rList w
  /\ rListEnd w' = rListEnd w /\ ASYNC_COUNTER w' = ASYNC_COUNTER w.
Proof.
  intros H.
  destruct (createMarker_spec _ _ _ _ _ H)
    as [(Hf & -> & ->) | [(Hf & after & at_ & am & Ham & -> & ->)
                         | (Hf & -> & Hmm & Hget)]].
  - cbn. rewrite length_app. cbn. split; [lia|].
    split; [|repeat split].
    intros i mm Hi. exists mm. rewrite lookup_app_l
      by (apply lookup_lt_is_Some; eauto). auto.
  - destruct (afterInsert_fields after time at_ am w)
      as (_ & _ & He & Hr & Hre & Ha & _).
    rewrite afterInsert_markers, length_insert, length_app. cbn.
    split; [lia|]. split; [|auto].
    intros i mm Hi.
    assert (Hlt : (i < length (markers w))%nat)
      by (apply lookup_lt_is_Some; eauto).
    destruct (Nat.eq_dec at_ i) as [->|Hne].
    + rewrite list_lookup_insert_eq by (rewrite length_app; lia).
      assert (Heq : Some am = Some mm)
        by (transitivity (markers w !! i); [symmetry; exact Ham | exact Hi]).
      injection Heq as ->.
      destruct after; eexists; repeat split.
    + rewrite list_lookup_insert_ne by exact Hne.
      rewrite lookup_app_l by exact Hlt. exists mm. auto.
  - split; [lia|]. split; [|auto]. intros i mm Hi. exists mm. auto.
Qed.

(** X11. [createMarker] adds one marker at most, keeps every marker with its
    time and its lists of entities, and touches neither the entities, the
    running list nor the counter. *)
Theorem createMarker_keeps (time : Z) (clk : Clock) (w w' : World)
    (m : MarkerId) :
  createMarker time clk w = Ok m w' ->
  (length (markers w) <= length (markers w') <= S (length (markers w)))%nat
  /\ (forall (i : MarkerId) (mm : AnimMarker.t),
       markers w !! i = Some mm ->
       exists mm', markers w' !! i = Some mm'
                   /\ AnimMarker.time mm' = AnimMarker.time mm
                   /\ AnimMarker.startEntities mm' = AnimMarker.startEntities mm
                   /\ AnimMarker.endEntities mm' = AnimMarker.endEntities mm)
  /\ entities w' = entities w /\ rList w' = rList w
  /\ rListEnd w' = rListEnd w /\ ASYNC_COUNTER w' = ASYNC_COUNTER w.
Proof. apply createMarker_frame. Qed.

(** X12. [createMarker] between the cursor and its predecessor links the new
    marker on both sides but leaves the [next] link of the predecessor on
    the cursor: a forward search from the predecessor does not find the new
    marker. *)
Theorem createMarker_stale_link (time : Z) (clk : Clock) (w : World)
    (cur pv : MarkerId) (cm pm : AnimMarker.t) :
  firstMarker w <> None -> currentMarker w = Some cur ->
  markers w !! cur = Some cm -> AnimMarker.prev cm = Some pv ->
  markers w !! pv = Some pm -> AnimMarker.next pm = Some cur ->
  AnimMarker.time pm < time < AnimMarker.time cm ->
  exists w',
    createMarker time clk w = Ok (length (markers w)) w'
    /\ markers w' !! length (markers w)
       = Some (AnimMarker.create time (Some pv) (Some cur))
    /\ markers w' !! cur
       = Some (AnimMarker.set_prev (Some (length (markers w))) cm)
    /\ markers w' !! pv = Some pm
    /\ (forall fuel,
          getMarkerFrom (S (S fuel)) time true (Some pv) clk w' = Ok None w').
Proof.
  intros Hf Hc Hcm Hpv Hpm Hnext [Hlo Hhi].
  assert (Hltc : (cur < length (markers w))%nat)
    by (apply lookup_lt_is_Some; eauto).
  assert (Hltp : (pv < length (markers w))%nat)
    by (apply lookup_lt_is_Some; eauto).
  assert (Hne : cur <> pv) by (intros ->; assert (cm = pm) by congruence; subst; lia).
  exists (afterInsert false time cur cm w).
  assert (Hrun : createMarker time clk w
                 = Ok (length (markers w)) (afterInsert false time cur cm w)).
  { unfold createMarker. unfold bind, get.
    destruct (firstMarker w); [|contradiction]. rewrite Hc.
    unfold markerFuel. rewrite createMarkerFrom_eq, Hcm.
    destruct (AnimMarker.time cm =? time) eqn:E0; zbool; [lia|].
    destruct (AnimMarker.time cm <? time) eqn:E1; zbool; [lia|].
    rewrite Hpv, Hpm.
    destruct (time <=? AnimMarker.time pm) eqn:E2; zbool; [lia|].
    apply insertBefore_eq. exact Hcm. }
  assert (Hnew : markers (afterInsert false time cur cm w) !! length (markers w)
                 = Some (AnimMarker.create time (Some pv) (Some cur))).
  { rewrite afterInsert_markers.
    rewrite list_lookup_insert_ne by lia.
    rewrite lookup_app_r by lia. rewrite Nat.sub_diag, Hpv. reflexivity. }
  assert (Hcur : markers (afterInsert false time cur cm w) !! cur
                 = Some (AnimMarker.set_prev (Some (length (markers w))) cm)).
  { rewrite afterInsert_markers.
    apply list_lookup_insert_eq. rewrite length_app. lia. }
  assert (Hprev : markers (afterInsert false time cur cm w) !! pv = Some pm).
  { rewrite afterInsert_markers.
    rewrite list_lookup_insert_ne by exact Hne.
    rewrite lookup_app_l by exact Hltp. exact Hpm. }
  splits; try assumption.
  intros fuel. rewrite getMarkerFrom_eq, Hprev.
  destruct (AnimMarker.time pm =? time) eqn:E0; zbool; [lia|].
  replace (AnimMarker.time pm <=? time) with true
    by (symmetry; apply Z.leb_le; lia).
  cbn [andb]. rewrite Hnext, getMarkerFrom_eq, Hcur.
  cbn [AnimMarker.time AnimMarker.set_prev].
  destruct (AnimMarker.time cm =? time) eqn:E1; zbool; [lia|].
  replace (AnimMarker.time cm <=? time) with false
    by (symmetry; apply Z.leb_gt; lia).
  reflexivity.
Qed.

End Markers.

(** ** Errors *)

Section Errors.
Import TimeLine.

Lemma safe_quiet {A : Type} (m : E A) : safe m -> quiet m.
Proof.
  intros H clk w msg w' E. specialize (H clk w). rewrite E in H. exact H.
Qed.

Lemma quiet_bind {A B : Type} (m : E A) (k : A -> E B) :
  quiet m -> (forall a, quiet (k a)) -> quiet (bind m k).
Proof.
  intros Hm Hk clk w msg w' E. unfold bind in E.
  destruct (m clk w) as [a w1|msg1 w1| |] eqn:Em; try discriminate E.
  - exact (Hk a clk w1 msg w' E).
  - exact (Hm clk w msg1 w1 Em).
Qed.

Lemma quiet_scanRunning fuel time forward ae n found :
  quiet (scanRunning fuel time forward ae n found).
Proof.
  intros clk w msg w'. revert ae n found.
  induction fuel as [|fuel IH]; intros [i|] n found E; cbn in E;
    try discriminate E.
  unfold bind in E. rewrite getEntity_eq in E.
  destruct (entities w !! i) as [e|]; [|discriminate E].
  exact (IH _ _ _ E).
Qed.

Lemma quiet_scanMarkers fuel time forward cm n found :
  quiet (scanMarkers fuel time forward cm n found).
Proof.
  intros clk w msg w'.
  revert cm n found.
  induction fuel as [|fuel IH]; intros [c|] n found E; cbn in E;
    try discriminate E.
  unfold bind in E. rewrite getMarkerObj_eq in E.
  destruct (markers w !! c) as [m|]; [|discriminate E].
  destruct forward.
  - destruct (time <? AnimMarker.time m).
    + destruct (found && (n =? AnimMarker.time m)); [discriminate E|].
      destruct (AnimMarker.time m <? n); [|discriminate E].
      exact (IH _ _ _ E).
    + exact (IH _ _ _ E).
  - destruct (AnimMarker.time m <? time).
    + destruct (found && (n =? AnimMarker.time m)); [discriminate E|].
      destruct (n <? AnimMarker.time m); [|discriminate E].
      exact (IH _ _ _ E).
    + exact (IH _ _ _ E).
Qed.

Lemma quiet_ret {A : Type} (a : A) : quiet (ret a).
Proof. intros clk w msg w' E. discriminate E. Qed.

Lemma quiet_when (b : bool) (m : E unit) : quiet m -> quiet (when b m).
Proof. intros H. destruct b; [exact H | apply quiet_ret]. Qed.

Lemma quiet_getNextMarkerPosition time forward :
  quiet (getNextMarkerPosition time forward).
Proof.
  unfold getNextMarkerPosition.
  apply quiet_bind; [apply safe_quiet, safe_clock|]. intros clk0.
  apply quiet_bind; [apply safe_quiet, safe_get|]. intros w0.
  destruct (Z.abs (time - currentTime clk0) =? FRAME_MS); [apply quiet_ret|].
  apply quiet_bind; [apply quiet_scanRunning|]. intros r.
  apply quiet_bind; [apply quiet_scanMarkers|]. intros r2. apply quiet_ret.
Qed.

Lemma quiet_displayRunning fuel time targetTime forward ae :
  quiet (displayRunning fuel time targetTime forward ae).
Proof.
  revert ae. induction fuel as [|fuel IH]; intros [i|]; cbn;
    try apply quiet_ret; try (intros clk w msg w' E; discriminate E).
  apply quiet_bind; [apply safe_quiet, safe_entityDisplayFrame|]. intros _.
  apply quiet_bind; [apply safe_quiet, safe_getEntity|]. intros e. apply IH.
Qed.

Lemma quiet_stuck {A : Type} : quiet (@stuck A).
Proof. intros clk w msg w' E. discriminate E. Qed.

Lemma quiet_loadLoop index marker side starting :
  quiet (loadLoop index marker side starting).
Proof.
  induction index as [|index IH]; cbn; [apply quiet_ret|].
  apply quiet_bind; [apply safe_quiet, safe_getMarkerObj|]. intros m.
  destruct (readSide side m) as [arr|]; [|apply quiet_stuck].
  destruct (arr !! index) as [id|]; [|apply quiet_stuck].
  apply quiet_bind; [apply safe_quiet, safe_getEntity|]. intros e.
  apply quiet_bind; [|intros _; exact IH].
  destruct starting; apply quiet_when, safe_quiet;
    [apply safe_addEntity | apply safe_removeEntity].
Qed.

Lemma quiet_loadSide marker side starting :
  quiet (loadSide marker side starting).
Proof.
  unfold loadSide.
  apply quiet_bind; [apply safe_quiet, safe_getMarkerObj|]. intros m.
  destruct (readSide side m); [apply quiet_loadLoop | apply quiet_stuck].
Qed.

Lemma quiet_loadEntities time forward : quiet (loadEntities time forward).
Proof.
  unfold loadEntities.
  apply quiet_bind; [apply safe_quiet, safe_getMarker|]. intros [mk|];
    [|apply quiet_ret].
  apply quiet_bind; [apply safe_quiet, safe_getMarkerObj|]. intros m.
  apply quiet_bind; [apply quiet_when, quiet_loadSide|]. intros _.
  apply quiet_when, quiet_loadSide.
Qed.

Lemma quiet_displayFrameBody time targetTime forward :
  quiet (displayFrameBody time targetTime forward).
Proof.
  unfold displayFrameBody.
  apply quiet_bind; [apply safe_quiet, safe_get|]. intros w0.
  apply quiet_bind; [|intros _; apply safe_quiet, safe_checkState].
  destruct (negb (tlFunctionCalled w0)).
  - apply quiet_bind; [apply safe_quiet, safe_modify; intros; reflexivity|].
    intros _.
    apply quiet_bind; [apply safe_quiet, safe_runCalls|]. intros _.
    apply quiet_when, safe_quiet, safe_setTlFunctionComplete.
  - apply quiet_bind; [apply quiet_displayRunning|]. intros _.
    apply quiet_loadEntities.
Qed.

Lemma quiet_exhaustLoop orc fuel p : quiet (exhaustLoop orc fuel p).
Proof.
  revert p. induction fuel as [|fuel IH]; intros p; cbn;
    (destruct (negb (c1 p =? c2 p) && (count p <? MAX_ASYNC));
     [|apply quiet_ret]).
  - intros clk w msg w' E. discriminate E.
  - apply quiet_bind; [apply safe_quiet, safe_await|]. intros _.
    apply quiet_bind; [apply safe_quiet, safe_get|]. intros w0.
    apply quiet_bind; [|intros _; apply IH].
    apply quiet_when. intros clk w msg w' E. discriminate E.
Qed.

Lemma exhaustAsyncPipe_error orc clk w msg w' :
  exhaustAsyncPipe orc clk w = Throw msg w' -> msg = "Max async loop reached"%string.
Proof.
  unfold exhaustAsyncPipe, bind, get. intros E.
  destruct (exhaustLoop orc _ _ clk w) as [p w1|msg1 w1| |] eqn:El;
    try discriminate E.
  - destruct (count p =? MAX_ASYNC); [|discriminate E].
    unfold throw in E. injection E as <- _. reflexivity.
  - exfalso. exact (quiet_exhaustLoop _ _ _ _ _ _ _ El).
Qed.

Lemma only_bindT {A B : Type} (m : T A) (k : A -> T B) :
  pipeErrorOnly m -> (forall a, pipeErrorOnly (k a)) ->
  pipeErrorOnly (bindT m k).
Proof.
  intros Hm Hk clk w msg w' E. unfold bindT in E.
  destruct (m clk w) as [[a clk1] w1|msg1 w1| |] eqn:Em; try discriminate E.
  - exact (Hk a clk1 w1 msg w' E).
  - injection E as <- <-. exact (Hm clk w msg1 w1 Em).
Qed.

Lemma only_liftE {A : Type} (m : E A) : quiet m -> pipeErrorOnly (liftE m).
Proof.
  intros H clk w msg w' E. unfold liftE in E.
  destruct (m clk w) as [a w1|msg1 w1| |] eqn:Em; try discriminate E.
  exfalso. exact (H clk w msg1 w1 Em).
Qed.

Lemma only_retT {A : Type} (a : A) : pipeErrorOnly (retT a).
Proof. intros clk w msg w' E. discriminate E. Qed.

Lemma only_setClock f : pipeErrorOnly (setClock f).
Proof. intros clk w msg w' E. discriminate E. Qed.

Lemma only_getClock : pipeErrorOnly getClock.
Proof. intros clk w msg w' E. discriminate E. Qed.

Lemma only_whenT b m : pipeErrorOnly m -> pipeErrorOnly (whenT b m).
Proof. intros H. destruct b; [exact H | apply only_retT]. Qed.

Lemma only_pipe orc : pipeErrorOnly (liftE (exhaustAsyncPipe orc)).
Proof.
  intros clk w msg w' E. unfold liftE in E.
  destruct (exhaustAsyncPipe orc clk w) as [a w1|msg1 w1| |] eqn:Em;
    try discriminate E.
  injection E as <- <-. exact (exhaustAsyncPipe_error _ _ _ _ _ Em).
Qed.

Lemma only_displayFrame time targetTime forward :
  pipeErrorOnly (displayFrame time targetTime forward).
Proof.
  unfold displayFrame. apply only_bindT; [apply only_setClock|]. intros _.
  apply only_liftE, quiet_displayFrameBody.
Qed.

Lemma only_findNextTarget orc t forward cur :
  pipeErrorOnly (findNextTarget orc t forward cur).
Proof.
  unfold findNextTarget. destruct (cur <? 0).
  - apply only_bindT; [apply only_getClock|]. intros c.
    apply only_bindT; [apply only_whenT, only_setClock|]. intros _.
    apply only_bindT; [apply only_getClock|]. intros c2. apply only_retT.
  - apply only_bindT; [apply only_getClock|]. intros c.
    apply only_bindT.
    { apply only_whenT. apply only_bindT;
        [apply only_liftE, safe_quiet, safe_getMarker|].
      intros [mk|]; [|apply only_retT].
      apply only_bindT; [apply only_displayFrame|]. intros _.
      apply only_pipe. }
    intros _.
    apply only_bindT; [apply only_liftE, quiet_getNextMarkerPosition|].
    intros n. destruct ((n <? 0) || (n =? cur)).
    + apply only_bindT; [apply only_setClock|]. intros _. apply only_retT.
    + destruct forward; apply only_retT.
Qed.

Lemma only_moveLoop orc fuel t forward manage cur :
  pipeErrorOnly (moveLoop orc fuel t forward manage cur).
Proof.
  revert cur. induction fuel as [|fuel IH]; intros cur; cbn [moveLoop];
    (apply only_bindT; [apply only_getClock|]); intros c;
    (destruct (cur =? moveTarget c); [apply only_retT|]).
  - intros clk w msg w' E. discriminate E.
  - apply only_bindT; [apply only_findNextTarget|]. intros [n|v];
      [|apply only_retT].
    apply only_bindT; [apply only_displayFrame|]. intros _.
    apply only_bindT; [apply only_whenT, only_pipe|]. intros _.
    apply only_bindT; [apply only_getClock|]. intros c2. apply IH.
Qed.



End Errors.

(** ** Where [move] stops *)

Section Bounds.
Import TimeLine.
Variable orc : Oracle.

Lemma findNextTarget_return (t : Z) (forward : bool) (cur v : Z)
    (clk clk' : Clock) (w w' : World) :
  findNextTarget orc t forward cur clk w = Ok (Return v, clk') w' -> v = cur.
Proof.
  unfold findNextTarget. intros H. destruct (cur <? 0).
  - apply bindT_Ok in H. destruct H as (c0 & clk1 & w1 & _ & H).
    apply bindT_Ok in H. destruct H as ([] & clk2 & w2 & _ & H).
    apply bindT_Ok in H. destruct H as (c2 & clk3 & w3 & _ & H).
    discriminate H.
  - apply bindT_Ok in H. destruct H as (c0 & clk1 & w1 & _ & H).
    apply bindT_Ok in H. destruct H as ([] & clk2 & w2 & _ & H).
    apply bindT_Ok in H. destruct H as (n & clk3 & w3 & _ & H).
    destruct ((n <? 0) || (n =? cur)).
    + apply bindT_Ok in H. destruct H as ([] & clk4 & w4 & _ & H).
      unfold retT in H. injection H as <- _ _. reflexivity.
    + destruct forward; discriminate H.
Qed.

Lemma moveLoop_between (fuel : nat) (t : Z) (forward manage : bool)
    (cur v : Z) (clk clk' : Clock) (w w' : World) :
  moveLoop orc fuel t forward manage cur clk w = Ok (v, clk') w' ->
  cur = currentTime clk -> moveTarget clk = t ->
  ((cur = t /\ 0 <= cur) \/ (cur <> t /\ (cur <? t) = forward)) ->
  clockOk clk ->
  if forward then Z.max cur 0 <= v <= t
  else Z.max t 0 <= v <= Z.max cur 0.
Proof.
  revert cur clk w.
  induction fuel as [|fuel IH]; intros cur clk w H Hcur Hm Hdir Hok;
    rewrite moveLoop_eq in H;
    (destruct (cur =? moveTarget clk) eqn:He; zbool;
     [injection H as <- _ _; destruct Hdir as [[? ?]|[? ?]];
      [destruct forward; lia | congruence] |]);
    [discriminate H|].
  destruct Hdir as [[? ?] | [Hne Hfwd]]; [congruence|].
  apply bindT_Ok in H. destruct H as (step & clk1 & w1 & H1 & H).
  destruct (findNextTarget_spec orc _ _ _ _ _ _ _ _ H1 Hcur Hm Hne Hfwd Hok)
    as [Hok1 Hstep].
  destruct step as [n | value].
  - destruct Hstep as (Hm1 & Hpos & Hnext & Hturns).
    apply bindT_Ok in H. destruct H as ([] & clk2 & w2 & H2 & H).
    apply displayFrame_clock in H2. subst clk2.
    apply bindT_Ok in H. destruct H as ([] & clk3 & w3 & H3 & H).
    assert (Hclk3 : clk3 = clockAfterFrame n t forward clk1).
    { unfold whenT in H3. destruct manage.
      - apply liftE_Ok in H3. destruct H3 as [-> _]. reflexivity.
      - unfold retT in H3. injection H3 as <- _. reflexivity. }
    subst clk3.
    apply bindT_Ok in H. destruct H as (c4 & clk4 & w4 & H4 & H).
    unfold getClock in H4. injection H4 as <- <- <-.
    assert (Hrange : if forward then cur < n else n <= Z.max cur 0).
    { destruct Hok as [Hge _]. unfold turns in Hturns. subst forward.
      revert Hturns. destruct Hnext as [-> | Hn];
        break_ifs; zbool; lia. }
    specialize (IH _ _ _ H eq_refl Hm1).
    cbn [currentTime clockAfterFrame set_lastTargetForward
         set_lastTargetTime set_currentTime] in IH.
    assert (Hdir' : (n = t /\ 0 <= n) \/ (n <> t /\ (n <? t) = forward)).
    { destruct (Z.eq_dec n t) as [->|Hnt]; [left; split; [reflexivity|lia]|].
      right. split; [exact Hnt|]. destruct Hnext; [contradiction|assumption]. }
    specialize (IH Hdir').
    assert (Hok' : clockOk (clockAfterFrame n t forward clk1)).
    { destruct Hok1 as [_ Hs1]. unfold clockOk.
      cbn [currentTime startTime clockAfterFrame set_lastTargetForward
           set_lastTargetTime set_currentTime]. lia. }
    specialize (IH Hok'). destruct forward; lia.
  - unfold retT in H. injection H as <- <- <-.
    apply findNextTarget_return in H1. subst value.
    destruct Hok as [Hge _]. destruct Hstep as [(? & _) | (_ & _ & _ & _ & H0 & _)];
      [congruence|].
    subst forward. destruct (cur <? t) eqn:E; zbool; lia.
Qed.

End Bounds.

Section BoundsClaim.
Import TimeLine.


End BoundsClaim.

(** ** The pipe at rest, and delays *)

Section Idle.
Import TimeLine.

Lemma await_idle (orc : Oracle) (clk : Clock) (w : World) :
  orc (ticks w) = [] -> await orc clk w = Ok tt (set_ticks (S (ticks w)) w).
Proof.
  intros H. unfold await, bind, get, modify. rewrite H. reflexivity.
Qed.

Lemma exhaustLoop_eq (orc : Oracle) (fuel : nat) (p : Pipe) (clk : Clock)
    (w : World) :
  exhaustLoop orc (S fuel) p clk w
  = if negb (c1 p =? c2 p) && (count p <? MAX_ASYNC) then
      match await orc clk w with
      | Ok _ w1 =>
          exhaustLoop orc fuel (pipeStep p (ASYNC_COUNTER w1)) clk
            (if 10000 <? ASYNC_COUNTER w1 then set_ASYNC_COUNTER 1 w1 else w1)
      | Throw msg w' => Throw msg w'
      | Diverge => Diverge
      | Stuck => Stuck
      end
    else Ok p w.
Proof.
  cbn [exhaustLoop].
  destruct (negb (c1 p =? c2 p) && (count p <? MAX_ASYNC)); [|reflexivity].
  unfold bind at 1. destruct (await orc clk w) as [[] w1| | |];
    try reflexivity.
  unfold bind, get, when, modify, ret.
  destruct (10000 <? ASYNC_COUNTER w1); reflexivity.
Qed.

Lemma exhaustLoop_done (orc : Oracle) (fuel : nat) (p : Pipe) (clk : Clock)
    (w : World) :
  c1 p = c2 p -> exhaustLoop orc fuel p clk w = Ok p w.
Proof.
  intros H. destruct fuel; cbn [exhaustLoop]; rewrite H, Z.eqb_refl;
    reflexivity.
Qed.

(** X17. With nothing scheduled, [exhaustAsyncPipe] returns after exactly two
    turns of the event loop and leaves the engine as it is. *)
Theorem exhaustAsyncPipe_idle (orc : Oracle) (clk : Clock) (w : World) :
  0 <= ASYNC_COUNTER w <= 10000 ->
  orc (ticks w) = [] -> orc (S (ticks w)) = [] ->
  exhaustAsyncPipe orc clk w = Ok tt (set_ticks (S (S (ticks w))) w).
Proof.
  intros [Hlo Hhi] H1 H2.
  unfold exhaustAsyncPipe. unfold bind at 1. unfold get.
  change (Z.to_nat MAX_ASYNC) with (S (S 98)).
  set (C := ASYNC_COUNTER w) in *.
  assert (Hp1 : pipeStep (mkPipe (-1) C 0 0) C = mkPipe (-1) C 1 1).
  { unfold pipeStep. cbn [c1 c2 count count2]. rewrite !Z.eqb_refl.
    reflexivity. }
  assert (Hp2 : pipeStep (mkPipe (-1) C 1 1) C = mkPipe C C 2 2).
  { unfold pipeStep. cbn [c1 c2 count count2]. rewrite !Z.eqb_refl.
    reflexivity. }
  assert (Hbig : (10000 <? C) = false) by (apply Z.ltb_ge; lia).
  assert (Hne : (-1 =? C) = false) by (apply Z.eqb_neq; lia).
  unfold bind.
  rewrite exhaustLoop_eq. cbn [c1 c2 count]. rewrite Hne.
  cbn [negb andb]. change (0 <? MAX_ASYNC) with true. cbv iota.
  rewrite (await_idle orc clk w H1).
  cbn [ASYNC_COUNTER set_ticks]. fold C. rewrite Hbig, Hp1.
  rewrite exhaustLoop_eq. cbn [c1 c2 count]. rewrite Hne.
  cbn [negb andb]. change (1 <? MAX_ASYNC) with true. cbv iota.
  rewrite await_idle by exact H2.
  cbn [ASYNC_COUNTER set_ticks ticks]. fold C. rewrite Hbig, Hp2.
  rewrite exhaustLoop_done by reflexivity.
  cbn [count]. change (2 =? MAX_ASYNC) with false. cbv iota.
  unfold ret. destruct w; reflexivity.
Qed.

End Idle.

Section DelayDrop.
Import TimeLine.

Lemma round_small (x : Q) : (x < 1 # 2)%Q -> Qfloor (x + (1 # 2)) <= 0.
Proof.
  intros H.
  assert (Hlt : (inject_Z (Qfloor (x + (1 # 2))) < inject_Z 1)%Q).
  { apply Qle_lt_trans with (x + (1 # 2))%Q; [apply Qfloor_le|].
    change (inject_Z 1) with 1%Q. lra. }
  rewrite <- Zlt_Qlt in Hlt. lia.
Qed.

(** X22. A delay shorter than half a frame at the speed of the settings adds
    nothing: no entity, no marker, no change of the counter. *)
Theorem delay_dropped (ms s : Q) (clk : Clock) (w : World) :
  s_speed (settings w) = JS.Fin s -> (0 < s)%Q -> (ms < 8 * s)%Q ->
  delay_ (JS.Fin ms) clk w = Ok tt w.
Proof.
  intros Hs Hpos Hms. unfold delay_, bind, get. rewrite Hs.
  assert (Hnz : ~ s == 0) by (intros E; rewrite E in Hpos; discriminate Hpos).
  rewrite (adjustDuration_finite ms s Hnz).
  assert (Hx : (ms / s / inject_Z 16 < 1 # 2)%Q).
  { apply Qlt_shift_div_r; [reflexivity|].
    apply Qlt_shift_div_r; [exact Hpos|].
    change (inject_Z 16) with 16%Q. lra. }
  pose proof (round_small _ Hx) as Hr.
  unfold JS.gtb, JS.ofZ.
  replace (Qle_bool _ _) with true; [reflexivity|].
  symmetry. apply Qle_bool_iff. rewrite <- Zle_Qle. lia.
Qed.

End DelayDrop.

(** ** Ticks, random numbers and easing *)

Lemma Qltb_lt (x y : Q) : Qltb x y = true <-> (x < y)%Q.
Proof.
  unfold Qltb. rewrite negb_true_iff. split.
  - intros H. apply Qnot_le_lt. intros Hle.
    apply Qle_bool_iff in Hle. congruence.
  - intros H. destruct (Qle_bool y x) eqn:E; [|reflexivity].
    apply Qle_bool_iff in E. exfalso. apply (Qlt_not_le _ _ H E).
Qed.

Lemma Qltb_ge (x y : Q) : Qltb x y = false <-> (y <= x)%Q.
Proof.
  unfold Qltb. rewrite negb_false_iff. apply Qle_bool_iff.
Qed.

(** X24. [nextTimeTick] is never negative: it is [0] before the first frame, a
    forward tick adds [16 * speed], and a backward tick stops at [0]. *)
Theorem nextTimeTick_never_negative (t1 : Q) (forward : bool) (speed : Q) :
  (0 <= nextTimeTick t1 forward speed)%Q
  /\ ((t1 < 0)%Q -> nextTimeTick t1 forward speed = 0%Q)
  /\ ((0 <= t1)%Q -> (0 <= speed)%Q ->
      if forward
      then nextTimeTick t1 true speed = (t1 + inject_Z 16 * speed)%Q
      else (nextTimeTick t1 false speed <= t1)%Q).
Proof.
  split; [|split].
  - unfold nextTimeTick. destruct (Qltb t1 0); [apply Qle_refl|].
    destruct (Qltb _ 0) eqn:E; [apply Qle_refl|].
    apply Qltb_ge in E. exact E.
  - intros H. apply Qltb_lt in H. unfold nextTimeTick. rewrite H.
    reflexivity.
  - intros H Hs. pose proof H as Hb. apply Qltb_ge in Hb.
    destruct forward; unfold nextTimeTick; rewrite Hb;
      change (inject_Z FRAME_MS) with 16%Q; change (inject_Z 16) with 16%Q.
    + destruct (Qltb (t1 + 16 * speed) 0) eqn:E; [|reflexivity].
      apply Qltb_lt in E. lra.
    + destruct (Qltb (t1 - 16 * speed) 0) eqn:E; [exact H | lra].
Qed.

(** X25. [random(min, max)] on integers [min <= max] is an integer between
    [min] and [max]. *)
Theorem random_within (r : Q) (min max : Z) :
  (0 <= r)%Q -> (r < 1)%Q -> min <= max ->
  min <= random r min max <= max.
Proof.
  intros H0 H1 Hm. unfold random.
  set (n := max + 1 - min).
  assert (Hn : (0 < inject_Z n)%Q).
  { change 0%Q with (inject_Z 0). rewrite <- Zlt_Qlt. unfold n. lia. }
  assert (Hx0 : (0 <= r * inject_Z n)%Q).
  { apply Qmult_le_0_compat; [exact H0 | apply Qlt_le_weak, Hn]. }
  assert (Hx1 : (r * inject_Z n < inject_Z n)%Q).
  { rewrite <- (Qmult_1_l (inject_Z n)) at 2.
    apply Qmult_lt_compat_r; assumption. }
  destruct (Math_trunc_nonneg _ Hx0) as [Ht0 Ht1].
  assert (Hlt : (inject_Z (JS.Math_trunc (r * inject_Z n)) < inject_Z n)%Q)
    by (eapply Qle_lt_trans; eassumption).
  rewrite <- Zlt_Qlt in Hlt. unfold n in *. lia.
Qed.

(** X6. The value [setProgression] hands to the easing function for a frame
    of a tween group is between [0] and [1]. *)
Theorem easing_input_within (e : TimelineEntity.t) (start time targetTime : Z)
    (forward : bool) (p : Z) :
  0 <= TimelineEntity.duration e ->
  TimelineEntity.progression (TimelineEntity.init start e) time targetTime
                             forward = Some p ->
  (0 <= Tween.progression (TimelineEntity.duration e) p <= 1)%Q.
Proof.
  intros Hd H.
  assert (Hb : 0 <= p <= TimelineEntity.duration e).
  { assert (Hdone : TimelineEntity.doneTime (TimelineEntity.init start e)
                    = TimelineEntity.delayTime (TimelineEntity.init start e)
                      + TimelineEntity.duration e).
    { unfold TimelineEntity.init. cbn. break_ifs; zbool; lia. }
    revert H Hdone. generalize (TimelineEntity.init start e). intros e' H Hdone.
    unfold TimelineEntity.progression in H.
    revert H. break_ifs; intros H; try discriminate H; injection H as <-;
      zbool; lia. }
  unfold Tween.progression.
  destruct (TimelineEntity.duration e =? 0) eqn:E; zbool.
  - split; discriminate.
  - assert (Hdq : (0 < inject_Z (TimelineEntity.duration e))%Q).
    { change 0%Q with (inject_Z 0). rewrite <- Zlt_Qlt. lia. }
    split.
    + apply Qle_shift_div_l; [exact Hdq|]. rewrite Qmult_0_l.
      change 0%Q with (inject_Z 0). rewrite <- Zle_Qle. lia.
    + apply Qle_shift_div_r; [exact Hdq|]. rewrite Qmult_1_l.
      rewrite <- Zle_Qle. lia.
Qed.

(** ** Names of style properties *)

Section CssFacts.
Import Css.

Lemma lowerChar_not_upper (c : ascii) : isUpper (lowerChar c) = false.
Proof.
  unfold lowerChar. destruct (isUpper c) eqn:E; [|exact E].
  unfold isUpper, charCode in *. rewrite nat_ascii_embedding.
  - apply andb_false_iff. right. apply Z.leb_gt.
    apply andb_prop in E. destruct E as [E1 E2].
    apply Z.leb_le in E1. lia.
  - apply andb_prop in E. destruct E as [E1 E2].
    apply Z.leb_le in E2. lia.
Qed.

Lemma lowerChar_fixed (c : ascii) : isUpper c = false -> lowerChar c = c.
Proof. intros H. unfold lowerChar. rewrite H. reflexivity. Qed.

Lemma toLowerCase_fixed (s : list ascii) :
  Forall (fun c => isUpper c = false) s -> toLowerCase s = s.
Proof.
  induction 1 as [|c s Hc _ IH]; [reflexivity|].
  cbn. rewrite (lowerChar_fixed c Hc). f_equal. exact IH.
Qed.

Lemma replaceCssName_fixed (s : list ascii) :
  Forall (fun c => isUpper c = false) s -> replaceCssName s = s.
Proof.
  induction 1 as [|c s Hc Hs IH]; [reflexivity|].
  destruct s as [|c2 rest]; [reflexivity|].
  cbn [replaceCssName].
  assert (H2 : isUpper c2 = false) by (inversion Hs; assumption).
  rewrite H2, andb_false_r. f_equal. exact IH.
Qed.

Lemma stringToHyphens_lower_fixed (s : list ascii) :
  Forall (fun c => isUpper c = false) s -> stringToHyphens s = s.
Proof.
  intros H. unfold stringToHyphens.
  rewrite (replaceCssName_fixed s H). apply toLowerCase_fixed, H.
Qed.

(** X26. On a name of the ASCII range, [stringToHyphens] returns a name
    without upper-case letter, it changes nothing when applied again, and
    it leaves a name that has no upper-case letter as it is. *)
Theorem stringToHyphens_idempotent (s : list ascii) :
  isAscii s ->
  Forall (fun c => isUpper c = false) (stringToHyphens s)
  /\ stringToHyphens (stringToHyphens s) = stringToHyphens s
  /\ (Forall (fun c => isUpper c = false) s -> stringToHyphens s = s).
Proof.
  intros _.
  assert (H : Forall (fun c => isUpper c = false) (stringToHyphens s)).
  { unfold stringToHyphens, toLowerCase.
    induction (replaceCssName s) as [|c l IH]; cbn; constructor;
      [apply lowerChar_not_upper | exact IH]. }
  split; [exact H|]. split; [apply stringToHyphens_lower_fixed, H|].
  apply stringToHyphens_lower_fixed.
Qed.

End CssFacts.

(** ** Colours *)

Section ColorFacts.
Import Color.

Lemma hexDigit_range (c : ascii) (d : Z) : hexDigit c = Some d -> 0 <= d <= 15.
Proof.
  unfold hexDigit. intros H.
  repeat match type of H with
         | (if ?b then _ else _) = _ => destruct b eqn:?
         end; try discriminate H; injection H as <-;
    repeat match goal with
           | E : (_ && _) = true |- _ => apply andb_prop in E; destruct E
           end; zbool; lia.
Qed.

(** X27. The three-digit notation of a colour, with or without [#], denotes
    what the six-digit notation with each digit doubled denotes: each
    channel is 17 times its digit. *)
Theorem parseHexColor_short (hash : bool) (r g b : ascii) (x y z : Z) :
  hexDigit r = Some x -> hexDigit g = Some y -> hexDigit b = Some z ->
  let prefix := if hash then ["#"%char] else [] in
  parseHexColor (prefix ++ [r; g; b]) = Some [17 * x; 17 * y; 17 * z; 1]
  /\ parseHexColor (prefix ++ [r; r; g; g; b; b])
     = parseHexColor (prefix ++ [r; g; b]).
Proof.
  intros Hr Hg Hb prefix.
  assert (Hnr : r <> "#"%char) by (intros ->; discriminate Hr).
  assert (Hshort : dropHash (prefix ++ [r; g; b]) = [r; g; b]).
  { destruct hash; cbn; [reflexivity|].
    destruct r as [[] [] [] [] [] [] [] []]; try reflexivity.
    contradiction Hnr. reflexivity. }
  assert (Hlong : dropHash (prefix ++ [r; r; g; g; b; b]) = [r; r; g; g; b; b]).
  { destruct hash; cbn; [reflexivity|].
    destruct r as [[] [] [] [] [] [] [] []]; try reflexivity.
    contradiction Hnr. reflexivity. }
  assert (Hd : dropHash [r; r; g; g; b; b] = [r; r; g; g; b; b]).
  { destruct r as [[] [] [] [] [] [] [] []]; try reflexivity.
    contradiction Hnr. reflexivity. }
  assert (H1 : parseHexColor (prefix ++ [r; g; b])
               = Some [17 * x; 17 * y; 17 * z; 1]).
  { unfold parseHexColor, expandHex. rewrite Hshort.
    unfold isHex. rewrite Hr, Hg, Hb. cbn [andb]. rewrite Hd.
    unfold parseInt16. rewrite Hr, Hg, Hb.
    repeat f_equal; lia. }
  split; [exact H1|]. rewrite H1.
  unfold parseHexColor, expandHex. rewrite Hlong. rewrite Hlong.
  unfold parseInt16. rewrite Hr, Hg, Hb. repeat f_equal; lia.
Qed.

(** X28. When [parseHexColor] returns a colour, its three channels are
    between 0 and 255 and its alpha is 1. *)
Theorem parseHexColor_channels (value : list ascii) (l : list Z) :
  parseHexColor value = Some l ->
  exists r g b, l = [r; g; b; 1]
                /\ 0 <= r <= 255 /\ 0 <= g <= 255 /\ 0 <= b <= 255.
Proof.
  unfold parseHexColor. intros H.
  destruct (dropHash (expandHex value)) as [|r1 [|r2 [|g1 [|g2 [|b1 [|b2 [|]]]]]]];
    try discriminate H.
  unfold parseInt16 in H.
  destruct (hexDigit r1) as [a1|] eqn:E1; [|discriminate H].
  destruct (hexDigit r2) as [a2|] eqn:E2; [|discriminate H].
  destruct (hexDigit g1) as [a3|] eqn:E3; [|discriminate H].
  destruct (hexDigit g2) as [a4|] eqn:E4; [|discriminate H].
  destruct (hexDigit b1) as [a5|] eqn:E5; [|discriminate H].
  destruct (hexDigit b2) as [a6|] eqn:E6; [|discriminate H].
  injection H as <-.
  apply hexDigit_range in E1, E2, E3, E4, E5, E6.
  eexists _, _, _. split; [reflexivity|]. lia.
Qed.

Lemma hue2rgb_range (p q t : Q) :
  (-1 <= t)%Q ->
  (Qmin p q <= hue2rgb p q t <= Qmax p q)%Q.
Proof.
  intros Ht.
  assert (Hmin1 : (Qmin p q <= p)%Q) by apply Q.le_min_l.
  assert (Hmin2 : (Qmin p q <= q)%Q) by apply Q.le_min_r.
  assert (Hmax1 : (p <= Qmax p q)%Q) by apply Q.le_max_l.
  assert (Hmax2 : (q <= Qmax p q)%Q) by apply Q.le_max_r.
  assert (Hcomb : forall k, (0 <= k)%Q -> (k <= 1)%Q ->
            (Qmin p q <= p + (q - p) * k <= Qmax p q)%Q).
  { intros k Hk0 Hk1.
    destruct (Qlt_le_dec p q) as [Hpq | Hqp].
    - assert ((0 <= (q - p) * k)%Q) by (apply Qmult_le_0_compat; lra).
      assert (((q - p) * k <= (q - p) * 1)%Q)
        by (rewrite !(Qmult_comm (q - p)); apply Qmult_le_compat_r; lra).
      lra.
    - assert ((0 <= (p - q) * k)%Q) by (apply Qmult_le_0_compat; lra).
      assert (((p - q) * k <= (p - q) * 1)%Q)
        by (rewrite !(Qmult_comm (p - q)); apply Qmult_le_compat_r; lra).
      assert (((q - p) * k == - ((p - q) * k))%Q) by ring.
      lra. }
  unfold hue2rgb.
  set (t1 := if Qltb t 0 then (t + 1)%Q else t).
  assert (H1 : (0 <= t1)%Q).
  { unfold t1. destruct (Qltb t 0) eqn:E; [lra | apply Qltb_ge in E; exact E]. }
  set (t2 := if Qltb 1 t1 then (t1 - 1)%Q else t1).
  assert (H2 : (0 <= t2)%Q).
  { unfold t2. destruct (Qltb 1 t1) eqn:E; [apply Qltb_lt in E; lra | exact H1]. }
  clearbody t2. clear t1 H1.
  destruct (Qltb t2 (1 # 6)) eqn:E1.
  { apply Qltb_lt in E1.
    assert (Heq : (p + (q - p) * 6 * t2 == p + (q - p) * (6 * t2))%Q) by ring.
    rewrite Heq. apply Hcomb; lra. }
  destruct (Qltb t2 (1 # 2)) eqn:E2; [split; assumption|].
  destruct (Qltb t2 (2 # 3)) eqn:E3; [|split; assumption].
  apply Qltb_ge in E2. apply Qltb_lt in E3.
  assert (Heq : (p + (q - p) * ((2 # 3) - t2) * 6
                 == p + (q - p) * (((2 # 3) - t2) * 6))%Q) by ring.
  rewrite Heq. apply Hcomb; lra.
Qed.

(** X29. For [t >= -1], [hue2rgb(p, q, t)], computed on rationals, lies
    between [p] and [q]. *)
Theorem hue2rgb_between (p q t : Q) :
  (-1 <= t)%Q ->
  (Qmin p q <= hue2rgb p q t <= Qmax p q)%Q.
Proof. apply hue2rgb_range. Qed.

Lemma scale_255 (x lo hi : Q) :
  (0 <= lo)%Q -> (hi <= 1)%Q -> (lo <= x <= hi)%Q -> (0 <= x * 255 <= 255)%Q.
Proof. intros H0 H1 [Hl Hh]. lra. Qed.

(** X30. For a saturation and a lightness of at most 100 percent, the three
    channels [parseHslColor] computes, on rationals, are between 0 and 255;
    without saturation they are equal. *)
Theorem parseHslColor_channels (h s l : Z) (a : Q) :
  0 <= h -> 0 <= s <= 100 -> 0 <= l <= 100 ->
  exists r g b,
    parseHslColor h s l a = [r; g; b; a]
    /\ (0 <= r <= 255)%Q /\ (0 <= g <= 255)%Q /\ (0 <= b <= 255)%Q
    /\ (s = 0 -> r = g /\ g = b).
Proof.
  intros Hh [Hs0 Hs1] [Hl0 Hl1]. unfold parseHslColor.
  set (hq := (inject_Z h / 360)%Q).
  set (sq := (inject_Z s / 100)%Q).
  set (lq := (inject_Z l / 100)%Q).
  assert (Hhq : (0 <= hq)%Q).
  { unfold hq. apply Qle_shift_div_l; [reflexivity|]. rewrite Qmult_0_l.
    change 0%Q with (inject_Z 0). rewrite <- Zle_Qle. exact Hh. }
  assert (Hsq : (0 <= sq <= 1)%Q).
  { unfold sq. split.
    - apply Qle_shift_div_l; [reflexivity|]. rewrite Qmult_0_l.
      change 0%Q with (inject_Z 0). rewrite <- Zle_Qle. exact Hs0.
    - apply Qle_shift_div_r; [reflexivity|]. rewrite Qmult_1_l.
      change 100%Q with (inject_Z 100). rewrite <- Zle_Qle. exact Hs1. }
  assert (Hlq : (0 <= lq <= 1)%Q).
  { unfold lq. split.
    - apply Qle_shift_div_l; [reflexivity|]. rewrite Qmult_0_l.
      change 0%Q with (inject_Z 0). rewrite <- Zle_Qle. exact Hl0.
    - apply Qle_shift_div_r; [reflexivity|]. rewrite Qmult_1_l.
      change 100%Q with (inject_Z 100). rewrite <- Zle_Qle. exact Hl1. }
  destruct (Qeq_bool sq 0) eqn:Es.
  - exists (lq * 255)%Q, (lq * 255)%Q, (lq * 255)%Q.
    split; [reflexivity|].
    assert (Hc : (0 <= lq * 255 <= 255)%Q) by lra.
    repeat split; try apply Hc.
  - assert (Hne : s <> 0).
    { intros ->. unfold sq in Es. discriminate Es. }
    clearbody hq sq lq.
    assert (Hls0 : (0 <= lq * sq)%Q) by (apply Qmult_le_0_compat; lra).
    assert (Hls1 : (lq * sq <= lq)%Q).
    { rewrite <- (Qmult_1_r lq) at 2.
      rewrite !(Qmult_comm lq). apply Qmult_le_compat_r; lra. }
    assert (Hls2 : (lq * sq <= sq)%Q).
    { rewrite <- (Qmult_1_l sq) at 2. apply Qmult_le_compat_r; lra. }
    set (q := if Qltb lq (1 # 2) then (lq * (1 + sq))%Q
              else (lq + sq - lq * sq)%Q).
    set (p := (2 * lq - q)%Q).
    assert (Hpq : (0 <= p <= 1)%Q /\ (0 <= q <= 1)%Q).
    { unfold p, q. destruct (Qltb lq (1 # 2)) eqn:E.
      - apply Qltb_lt in E.
        assert (Heq : (lq * (1 + sq) == lq + lq * sq)%Q) by ring.
        rewrite Heq. split; split; lra.
      - apply Qltb_ge in E.
        assert (H3 : (0 <= (1 - lq) * (1 - sq))%Q)
          by (apply Qmult_le_0_compat; lra).
        assert (Heq : ((1 - lq) * (1 - sq) == 1 - lq - sq + lq * sq)%Q)
          by ring.
        rewrite Heq in H3. split; split; lra. }
    destruct Hpq as [Hp Hq].
    assert (Hmin : (0 <= Qmin p q)%Q) by (apply Q.min_glb; lra).
    assert (Hmax : (Qmax p q <= 1)%Q) by (apply Q.max_lub; lra).
    clearbody p q.
    eexists _, _, _. split; [reflexivity|].
    split; [|split; [|split]].
    + apply (scale_255 _ _ _ Hmin Hmax). apply hue2rgb_range. lra.
    + apply (scale_255 _ _ _ Hmin Hmax). apply hue2rgb_range. lra.
    + apply (scale_255 _ _ _ Hmin Hmax). apply hue2rgb_range. lra.
    + intros ?. contradiction.
Qed.

End ColorFacts.

(** ** Settings, next markers and completion *)

Section Settings.
Import TimeLine.

(** X23. Two calls of [defaults] amount to one call with the keys of both, the
    later call winning. *)
Theorem defaults_compose (p1 p2 : AnimateParams) (clk : Clock) (w : World) :
  (defaults p1 ;;; defaults p2) clk w = defaults (spread p1 p2) clk w.
Proof.
  unfold defaults, bind, modify, spread. cbn.
  destruct p1 as [t1 d1 dl1 r1 s1], p2 as [t2 d2 dl2 r2 s2]. cbn.
  destruct t2, d2, dl2, r2, s2; reflexivity.
Qed.

End Settings.

Section NextMarker.
Import TimeLine.


End NextMarker.

Section Completion.
Import TimeLine.

Lemma countRunning_pure (fuel : nat) (ae : option EntityId) (count : Z)
    (allReleased : bool) (clk clk' : Clock) (w w' : World) :
  entities w' = entities w ->
  countRunning fuel ae count allReleased clk' w'
  = match countRunning fuel ae count allReleased clk w with
    | Ok r _ => Ok r w'
    | Throw msg _ => Throw msg w'
    | Diverge => Diverge
    | Stuck => Stuck
    end.
Proof.
  intros He. revert ae count allReleased.
  induction fuel as [|fuel IH]; intros [i|] count allReleased; cbn;
    try reflexivity.
  unfold bind. rewrite !getEntity_eq, He.
  destruct (entities w !! i) as [e|]; [apply IH | reflexivity].
Qed.

Lemma checkState_eq (clk : Clock) (w : World) :
  checkState clk w
  = if released w && done w then Ok tt w
    else if tlFunctionComplete w && lastTargetForward clk then
      match countRunning (entityFuel w) (rList w) 0 true clk w with
      | Ok r _ => Ok tt (afterCheck clk r w)
      | Throw msg w' => Throw msg w'
      | Diverge => Diverge
      | Stuck => Stuck
      end
    else Ok tt w.
Proof.
  unfold checkState. unfold bind at 1 2. unfold get, clock.
  destruct (released w && done w); [reflexivity|].
  destruct (tlFunctionComplete w && lastTargetForward clk); [|reflexivity].
  cbn [when]. unfold bind at 1.
  pose proof (countRunning_pure (entityFuel w) (rList w) 0 true clk clk w w
                eq_refl) as Hp.
  destruct (countRunning (entityFuel w) (rList w) 0 true clk w)
    as [[count allReleased] w0| | |] eqn:Ecount; try reflexivity.
  injection Hp as ->.
  unfold afterCheck. cbn [fst snd].
  unfold bind, when, modify, get, emit, ret.
  destruct allReleased; cbn.
  - destruct (releaseCb w) as [cb|]; cbn;
      destruct (count =? 0); cbn; try reflexivity;
      destruct (doneCb w) as [cb2|]; reflexivity.
  - destruct (count =? 0); cbn; try reflexivity.
    destruct (doneCb w) as [cb2|]; reflexivity.
Qed.

Lemma afterCheck_again (clk : Clock) (r : Z * bool) (w : World) :
  afterCheck clk r (afterCheck clk r w) = afterCheck clk r w.
Proof.
  destruct r as [count allReleased]. unfold afterCheck. cbn [fst snd].
  destruct w. destruct allReleased, releaseCb0, (count =? 0), doneCb0;
    reflexivity.
Qed.

(** X18. [checkState] run again right after itself changes nothing: the
    release and done callbacks of the timeline are called once. *)
Theorem checkState_again (clk : Clock) (w w1 : World) :
  checkState clk w = Ok tt w1 -> checkState clk w1 = Ok tt w1.
Proof.
  rewrite checkState_eq.
  destruct (released w && done w) eqn:Erd.
  { intros H. injection H as <-. rewrite checkState_eq, Erd. reflexivity. }
  destruct (tlFunctionComplete w && lastTargetForward clk) eqn:Ec.
  2:{ intros H. injection H as <-. rewrite checkState_eq, Erd, Ec.
      reflexivity. }
  destruct (countRunning (entityFuel w) (rList w) 0 true clk w)
    as [[count allReleased] w0| | |] eqn:Ecount; try discriminate.
  intros H. injection H as <-.
  rewrite checkState_eq.
  set (w1 := afterCheck clk (count, allReleased) w).
  assert (He : entities w1 = entities w /\ rList w1 = rList w
               /\ tlFunctionComplete w1 = tlFunctionComplete w).
  { unfold w1, afterCheck. cbn [fst snd].
    destruct allReleased; [destruct (releaseCb w)|];
      destruct (count =? 0); cbn;
      repeat match goal with
             | |- context [match ?x with _ => _ end] => destruct x
             end; auto. }
  destruct He as (He & Hr & Hc).
  destruct (released w1 && done w1); [reflexivity|].
  rewrite Hc, Ec.
  unfold entityFuel. rewrite He, Hr.
  rewrite (countRunning_pure _ _ _ _ clk clk w w1 He).
  fold (entityFuel w). rewrite Ecount. f_equal.
  apply afterCheck_again.
Qed.

End Completion.

(** ** What the stores keep *)

Section Growth.
Import TimeLine.

Lemma sameTiming_refl e : sameTiming e e.
Proof. unfold sameTiming. repeat split. Qed.

Lemma sameTiming_trans e1 e2 e3 :
  sameTiming e1 e2 -> sameTiming e2 e3 -> sameTiming e1 e3.
Proof. unfold sameTiming. intuition congruence. Qed.

Lemma entityKept_refl e : entityKept e e.
Proof. split; [reflexivity|]. intros H. split; [exact H | apply sameTiming_refl]. Qed.

Lemma entityKept_trans e1 e2 e3 :
  entityKept e1 e2 -> entityKept e2 e3 -> entityKept e1 e3.
Proof.
  intros [K1 H1] [K2 H2]. split; [congruence|].
  intros H. destruct (H1 H) as [R1 T1]. destruct (H2 R1) as [R2 T2].
  split; [exact R2 | eapply sameTiming_trans; eassumption].
Qed.

Lemma listKept_refl l : listKept l l.
Proof. destruct l as [xs|]; cbn; [exists []; rewrite app_nil_r; reflexivity | exact I]. Qed.

Lemma listKept_trans l1 l2 l3 : listKept l1 l2 -> listKept l2 l3 -> listKept l1 l3.
Proof.
  destruct l1 as [xs|]; cbn; [|auto]. intros [ys ->]. cbn.
  intros [zs ->]. exists (ys ++ zs). rewrite app_assoc. reflexivity.
Qed.

Lemma listKept_push l x : listKept l (AnimMarker.push l x).
Proof. destruct l as [xs|]; cbn; [exists [x]; reflexivity | exact I]. Qed.

Lemma markerKept_refl m : markerKept m m.
Proof. split; [reflexivity|]. split; apply listKept_refl. Qed.

Lemma markerKept_trans m1 m2 m3 :
  markerKept m1 m2 -> markerKept m2 m3 -> markerKept m1 m3.
Proof.
  intros (T1 & S1 & E1) (T2 & S2 & E2). split; [congruence|].
  split; eapply listKept_trans; eassumption.
Qed.

Lemma grows_refl w : grows w w.
Proof.
  split; intros i x H; exists x; split; auto using entityKept_refl, markerKept_refl.
Qed.

Lemma grows_trans w1 w2 w3 : grows w1 w2 -> grows w2 w3 -> grows w1 w3.
Proof.
  intros [E1 M1] [E2 M2]. split.
  - intros i e H. destruct (E1 i e H) as (e2 & H2 & K2).
    destruct (E2 i e2 H2) as (e3 & H3 & K3). exists e3.
    split; [exact H3 | eapply entityKept_trans; eassumption].
  - intros i m H. destruct (M1 i m H) as (m2 & H2 & K2).
    destruct (M2 i m2 H2) as (m3 & H3 & K3). exists m3.
    split; [exact H3 | eapply markerKept_trans; eassumption].
Qed.

Lemma grows_same w w' :
  entities w' = entities w -> markers w' = markers w -> grows w w'.
Proof.
  intros He Hm. split; intros i x H; exists x.
  - rewrite He. split; [exact H | apply entityKept_refl].
  - rewrite Hm. split; [exact H | apply markerKept_refl].
Qed.

Lemma keeps_ret {A : Type} (a : A) : keeps (ret a).
Proof. intros clk w. apply grows_refl. Qed.

Lemma keeps_bind {A B : Type} (m : E A) (k : A -> E B) :
  keeps m -> (forall a, keeps (k a)) -> keeps (bind m k).
Proof.
  intros Hm Hk clk w. unfold bind. specialize (Hm clk w).
  destruct (m clk w) as [a w1| | |]; try exact I.
  specialize (Hk a clk w1). destruct (k a clk w1); try exact I.
  eapply grows_trans; eassumption.
Qed.

Lemma keeps_get : keeps get.
Proof. intros clk w. apply grows_refl. Qed.

Lemma keeps_clock : keeps clock.
Proof. intros clk w. apply grows_refl. Qed.

Lemma keeps_stuck {A : Type} : keeps (@stuck A).
Proof. intros clk w. exact I. Qed.

Lemma keeps_diverge {A : Type} : keeps (@diverge A).
Proof. intros clk w. exact I. Qed.

Lemma keeps_throw {A : Type} msg : keeps (@throw A msg).
Proof. intros clk w. exact I. Qed.

Lemma keeps_modify (f : World -> World) :
  (forall w, grows w (f w)) -> keeps (modify f).
Proof. intros Hf clk w. apply Hf. Qed.

Lemma keeps_when (b : bool) (m : E unit) : keeps m -> keeps (when b m).
Proof. intros Hm. destruct b; [exact Hm | apply keeps_ret]. Qed.

Lemma grows_setEntity (w : World) (i : EntityId) (e e' : TimelineEntity.t) :
  entities w !! i = Some e -> entityKept e e' ->
  grows w (set_entities (<[i := e']> (entities w)) w).
Proof.
  intros Hi Hk. split.
  - intros j x Hj. cbn. destruct (Nat.eq_dec i j) as [->|Hne].
    + exists e'. split.
      * apply list_lookup_insert_eq. apply lookup_lt_is_Some. eauto.
      * assert (Some x = Some e) as Heq
          by (transitivity (entities w !! j); [symmetry; exact Hj | exact Hi]).
        injection Heq as ->. exact Hk.
    + exists x. rewrite list_lookup_insert_ne by exact Hne.
      split; [exact Hj | apply entityKept_refl].
  - intros j m Hj. exists m. split; [exact Hj | apply markerKept_refl].
Qed.

Lemma grows_setMarker (w : World) (i : MarkerId) (m m' : AnimMarker.t) :
  markers w !! i = Some m -> markerKept m m' ->
  grows w (set_markers (<[i := m']> (markers w)) w).
Proof.
  intros Hi Hk. split.
  - intros j e Hj. exists e. split; [exact Hj | apply entityKept_refl].
  - intros j x Hj. cbn. destruct (Nat.eq_dec i j) as [->|Hne].
    + exists m'. split.
      * apply list_lookup_insert_eq. apply lookup_lt_is_Some. eauto.
      * assert (Some x = Some m) as Heq
          by (transitivity (markers w !! j); [symmetry; exact Hj | exact Hi]).
        injection Heq as ->. exact Hk.
    + exists x. rewrite list_lookup_insert_ne by exact Hne.
      split; [exact Hj | apply markerKept_refl].
Qed.

Lemma keeps_updEntity (i : EntityId) (f : TimelineEntity.t -> TimelineEntity.t) :
  (forall e, entityKept e (f e)) -> keeps (updEntity i f).
Proof.
  intros Hf clk w. unfold updEntity. unfold bind. rewrite getEntity_eq.
  destruct (entities w !! i) as [e|] eqn:Hi; [|exact I].
  unfold setEntity, modify.
  apply (grows_setEntity w i e (f e) Hi (Hf e)).
Qed.

Lemma keeps_getset {A : Type} (i : EntityId)
    (g : TimelineEntity.t -> TimelineEntity.t) (k : TimelineEntity.t -> E A) :
  (forall e, entityKept e (g e)) -> (forall e, keeps (k e)) ->
  keeps (e <- getEntity i ;; (setEntity i (g e) ;;; k e)).
Proof.
  intros Hg Hk clk w. unfold bind at 1. rewrite getEntity_eq.
  destruct (entities w !! i) as [e|] eqn:Hi; [|exact I].
  unfold bind, setEntity, modify.
  specialize (Hk e clk (set_entities (<[i := g e]> (entities w)) w)).
  destruct (k e clk _); try exact I.
  eapply grows_trans; [|exact Hk].
  apply (grows_setEntity w i e (g e) Hi (Hg e)).
Qed.

Lemma keeps_updMarker (i : MarkerId) (f : AnimMarker.t -> AnimMarker.t) :
  (forall m, markerKept m (f m)) -> keeps (updMarker i f).
Proof.
  intros Hf clk w. unfold updMarker. unfold bind. rewrite getMarkerObj_eq.
  destruct (markers w !! i) as [m|] eqn:Hi; [|exact I].
  unfold modify.
  apply (grows_setMarker w i m (f m) Hi (Hf m)).
Qed.

Lemma keeps_allocEntity e : keeps (allocEntity e).
Proof.
  intros clk w. unfold allocEntity, bind, get, modify, ret. cbn. split.
  - intros i x Hi. exists x. cbn.
    rewrite lookup_app_l by (apply lookup_lt_is_Some; eauto).
    split; [exact Hi | apply entityKept_refl].
  - intros i m Hi. exists m. split; [exact Hi | apply markerKept_refl].
Qed.

Lemma keeps_allocMarker m : keeps (allocMarker m).
Proof.
  intros clk w. unfold allocMarker, bind, get, modify, ret. cbn. split.
  - intros i x Hi. exists x. split; [exact Hi | apply entityKept_refl].
  - intros i x Hi. exists x. cbn.
    rewrite lookup_app_l by (apply lookup_lt_is_Some; eauto).
    split; [exact Hi | apply markerKept_refl].
Qed.

End Growth.

Create HintDb keeps discriminated.
#[local] Hint Resolve keeps_ret keeps_get keeps_clock keeps_stuck
  keeps_diverge keeps_throw keeps_allocEntity keeps_allocMarker : keeps.

Ltac kept :=
  first
    [ apply entityKept_refl
    | apply markerKept_refl
    | solve [ unfold entityKept, sameTiming, TimelineEntity.markDone,
                TimelineEntity.markReleased;
              intros; cbn;
              repeat match goal with
                     | |- context [if ?c then _ else _] => destruct c
                     | |- context [match ?c with _ => _ end] => destruct c
                     end; cbn; repeat split; auto ]
    | solve [ unfold markerKept; cbn; repeat split;
              auto using listKept_refl, listKept_push ] ].

Ltac keeps_step :=
  match goal with
  | |- keeps (TimeLine.bind _ _) => apply keeps_bind; [|intros ?]
  | |- keeps (TimeLine.when _ _) => apply keeps_when
  | |- keeps (TimeLine.modify _) =>
      apply keeps_modify; intros ?; apply grows_same; reflexivity
  | |- keeps (TimeLine.updEntity _ _) =>
      apply keeps_updEntity; intros ?; kept
  | |- keeps (TimeLine.updMarker _ _) =>
      apply keeps_updMarker; intros ?; kept
  | |- keeps (match ?x with _ => _ end) => destruct x
  | |- keeps (let '(_, _) := ?x in _) => destruct x
  | |- keeps _ => solve [auto with keeps]
  end.

Ltac keeps_auto := repeat keeps_step.

Section GrowthMethods.
Import TimeLine.

Lemma keeps_emit ev : keeps (emit ev).
Proof. unfold emit. keeps_auto. Qed.

Lemma keeps_bumpCounter : keeps bumpCounter.
Proof. unfold bumpCounter. keeps_auto. Qed.

Lemma keeps_getEntity i : keeps (getEntity i).
Proof. unfold getEntity. keeps_auto. Qed.

Lemma keeps_getMarkerObj i : keeps (getMarkerObj i).
Proof. unfold getMarkerObj. keeps_auto. Qed.

Hint Resolve keeps_emit keeps_bumpCounter keeps_getEntity keeps_getMarkerObj
  : keeps.

Lemma keeps_getMarkerFrom fuel time forward cur :
  keeps (getMarkerFrom fuel time forward cur).
Proof.
  revert cur. induction fuel as [|fuel IH]; intros [c|]; cbn; keeps_auto.
Qed.

Hint Resolve keeps_getMarkerFrom : keeps.

Lemma keeps_getMarker time : keeps (getMarker time).
Proof. unfold getMarker. keeps_auto. Qed.

Lemma keeps_insertAfter time cur : keeps (insertAfter time cur).
Proof. unfold insertAfter. keeps_auto. Qed.

Lemma keeps_insertBefore time cur : keeps (insertBefore time cur).
Proof. unfold insertBefore. keeps_auto. Qed.

Hint Resolve keeps_getMarker keeps_insertAfter keeps_insertBefore : keeps.

Lemma keeps_createMarkerFrom fuel time cur :
  keeps (createMarkerFrom fuel time cur).
Proof.
  revert cur. induction fuel as [|fuel IH]; intros cur; cbn; keeps_auto.
Qed.

Hint Resolve keeps_createMarkerFrom : keeps.

Lemma keeps_createMarker time : keeps (createMarker time).
Proof. unfold createMarker. keeps_auto. Qed.

Hint Resolve keeps_createMarker : keeps.

Lemma keeps_unlink fuel ae entity : keeps (unlink fuel ae entity).
Proof.
  revert entity. induction fuel as [|fuel IH]; intros [i|]; cbn; keeps_auto.
Qed.

Hint Resolve keeps_unlink : keeps.

Lemma keeps_removeEntity ae : keeps (removeEntity ae).
Proof. unfold removeEntity. keeps_auto. Qed.

Hint Resolve keeps_removeEntity : keeps.

Lemma keeps_checkDoneAndRelease id time forward :
  keeps (checkDoneAndRelease id time forward).
Proof.
  unfold checkDoneAndRelease.
  apply keeps_bind; [keeps_auto|]. intros _.
  apply keeps_bind; [keeps_auto|]. intros e.
  apply keeps_bind; [keeps_auto|]. intros _.
  apply (keeps_getset id (fun e => fst (TimelineEntity.markReleased time e))
           (fun e => match snd (TimelineEntity.markReleased time e) with
                     | Some cb => emit (Resolved cb)
                     | None => ret tt
                     end)).
  - intros e0. kept.
  - intros e0. keeps_auto.
Qed.

Hint Resolve keeps_checkDoneAndRelease : keeps.

Lemma keeps_entityDisplayFrame id time targetTime forward :
  keeps (entityDisplayFrame id time targetTime forward).
Proof. unfold entityDisplayFrame. keeps_auto. Qed.

Hint Resolve keeps_entityDisplayFrame : keeps.

Lemma keepsAt_get {A : Type} (i : EntityId) (k : TimelineEntity.t -> E A) :
  (forall e, keepsAt i e (k e)) -> keeps (e <- getEntity i ;; k e).
Proof.
  intros Hk clk w. unfold bind. rewrite getEntity_eq.
  destruct (entities w !! i) as [e|] eqn:Hi; [|exact I].
  apply (Hk e clk w Hi).
Qed.

Lemma keepsAt_bind {A B : Type} (i : EntityId) (e : TimelineEntity.t)
    (m : E A) (k : A -> E B) :
  keepsAt i e m -> (forall a, keeps (k a)) -> keepsAt i e (bind m k).
Proof.
  intros Hm Hk clk w Hi. unfold bind. specialize (Hm clk w Hi).
  destruct (m clk w) as [a w1| | |]; try exact I.
  specialize (Hk a clk w1). destruct (k a clk w1); try exact I.
  eapply grows_trans; eassumption.
Qed.

Lemma keepsAt_keeps {A : Type} (i : EntityId) (e : TimelineEntity.t)
    (m : E A) : keeps m -> keepsAt i e m.
Proof. intros H clk w _. apply H. Qed.

Lemma keepsAt_unregistered (i : EntityId) (e : TimelineEntity.t)
    (f : TimelineEntity.t -> TimelineEntity.t) :
  TimelineEntity.startRegistered e = false ->
  TimelineEntity.kind (f e) = TimelineEntity.kind e ->
  keepsAt i e (updEntity i f).
Proof.
  intros Hr Hk clk w Hi. unfold updEntity. unfold bind.
  rewrite getEntity_eq.
  match goal with
  | |- context [match ?l with _ => _ end] =>
      assert (Hl : l = Some e) by exact Hi; rewrite Hl
  end.
  unfold setEntity, modify.
  apply (grows_setEntity w i e (f e) Hi). split; [exact Hk|].
  intros H. congruence.
Qed.

Lemma init_kind start e :
  TimelineEntity.kind (TimelineEntity.init start e) = TimelineEntity.kind e.
Proof.
  rewrite init_fields. cbv zeta.
  destruct (0 <=? TimelineEntity.duration e); reflexivity.
Qed.

Lemma keeps_addEntity ae : keeps (addEntity ae).
Proof.
  unfold addEntity.
  apply keeps_bind; [keeps_auto|]. intros _.
  apply keeps_bind; [keeps_auto|]. intros clk0.
  apply keepsAt_get. intros e.
  apply keepsAt_bind; [|intros _; keeps_auto].
  destruct (TimelineEntity.startRegistered e) eqn:Hr; cbn [negb when].
  - apply keepsAt_keeps. keeps_auto.
  - apply keepsAt_bind; [|intros _; keeps_auto].
    apply keepsAt_unregistered; [exact Hr | apply init_kind].
Qed.

Hint Resolve keeps_addEntity : keeps.

Lemma keeps_attach id : keeps (attach id).
Proof. unfold attach. keeps_auto. Qed.

Hint Resolve keeps_attach : keeps.

Lemma keeps_loadLoop index marker side starting :
  keeps (loadLoop index marker side starting).
Proof. induction index as [|index IH]; cbn; keeps_auto. Qed.

Hint Resolve keeps_loadLoop : keeps.

Lemma keeps_loadSide marker side starting :
  keeps (loadSide marker side starting).
Proof. unfold loadSide. keeps_auto. Qed.

Hint Resolve keeps_loadSide : keeps.

Lemma keeps_loadEntities time forward : keeps (loadEntities time forward).
Proof. unfold loadEntities. keeps_auto. Qed.

Lemma keeps_countRunning fuel ae count allReleased :
  keeps (countRunning fuel ae count allReleased).
Proof.
  revert ae count allReleased.
  induction fuel as [|fuel IH]; intros [i|] count allReleased; cbn; keeps_auto.
Qed.

Hint Resolve keeps_loadEntities keeps_countRunning : keeps.

Lemma keeps_checkState : keeps checkState.
Proof. unfold checkState. keeps_auto. Qed.

Hint Resolve keeps_checkState : keeps.

Lemma keeps_setTlFunctionComplete : keeps setTlFunctionComplete.
Proof. unfold setTlFunctionComplete. keeps_auto. Qed.

Lemma keeps_createTweens d dl r : keeps (createTweens d dl r).
Proof. unfold createTweens. keeps_auto. Qed.

Hint Resolve keeps_setTlFunctionComplete keeps_createTweens : keeps.

Lemma keeps_animate params : keeps (animate params).
Proof. unfold animate. keeps_auto. Qed.

Hint Resolve keeps_animate : keeps.

Lemma keeps_runCall c : keeps (runCall c).
Proof.
  destruct c; cbn [runCall]; unfold set, delay_, defaults; keeps_auto.
Qed.

Hint Resolve keeps_runCall : keeps.

Lemma keeps_runCalls cs : keeps (runCalls cs).
Proof. induction cs as [|c cs IH]; cbn; keeps_auto. Qed.

Hint Resolve keeps_runCalls : keeps.

Lemma keeps_await orc : keeps (await orc).
Proof. unfold await. keeps_auto. Qed.

Hint Resolve keeps_await : keeps.

Lemma keeps_displayRunning fuel time targetTime forward ae :
  keeps (displayRunning fuel time targetTime forward ae).
Proof.
  revert ae. induction fuel as [|fuel IH]; intros [i|]; cbn; keeps_auto.
Qed.

Hint Resolve keeps_displayRunning : keeps.

Lemma keeps_displayFrameBody time targetTime forward :
  keeps (displayFrameBody time targetTime forward).
Proof. unfold displayFrameBody. keeps_auto. Qed.

Lemma keeps_scanRunning fuel time forward ae n found :
  keeps (scanRunning fuel time forward ae n found).
Proof.
  revert ae n found.
  induction fuel as [|fuel IH]; intros [i|] n found; cbn; keeps_auto.
Qed.

Lemma keeps_scanMarkers fuel time forward cm n found :
  keeps (scanMarkers fuel time forward cm n found).
Proof.
  revert cm n found.
  induction fuel as [|fuel IH]; intros [c|] n found; cbn; keeps_auto.
Qed.

Hint Resolve keeps_displayFrameBody keeps_scanRunning keeps_scanMarkers
  : keeps.

Lemma keeps_getNextMarkerPosition time forward :
  keeps (getNextMarkerPosition time forward).
Proof. unfold getNextMarkerPosition. keeps_auto. Qed.

Lemma keeps_exhaustLoop orc fuel p : keeps (exhaustLoop orc fuel p).
Proof.
  revert p. induction fuel as [|fuel IH]; intros p; cbn; keeps_auto.
Qed.

Hint Resolve keeps_getNextMarkerPosition keeps_exhaustLoop : keeps.

Lemma keeps_exhaustAsyncPipe orc : keeps (exhaustAsyncPipe orc).
Proof. unfold exhaustAsyncPipe. keeps_auto. Qed.

(** The same for the methods that assign the clock. *)

Lemma keepsT_bindT {A B : Type} (m : T A) (k : A -> T B) :
  keepsT m -> (forall a, keepsT (k a)) -> keepsT (bindT m k).
Proof.
  intros Hm Hk clk w. unfold bindT. specialize (Hm clk w).
  destruct (m clk w) as [[a clk1] w1| | |]; try exact I.
  specialize (Hk a clk1 w1). destruct (k a clk1 w1); try exact I.
  eapply grows_trans; eassumption.
Qed.

Lemma keepsT_liftE {A : Type} (m : E A) : keeps m -> keepsT (liftE m).
Proof.
  intros H clk w. unfold liftE. specialize (H clk w).
  destruct (m clk w); try exact I. exact H.
Qed.

Lemma keepsT_retT {A : Type} (a : A) : keepsT (retT a).
Proof. intros clk w. apply grows_refl. Qed.

Lemma keepsT_setClock f : keepsT (setClock f).
Proof. intros clk w. apply grows_refl. Qed.

Lemma keepsT_getClock : keepsT getClock.
Proof. intros clk w. apply grows_refl. Qed.

Lemma keepsT_whenT b m : keepsT m -> keepsT (whenT b m).
Proof. intros H. destruct b; [exact H | apply keepsT_retT]. Qed.

Lemma keepsT_displayFrame time targetTime forward :
  keepsT (displayFrame time targetTime forward).
Proof.
  unfold displayFrame. apply keepsT_bindT; [apply keepsT_setClock|].
  intros _. apply keepsT_liftE, keeps_displayFrameBody.
Qed.

Lemma keepsT_findNextTarget orc t forward cur :
  keepsT (findNextTarget orc t forward cur).
Proof.
  unfold findNextTarget. destruct (cur <? 0).
  - apply keepsT_bindT; [apply keepsT_getClock|]. intros c.
    apply keepsT_bindT; [apply keepsT_whenT, keepsT_setClock|]. intros _.
    apply keepsT_bindT; [apply keepsT_getClock|]. intros c2.
    apply keepsT_retT.
  - apply keepsT_bindT; [apply keepsT_getClock|]. intros c.
    apply keepsT_bindT.
    { apply keepsT_whenT. apply keepsT_bindT;
        [apply keepsT_liftE, keeps_getMarker|].
      intros [mk|]; [|apply keepsT_retT].
      apply keepsT_bindT; [apply keepsT_displayFrame|]. intros _.
      apply keepsT_liftE, keeps_exhaustAsyncPipe. }
    intros _.
    apply keepsT_bindT; [apply keepsT_liftE, keeps_getNextMarkerPosition|].
    intros n. destruct ((n <? 0) || (n =? cur)).
    + apply keepsT_bindT; [apply keepsT_setClock|]. intros _.
      apply keepsT_retT.
    + destruct forward; apply keepsT_retT.
Qed.

Lemma keepsT_moveLoop orc fuel t forward manage cur :
  keepsT (moveLoop orc fuel t forward manage cur).
Proof.
  revert cur. induction fuel as [|fuel IH]; intros cur; cbn [moveLoop];
    (apply keepsT_bindT; [apply keepsT_getClock|]); intros c;
    (destruct (cur =? moveTarget c); [apply keepsT_retT|]).
  - intros clk w. exact I.
  - apply keepsT_bindT; [apply keepsT_findNextTarget|]. intros [n|v];
      [|apply keepsT_retT].
    apply keepsT_bindT; [apply keepsT_displayFrame|]. intros _.
    apply keepsT_bindT;
      [apply keepsT_whenT, keepsT_liftE, keeps_exhaustAsyncPipe|]. intros _.
    apply keepsT_bindT; [apply keepsT_getClock|]. intros c2. apply IH.
Qed.

Lemma keepsT_move orc t manage : keepsT (move orc t manage).
Proof.
  unfold move. apply keepsT_bindT; [apply keepsT_setClock|]. intros _.
  apply keepsT_bindT; [apply keepsT_getClock|]. intros c.
  destruct (t =? currentTime c); [apply keepsT_retT | apply keepsT_moveLoop].
Qed.



End GrowthMethods.

(** ** Attaching a tween group *)

Section Attach.
Import TimeLine.

Hint Resolve safe_emit safe_bumpCounter safe_getEntity safe_setEntity
  safe_updEntity safe_getMarkerObj safe_updMarker safe_allocEntity
  safe_allocMarker safe_getMarker safe_createMarker safe_removeEntity
  safe_checkDoneAndRelease safe_entityDisplayFrame safe_addEntity
  safe_attach safe_checkState : safe.

Hint Resolve keeps_emit keeps_bumpCounter keeps_getEntity keeps_getMarkerObj
  keeps_getMarker keeps_createMarker keeps_removeEntity
  keeps_checkDoneAndRelease keeps_entityDisplayFrame keeps_addEntity
  keeps_attach keeps_checkState : keeps.

Lemma keeps_Ok {A : Type} (m : E A) (clk : Clock) (w w' : World) (a : A) :
  keeps m -> m clk w = Ok a w' -> grows w w'.
Proof. intros K H. specialize (K clk w). rewrite H in K. exact K. Qed.

Lemma safe_Ok {A : Type} (m : E A) (clk : Clock) (w w' : World) (a : A) :
  safe m -> m clk w = Ok a w' -> ASYNC_COUNTER w <= ASYNC_COUNTER w'.
Proof. intros K H. specialize (K clk w). rewrite H in K. exact K. Qed.

Lemma updEntity_Ok (i : EntityId) (f : TimelineEntity.t -> TimelineEntity.t)
    (clk : Clock) (w w' : World) (e : TimelineEntity.t) :
  entities w !! i = Some e ->
  updEntity i f clk w = Ok tt w' ->
  w' = set_entities (<[i := f e]> (entities w)) w.
Proof.
  intros Hi H. unfold updEntity, bind in H. rewrite getEntity_eq in H.
  match type of H with
  | context [match ?l with _ => _ end] =>
      assert (Hl : l = Some e) by exact Hi; rewrite Hl in H
  end.
  unfold setEntity, modify in H. injection H as <-. reflexivity.
Qed.

Lemma updMarker_frame (i : MarkerId) (f : AnimMarker.t -> AnimMarker.t)
    (clk : Clock) (w w' : World) :
  updMarker i f clk w = Ok tt w' ->
  entities w' = entities w /\ ASYNC_COUNTER w' = ASYNC_COUNTER w.
Proof.
  unfold updMarker, bind. rewrite getMarkerObj_eq.
  destruct (markers w !! i) as [m|]; [|discriminate].
  unfold modify. intros H. injection H as <-. split; reflexivity.
Qed.

Lemma lookup_insert_same (l : list TimelineEntity.t) (i : EntityId)
    (e x : TimelineEntity.t) :
  l !! i = Some e -> <[i := x]> l !! i = Some x.
Proof.
  intros H. apply list_lookup_insert_eq. apply lookup_lt_is_Some. eauto.
Qed.

Lemma addEntity_fresh (id : EntityId) (e : TimelineEntity.t) (clk : Clock)
    (w w' : World) :
  entities w !! id = Some e ->
  TimelineEntity.startRegistered e = false ->
  addEntity id clk w = Ok tt w' ->
  exists e', entities w' !! id = Some e'
             /\ TimelineEntity.kind e' = TimelineEntity.kind e
             /\ TimelineEntity.startRegistered e' = true
             /\ sameTiming (TimelineEntity.init (currentTime clk) e) e'
             /\ ASYNC_COUNTER w < ASYNC_COUNTER w'.
Proof.
  intros Hi Hr H. unfold addEntity in H.
  apply bind_Ok in H. destruct H as ([] & wa & Ha & H).
  unfold bumpCounter, modify in Ha. injection Ha as <-.
  apply bind_Ok in H. destruct H as (c & wa' & Hc & H).
  unfold clock in Hc. injection Hc as <- <-.
  apply bind_Ok in H. destruct H as (ae & wa' & Hae & H).
  rewrite getEntity_eq in Hae. cbn [entities set_ASYNC_COUNTER] in Hae.
  match type of Hae with
  | context [match ?l with _ => _ end] =>
      assert (Hl : l = Some e) by exact Hi; rewrite Hl in Hae
  end.
  injection Hae as <- <-.
  apply bind_Ok in H. destruct H as ([] & we & Hreg & Hrest).
  rewrite Hr in Hreg. cbn [negb when] in Hreg.
  apply bind_Ok in Hreg. destruct Hreg as ([] & wb & Hb & Hreg).
  apply (updEntity_Ok _ _ _ _ _ e) in Hb; [|exact Hi].
  apply bind_Ok in Hreg. destruct Hreg as (marker & wc & Hm & Hreg).
  destruct (createMarker_frame _ _ _ _ _ Hm) as (_ & _ & Hec & _ & _ & Hcc).
  apply bind_Ok in Hreg. destruct Hreg as ([] & wd & Hd & Hreg).
  destruct (updMarker_frame _ _ _ _ _ Hd) as [Hed Hcd].
  set (e1 := TimelineEntity.init (currentTime clk) e) in *.
  assert (Hid : entities wd !! id = Some e1).
  { rewrite Hed, Hec, Hb. cbn [entities set_entities set_ASYNC_COUNTER].
    apply (lookup_insert_same _ _ e). exact Hi. }
  apply (updEntity_Ok _ _ _ _ _ e1) in Hreg; [|exact Hid].
  assert (Hie : entities we !! id
                = Some (TimelineEntity.set_startRegistered true e1)).
  { rewrite Hreg. cbn [entities set_entities].
    apply (lookup_insert_same _ _ e1). exact Hid. }
  assert (Hce : ASYNC_COUNTER we = ASYNC_COUNTER w + 1).
  { rewrite Hreg. cbn [ASYNC_COUNTER set_entities]. rewrite Hcd, Hcc, Hb.
    reflexivity. }
  cbv beta in Hrest.
  match type of Hrest with
  | ?m clk we = _ =>
      assert (Hk : keeps m) by keeps_auto;
      assert (Hs : safe m) by safe_auto
  end.
  pose proof (keeps_Ok _ _ _ _ _ Hk Hrest) as [Hg _].
  pose proof (safe_Ok _ _ _ _ _ Hs Hrest) as Hcnt.
  destruct (Hg id _ Hie) as (e' & He' & Hkind & Hfrozen).
  destruct (Hfrozen eq_refl) as [Hreg' Htime].
  exists e'. split; [exact He'|]. split.
  { rewrite Hkind. cbn. unfold e1. apply init_kind. }
  split; [exact Hreg'|]. split; [exact Htime | lia].
Qed.

Lemma createTweens_attaches (d dl r : Z) (clk : Clock) (w w' : World)
    (tween : EntityId) :
  createTweens d dl r clk w = Ok tween w' ->
  tween = length (entities w)
  /\ exists e', entities w' !! tween = Some e'
                /\ TimelineEntity.kind e' = TimelineEntity.TweenGroup
                /\ TimelineEntity.startRegistered e' = true
                /\ sameTiming (TimelineEntity.init (currentTime clk)
                                 (TimelineEntity.newTweenGroup d dl r)) e'
                /\ ASYNC_COUNTER w < ASYNC_COUNTER w'.
Proof.
  intros H. unfold createTweens in H.
  apply bind_Ok in H. destruct H as (id & w0 & Ha & H).
  unfold allocEntity, bind, get, modify, ret in Ha. injection Ha as <- <-.
  apply bind_Ok in H. destruct H as ([] & w1 & Hat & H).
  unfold ret in H. injection H as <- <-. split; [reflexivity|].
  set (new := TimelineEntity.newTweenGroup d dl r) in *.
  set (id := length (entities w)) in *.
  assert (Hnew : (entities w ++ [new]) !! id = Some new).
  { rewrite lookup_app_r by (unfold id; lia).
    unfold id. rewrite Nat.sub_diag. reflexivity. }
  unfold attach in Hat. apply bind_Ok in Hat.
  destruct Hat as (e0 & w0 & He0 & Hat).
  rewrite getEntity_eq in He0. cbn [entities set_entities] in He0.
  match type of He0 with
  | context [match ?l with _ => _ end] =>
      assert (Hl : l = Some new) by exact Hnew; rewrite Hl in He0
  end.
  injection He0 as <- <-.
  change (TimelineEntity.parent new) with false in Hat.
  cbn [negb when] in Hat.
  apply bind_Ok in Hat. destruct Hat as ([] & w2 & Hp & Hadd).
  apply (updEntity_Ok _ _ _ _ _ new) in Hp; [|exact Hnew].
  assert (Hid : entities w2 !! id
                = Some (TimelineEntity.set_parent true new)).
  { rewrite Hp. cbn [entities set_entities].
    apply (lookup_insert_same _ _ new). exact Hnew. }
  destruct (addEntity_fresh id _ clk w2 w1 Hid eq_refl Hadd)
    as (e' & He' & Hk & Hr & Ht & Hc).
  exists e'. split; [exact He'|]. split; [rewrite Hk; reflexivity|].
  split; [exact Hr|]. split.
  - eapply sameTiming_trans; [|exact Ht].
    unfold sameTiming.
    rewrite (init_fields new), (init_fields (TimelineEntity.set_parent true new)).
    cbv zeta. cbn [TimelineEntity.delay TimelineEntity.duration
                   TimelineEntity.release TimelineEntity.set_parent].
    destruct (0 <=? TimelineEntity.duration new); repeat split.
  - rewrite Hp in Hc. exact Hc.
Qed.


End Attach.

(** ** Instances *)


Lemma progression_bounds_witness :
  0 <= TimelineEntity.duration tween32
  /\ 0 <= 8 <= TimelineEntity.duration (TimelineEntity.init 0 tween32).
Proof.
  split; [cbn; lia|].
  apply (progression_bounds tween32 0 24 24 true 8); [cbn; lia | reflexivity].
Defined.

Lemma progression_ends_witness :
  0 <= TimelineEntity.duration tween32
  /\ TimelineEntity.progression (TimelineEntity.init 0 tween32) 48 100 true
     = Some 32.
Proof.
  split; [cbn; lia|].
  destruct (progression_ends tween32 0 100) as [H _]; [cbn; lia|].
  apply H. vm_compute. discriminate.
Defined.

Lemma release_fires_once_witness :
  (length (firedOver [0; 48; 48; 0; 48]%Z
             (TimelineEntity.set_releaseCb (Some 7%nat)
                (TimelineEntity.init 0 tween32))) <= 1)%nat.
Proof.
  apply (release_fires_once [0; 48; 48; 0; 48]%Z
           (TimelineEntity.set_releaseCb (Some 7%nat)
              (TimelineEntity.init 0 tween32))).
Defined.


Lemma childSeek_empty_cycle_witness :
  PlayerEntity.childSeek (PlayerEntity.doneCb 0 plainPlayer)
    (TimelineEntity.delayTime
       (PlayerEntity.base (PlayerEntity.doneCb 0 plainPlayer)))
  = Some PlayerEntity.MoveNaN.
Proof.
  apply (childSeek_empty_cycle plainPlayer 0);
    [discriminate | discriminate | reflexivity].
Defined.

Lemma createMarker_then_getMarker_witness :
  exists w',
    TimeLine.createMarker 0 TimeLine.newClock emptyWorld = TimeLine.Ok 0%nat w'
    /\ TimeLine.getMarker 0 TimeLine.newClock w' = TimeLine.Ok (Some 0%nat) w'.
Proof.
  eexists. split; [vm_compute; reflexivity|].
  apply (createMarker_then_getMarker 0 TimeLine.newClock emptyWorld).
  vm_compute. reflexivity.
Defined.


Lemma createMarker_keeps_witness :
  exists w',
    TimeLine.createMarker 16 TimeLine.newClock twoMarkers
    = TimeLine.Ok 2%nat w'
    /\ (length (TimeLine.markers w') <= 3)%nat.
Proof.
  destruct (TimeLine.createMarker 16 TimeLine.newClock twoMarkers)
    as [m w'| | |] eqn:E; try (vm_compute in E; discriminate E).
  assert (Hm : m = 2%nat).
  { pose proof E as E'. vm_compute in E'. injection E' as Hm _.
    symmetry. exact Hm. }
  subst m. exists w'. split; [reflexivity|].
  destruct (createMarker_keeps 16 TimeLine.newClock twoMarkers w' 2%nat E)
    as ([_ H] & _).
  exact H.
Defined.

Lemma createMarker_stale_link_witness :
  exists w',
    TimeLine.createMarker 16 TimeLine.newClock twoMarkers
    = TimeLine.Ok 2%nat w'
    /\ TimeLine.getMarkerFrom 3 16 true (Some 0%nat) TimeLine.newClock w'
       = TimeLine.Ok None w'.
Proof.
  destruct (createMarker_stale_link 16 TimeLine.newClock twoMarkers 1%nat 0%nat
              (AnimMarker.mk (Some 0%nat) None 32 None None)
              (AnimMarker.mk None (Some 1%nat) 0 None None))
    as (w' & Hrun & _ & _ & _ & Hget);
    [discriminate | reflexivity | reflexivity | reflexivity | reflexivity
    | reflexivity | cbn; lia |].
  exists w'. split; [exact Hrun | apply (Hget 1%nat)].
Defined.



Lemma exhaustAsyncPipe_idle_witness :
  TimeLine.exhaustAsyncPipe (fun _ => []) TimeLine.newClock emptyWorld
  = TimeLine.Ok tt (TimeLine.set_ticks 2 emptyWorld).
Proof.
  apply (exhaustAsyncPipe_idle (fun _ => []) TimeLine.newClock emptyWorld);
    [cbn; lia | reflexivity | reflexivity].
Defined.

Lemma delay_dropped_witness :
  TimeLine.delay_ (JS.Fin 7) TimeLine.newClock emptyWorld
  = TimeLine.Ok tt emptyWorld.
Proof.
  apply (delay_dropped 7 1 TimeLine.newClock emptyWorld);
    reflexivity.
Defined.


Lemma nextTimeTick_never_negative_witness :
  (0 <= nextTimeTick 8 false 1)%Q /\ nextTimeTick (-1) true 1 = 0%Q.
Proof.
  destruct (nextTimeTick_never_negative 8 false 1) as [H _].
  destruct (nextTimeTick_never_negative (-1) true 1) as (_ & H2 & _).
  split; [exact H | apply H2; reflexivity].
Defined.

Lemma random_within_witness : 1 <= random (1 # 2) 1 6 <= 6.
Proof.
  apply (random_within (1 # 2) 1 6); [discriminate | reflexivity | lia].
Defined.

Lemma easing_input_within_witness :
  (0 <= Tween.progression (TimelineEntity.duration tween32) 8 <= 1)%Q.
Proof.
  apply (easing_input_within tween32 0 24 24 true 8);
    [cbn; lia | reflexivity].
Defined.

Lemma stringToHyphens_idempotent_witness :
  isAscii borderColor
  /\ Css.stringToHyphens borderColor = border_color
  /\ Css.stringToHyphens border_color = border_color.
Proof.
  assert (Ha : isAscii borderColor).
  { unfold isAscii, borderColor. cbn.
    repeat (constructor; [reflexivity|]). constructor. }
  split; [exact Ha|]. split; [reflexivity|].
  destruct (stringToHyphens_idempotent borderColor Ha) as (_ & H & _).
  exact H.
Defined.

Lemma parseHexColor_short_witness :
  Color.parseHexColor (list_ascii_of_string "#fa0") = Some [255; 170; 0; 1]
  /\ Color.parseHexColor (list_ascii_of_string "#ffaa00")
     = Color.parseHexColor (list_ascii_of_string "#fa0").
Proof.
  apply (parseHexColor_short true "f"%char "a"%char "0"%char 15 10 0);
    reflexivity.
Defined.

Lemma parseHexColor_channels_witness :
  exists r g b,
    [255; 136; 0; 1] = [r; g; b; 1]
    /\ 0 <= r <= 255 /\ 0 <= g <= 255 /\ 0 <= b <= 255.
Proof.
  apply (parseHexColor_channels (list_ascii_of_string "FF8800")).
  reflexivity.
Defined.

Lemma hue2rgb_between_witness :
  (Qmin (1 # 4) (3 # 4) <= Color.hue2rgb (1 # 4) (3 # 4) (1 # 12)
   <= Qmax (1 # 4) (3 # 4))%Q.
Proof. apply (hue2rgb_between (1 # 4) (3 # 4) (1 # 12)). discriminate. Defined.

Lemma parseHslColor_channels_witness :
  exists r g b,
    Color.parseHslColor 120 100 50 1 = [r; g; b; 1%Q]
    /\ (0 <= r <= 255)%Q /\ (0 <= g <= 255)%Q /\ (0 <= b <= 255)%Q.
Proof.
  destruct (parseHslColor_channels 120 100 50 1) as (r & g & b & H & Hr & Hg & Hb & _);
    [lia | lia | lia |].
  exists r, g, b. auto.
Defined.

Lemma checkState_again_witness :
  TimeLine.checkState (fst played) (snd played)
  = TimeLine.Ok tt (snd played).
Proof.
  apply (checkState_again (fst played) (snd played)).
  vm_compute. reflexivity.
Defined.



